(** * btrfs send: a shallow embedding of cmds-send.c

    The development follows the source file top-down: the subvolume
    registry the code queries, [get_root_id], [get_parent],
    [find_good_parent], [add_clone_source], the stream pump
    ([write_buf], [dump_thread]), [do_send], [is_subvol_ro] and
    [cmd_send].  System calls and the helpers of other translation units
    are answered by an explicit environment.  Behind it come the pure
    parts of cmds-filesystem.c (the hash of the fsids already shown, the
    device lists, [calc_used_bytes], [match_search_item_kernel]) and
    [is_numerical] of cmds-replace.c. *)

From Stdlib Require Import ZArith List String Bool Lia Arith.
From Stdlib.Strings Require Import Byte.
Import ListNotations.
Local Open Scope Z_scope.

Set Implicit Arguments.

(** ** Machine integers *)

(** A [u64] value is a [Z] in [0, 2^64); an [__s64] is a [Z] in
    [-2^63, 2^63).  Conversions wrap as gcc does. *)
Definition two64 : Z := 2 ^ 64.
Definition two63 : Z := 2 ^ 63.

Definition to_u64 (z : Z) : Z := z mod two64.

Definition to_s64 (z : Z) : Z :=
  let r := z mod two64 in if r <? two63 then r else r - two64.

(** [(u64)-1] *)
Definition U64_MAX : Z := to_u64 (-1).

(** ** errno values (Linux, asm-generic/errno-base.h) *)

Definition ENOENT : Z := 2.
Definition EIO    : Z := 5.
Definition ENOMEM : Z := 12.
Definition EINVAL : Z := 22.

(** ** The subvolume registry (send-utils.h) *)

(** [struct subvol_info], with the fields cmds-send.c reads.  A uuid is
    the 128-bit value of its 16 bytes. *)
Record subvol_info := {
  root_id     : Z;
  uuid        : Z;
  parent_uuid : Z;
  ctransid    : Z;
  path        : string
}.

Inductive subvol_search_type :=
| subvol_search_by_root_id
| subvol_search_by_uuid
| subvol_search_by_received_uuid
| subvol_search_by_path.

(** [struct subvol_uuid_search]: the handle through which
    [subvol_uuid_search] (send-utils.c, not part of this file) answers.
    The three lookups the code uses are the handle's behaviour; a [None]
    is the C function's NULL. *)
Record subvol_uuid_search_t := {
  by_root_id : Z -> option subvol_info;
  by_uuid    : Z -> option subvol_info;
  by_path    : string -> option subvol_info
}.

(** [subvol_uuid_search(s, root_id, uuid, transid, path, type)] *)
Definition subvol_uuid_search (sus : subvol_uuid_search_t)
    (rootid : Z) (uu : Z) (transid : Z) (p : string)
    (type : subvol_search_type) : option subvol_info :=
  match type with
  | subvol_search_by_root_id => by_root_id sus rootid
  | subvol_search_by_uuid => by_uuid sus uu
  | subvol_search_by_received_uuid => None
  | subvol_search_by_path => by_path sus p
  end.

(** A registry made of a table of subvolumes, first match wins; used to
    run the code on concrete filesystems. *)
Definition registry_of (tbl : list subvol_info) : subvol_uuid_search_t :=
  {| by_root_id := fun r => find (fun si => root_id si =? r) tbl;
     by_uuid    := fun u => find (fun si => uuid si =? u) tbl;
     by_path    := fun p => find (fun si => String.eqb (path si) p) tbl |}.

Definition empty_sus : subvol_uuid_search_t := registry_of [].

(** ** struct btrfs_send *)

(** [clone_sources] is the array together with [clone_sources_count]:
    the list holds the [clone_sources_count] elements of the array in
    index order.  (The loops index it with an [int]; counts beyond
    [INT_MAX] are not modelled.) *)
Record btrfs_send := {
  send_fd : Z;
  dump_fd : Z;
  mnt_fd  : Z;
  clone_sources : list Z;
  root_path : option string;
  sus : subvol_uuid_search_t
}.

Definition set_clone_sources (s : btrfs_send) (cs : list Z) : btrfs_send :=
  {| send_fd := send_fd s; dump_fd := dump_fd s; mnt_fd := mnt_fd s;
     clone_sources := cs; root_path := root_path s; sus := sus s |}.

(** Results of the functions that return [0] and fill an out-parameter,
    or return a negative errno. *)
Inductive result (A : Type) :=
| Ok (a : A)
| Error (ret : Z).
Arguments Ok {A} a.
Arguments Error {A} ret.

(** ** get_root_id, get_parent *)

Definition get_root_id (s : btrfs_send) (p : string) : result Z :=
  match subvol_uuid_search (sus s) 0 0 0 p subvol_search_by_path with
  | None => Error (- ENOENT)
  | Some si => Ok (root_id si)
  end.

Definition get_parent (s : btrfs_send) (rootid : Z) : option subvol_info :=
  match subvol_uuid_search (sus s) rootid 0 0 EmptyString
          subvol_search_by_root_id with
  | None => None
  | Some si_tmp =>
      subvol_uuid_search (sus s) 0 (parent_uuid si_tmp) 0 EmptyString
        subvol_search_by_uuid
  end.

(** ** find_good_parent *)

(** First loop: is [parent->root_id] one of the clone sources? *)
Fixpoint clone_sources_has (cs : list Z) (rootid : Z) : bool :=
  match cs with
  | [] => false
  | c :: cs' => if c =? rootid then true else clone_sources_has cs' rootid
  end.

(** [tmp = parent2->ctransid - parent->ctransid; if (tmp < 0) tmp *= -1;]
    with [__s64 tmp] and [u64] operands: the difference is taken modulo
    2^64 and read as a signed number.  ([tmp *= -1] overflows for
    [tmp = -2^63] only; it is taken to wrap.) *)
Definition ctransid_diff (parent2 parent : subvol_info) : Z :=
  let tmp := to_s64 (to_u64 (ctransid parent2 - ctransid parent)) in
  if tmp <? 0 then to_s64 (tmp * -1) else tmp.

(** Second loop, from index [i] on: [cs] are the clone sources not yet
    visited, [best_parent] and [best_diff] the loop-carried variables
    ([best_diff] is a [u64]: the comparison and the assignment convert
    [tmp]).  The result is the final [best_parent], or the [ret] of the
    [goto out] inside the loop. *)
Fixpoint scan_clone_sources (s : btrfs_send) (parent : subvol_info)
    (cs : list Z) (best_parent : option subvol_info) (best_diff : Z)
    : result (option subvol_info) :=
  match cs with
  | [] => Ok best_parent
  | c :: cs' =>
      match get_parent s c with
      | None => scan_clone_sources s parent cs' best_parent best_diff
      | Some parent2 =>
          if negb (root_id parent2 =? root_id parent) then
            scan_clone_sources s parent cs' best_parent best_diff
          else
            match subvol_uuid_search (sus s) c 0 0 EmptyString
                    subvol_search_by_root_id with
            | None => Error (- ENOENT)
            | Some parent2 =>
                let tmp := ctransid_diff parent2 parent in
                if to_u64 tmp <? best_diff then
                  scan_clone_sources s parent cs' (Some parent2) (to_u64 tmp)
                else
                  scan_clone_sources s parent cs' best_parent best_diff
            end
      end
  end.

Definition find_good_parent (s : btrfs_send) (rootid : Z) : result Z :=
  match get_parent s rootid with
  | None => Error (- ENOENT)
  | Some parent =>
      if clone_sources_has (clone_sources s) (root_id parent) then
        Ok (root_id parent)
      else
        match scan_clone_sources s parent (clone_sources s) None U64_MAX with
        | Error ret => Error ret
        | Ok None => Error (- ENOENT)
        | Ok (Some best_parent) => Ok (root_id best_parent)
        end
  end.

(** ** add_clone_source *)

(** [realloc_ok] is whether [realloc] returns non-NULL.  On failure the
    old array is freed and the pointer is NULL: the array is gone, which
    the list renders as [[]].  The code leaves [clone_sources_count] at
    its old value beside the NULL pointer; neither is read again, for
    each of the three callers in [cmd_send] jumps to [out:], where the
    pointer is only handed to [free]. *)
Definition add_clone_source (realloc_ok : bool) (s : btrfs_send)
    (rootid : Z) : Z * btrfs_send :=
  if realloc_ok then
    (0, set_clone_sources s (clone_sources s ++ [rootid]))
  else
    (- ENOMEM, set_clone_sources s []).

(** ** The stream pump: write_buf and dump_thread *)

(** What a [read] or [write] returns: a count (for [read], the bytes
    placed in the buffer, at most [sizeof(buf) = 4096] of them), or -1
    with [errno] set; [errno] is positive. *)
Inductive read_result :=
| ReadOk (data : list byte)
| ReadErr (errno : positive).

Inductive write_result :=
| WriteOk (n : N)
| WriteErr (errno : positive).

(** The sink behind [dump_fd]: the bytes it has accepted so far and what
    each [write] call made on it returned.  How the sink answers its
    [k]-th [write], of [count] bytes, is an oracle
    [nat -> Z -> write_result]. *)
Record sink_t := {
  written : list byte;
  wlog    : list write_result
}.

Definition wcalls (snk : sink_t) : nat := List.length (wlog snk).

Definition write_oracle := nat -> Z -> write_result.

(** the sink after a [write] that returned [r] without taking bytes *)
Definition sink_called (snk : sink_t) (r : write_result) : sink_t :=
  {| written := written snk; wlog := wlog snk ++ [r] |}.

(** the sink after [write(fd, buf + pos, size - pos)] returned [n] *)
Definition sink_accept (snk : sink_t) (buf : list byte) (pos : Z) (n : N)
    : sink_t :=
  {| written := written snk ++ firstn (N.to_nat n) (skipn (Z.to_nat pos) buf);
     wlog := wlog snk ++ [WriteOk n] |}.

(** The [while (pos < size)] loop of [write_buf].  Every iteration that
    does not leave the loop advances [pos] by at least one, so
    [size - pos] iterations are enough: [fuel] counts them, and
    [write_loop_unfold] below shows the loop equation holds whenever
    [fuel] is at least [size - pos]. *)
Fixpoint write_loop (fuel : nat) (wr : write_oracle) (snk : sink_t)
    (buf : list byte) (pos size : Z) : Z * sink_t :=
  match fuel with
  | O => (0, snk)
  | S fuel' =>
      if pos <? size then
        match wr (wcalls snk) (size - pos) with
        | WriteErr errno => (- Z.pos errno, sink_called snk (WriteErr errno))
        | WriteOk 0%N => (- EIO, sink_called snk (WriteOk 0))
        | WriteOk n =>
            write_loop fuel' wr (sink_accept snk buf pos n) buf
              (pos + Z.of_N n) size
        end
      else (0, snk)
  end.

Definition write_buf (wr : write_oracle) (snk : sink_t) (buf : list byte)
    (size : Z) : Z * sink_t :=
  write_loop (Z.to_nat size) wr snk buf 0 size.

(** The [while (1)] loop of [dump_thread] up to its [out:] label.
    [reads] are the results of the successive [read] calls on the pipe;
    the result is [ret] at [out:] ([None] when the thread is still
    waiting in [read] after the last listed result), the sink, and the
    results not consumed. *)
Fixpoint dump_loop (wr : write_oracle) (reads : list read_result)
    (snk : sink_t) : option Z * sink_t * list read_result :=
  match reads with
  | [] => (None, snk, [])
  | ReadErr errno :: rest => (Some (- Z.pos errno), snk, rest)
  | ReadOk data :: rest =>
      let readed := Z.of_nat (List.length data) in
      if readed =? 0 then (Some 0, snk, rest)
      else
        let (ret, snk') := write_buf wr snk data readed in
        if ret <? 0 then (Some ret, snk', rest)
        else dump_loop wr rest snk'
  end.

(** How the thread ends: [exit(-ret)] for a negative [ret], else
    [return ERR_PTR(ret)]. *)
Inductive thread_end :=
| ThreadExit (code : Z)
| ThreadReturn (t_err : Z)
| ThreadWaiting.

Definition dump_thread (wr : write_oracle) (reads : list read_result)
    (snk : sink_t) : thread_end * sink_t :=
  match dump_loop wr reads snk with
  | (Some ret, snk', _) =>
      if ret <? 0 then (ThreadExit (- ret), snk')
      else (ThreadReturn ret, snk')
  | (None, snk', _) => (ThreadWaiting, snk')
  end.

(** ** Constants of ioctl.h *)

(** The flag values come from ioctl.h, which is not part of this file;
    they are taken as an interface. *)
Class ioctl_h := {
  BTRFS_SEND_FLAG_NO_FILE_DATA : Z;
  BTRFS_SEND_FLAG_OMIT_STREAM_HEADER : Z;
  BTRFS_SEND_FLAG_OMIT_END_CMD : Z;
  BTRFS_SUBVOL_RDONLY : Z
}.

(** The values of the Linux ABI. *)
Definition linux_ioctl_h : ioctl_h :=
  {| BTRFS_SEND_FLAG_NO_FILE_DATA := 1;
     BTRFS_SEND_FLAG_OMIT_STREAM_HEADER := 2;
     BTRFS_SEND_FLAG_OMIT_END_CMD := 4;
     BTRFS_SUBVOL_RDONLY := 2 |}.

(** The three send flags are non-empty and share no bit. *)
Definition send_flags_disjoint (h : ioctl_h) : Prop :=
  BTRFS_SEND_FLAG_OMIT_STREAM_HEADER <> 0 /\
  BTRFS_SEND_FLAG_OMIT_END_CMD <> 0 /\
  Z.land BTRFS_SEND_FLAG_NO_FILE_DATA BTRFS_SEND_FLAG_OMIT_STREAM_HEADER = 0 /\
  Z.land BTRFS_SEND_FLAG_NO_FILE_DATA BTRFS_SEND_FLAG_OMIT_END_CMD = 0 /\
  Z.land BTRFS_SEND_FLAG_OMIT_STREAM_HEADER BTRFS_SEND_FLAG_OMIT_END_CMD = 0.

(** ** do_send *)

(** [struct btrfs_ioctl_send_args] as passed to [BTRFS_IOC_SEND],
    together with the subvolume the ioctl is issued on. *)
Record send_call := {
  io_subvol : string;
  io_send_fd : Z;
  io_clone_sources : list Z;
  io_parent_root : Z;
  io_flags : Z
}.

(** What the calls of [do_send] leave behind: the [BTRFS_IOC_SEND]
    requests issued so far and the sink. *)
Record trace := {
  log  : list send_call;
  sink : sink_t
}.

(** What the environment does during one call of [do_send].  A [Some]
    is the [errno] (or error number) of a failing call.
    [se_reads_during] are the results of the dump thread's [read] calls
    while the main thread is inside the ioctl, [se_reads_after] those
    after the ioctl's return: until the thread ends when the ioctl
    succeeded and the thread is joined, and until the process ends when
    the ioctl failed, for then the thread is neither joined nor
    cancelled and runs on beside the main thread. *)
Record send_env := {
  se_openat : option positive;
  se_pipe : option positive;
  se_pipefd : Z * Z;
  se_pthread_create : option positive;
  se_ioctl : option positive;
  se_reads_during : list read_result;
  se_reads_after : list read_result;
  se_pthread_join : option positive
}.

(** How a piece of [cmd_send] ends. *)
Inductive outcome (A : Type) :=
| Val (a : A)          (* ran to its end *)
| Goto_out (ret : Z)   (* [goto out] with this [ret] *)
| Exit (code : Z)      (* [exit(code)] was called *)
| Blocked.             (* waits forever *)
Arguments Val {A} a.
Arguments Goto_out {A} ret.
Arguments Exit {A} code.
Arguments Blocked {A}.

Definition set_send_fd (s : btrfs_send) (fd : Z) : btrfs_send :=
  {| send_fd := fd; dump_fd := dump_fd s; mnt_fd := mnt_fd s;
     clone_sources := clone_sources s; root_path := root_path s;
     sus := sus s |}.

Section WithIoctlH.
Context {h : ioctl_h}.

Definition send_args (s : btrfs_send) (pipefd1 : Z) (parent_root_id : Z)
    (is_first_subvol is_last_subvol : bool) (subvol : string) (flags : Z)
    : send_call :=
  let flags :=
    if negb is_first_subvol
    then Z.lor flags BTRFS_SEND_FLAG_OMIT_STREAM_HEADER else flags in
  let flags :=
    if negb is_last_subvol
    then Z.lor flags BTRFS_SEND_FLAG_OMIT_END_CMD else flags in
  {| io_subvol := subvol;
     io_send_fd := pipefd1;
     io_clone_sources := clone_sources s;
     io_parent_root := parent_root_id;
     io_flags := flags |}.

(** The result is [do_send]'s return value, unless the dump thread
    ended the process or never ends. *)
Definition do_send (e : send_env) (wr : write_oracle) (s : btrfs_send)
    (parent_root_id : Z) (is_first_subvol is_last_subvol : bool)
    (subvol : string) (flags : Z) (t : trace)
    : outcome Z * btrfs_send * trace :=
  match se_openat e with
  | Some errno => (Val (- Z.pos errno), s, t)
  | None =>
  match se_pipe e with
  | Some errno => (Val (- Z.pos errno), s, t)
  | None =>
  let s := set_send_fd s (fst (se_pipefd e)) in
  match se_pthread_create e with
  | Some err => (Val (- Z.pos err), s, t)
  | None =>
  let io_send := send_args s (snd (se_pipefd e)) parent_root_id
                   is_first_subvol is_last_subvol subvol flags in
  let lg := log t ++ [io_send] in
  (* the dump thread runs while the main thread is inside the ioctl *)
  match dump_thread wr (se_reads_during e) (sink t) with
  | (ThreadExit code, snk) => (Exit code, s, {| log := lg; sink := snk |})
  | (th, snk) =>
  match se_ioctl e with
  | Some errno =>
      (* goto out: the thread is not joined; if it fails before the
         process has ended, its exit(-ret) ends the process *)
      let (th, snk) :=
        match th with
        | ThreadWaiting => dump_thread wr (se_reads_after e) snk
        | _ => (th, snk)
        end in
      let t' := {| log := lg; sink := snk |} in
      match th with
      | ThreadExit code => (Exit code, s, t')
      | _ => (Val (- Z.pos errno), s, t')
      end
  | None =>
  (* close(pipefd[1]); pthread_join(t_read, &t_err) *)
  let (th, snk) :=
    match th with
    | ThreadWaiting => dump_thread wr (se_reads_after e) snk
    | _ => (th, snk)
    end in
  let t' := {| log := lg; sink := snk |} in
  match th with
  | ThreadExit code => (Exit code, s, t')
  | ThreadWaiting => (Blocked, s, t')
  | ThreadReturn t_err =>
      match se_pthread_join e with
      | Some err => (Val (- Z.pos err), s, t')
      | None =>
          if negb (t_err =? 0) then (Val t_err, s, t') else (Val 0, s, t')
      end
  end
  end
  end
  end
  end
  end.

(** ** The environment of cmd_send *)

(** A system call that yields a value, or fails with a positive
    [errno]. *)
Inductive sys (A : Type) :=
| Sys_ok (a : A)
| Sys_err (errno : positive).
Arguments Sys_ok {A} a.
Arguments Sys_err {A} errno.

(** The answers of the system and of the helpers of utils.c and
    send-utils.c that [cmd_send] calls.
    - [find_mount_root subvol] is the return value and the mount root.
    - [open_rdonly] is [open(path, O_RDONLY | O_NOATIME)].
    - [subvol_uuid_search_init mnt_fd] is the return value and the
      registry of that mount.
    - [subvol_getflags subvol] is the [openat] followed by the
      [BTRFS_IOC_SUBVOL_GETFLAGS] ioctl of [is_subvol_ro]; the paths it
      is called on are absolute ([realpath]), so the directory
      descriptor plays no part.
    - [realloc_ok n] is whether a [realloc] to [n] elements succeeds.
    - [arg_copy_path optarg] is the return value of copying [optarg]
      to [outname].
    - [send_envs i] is the environment of the [do_send] of the [i]-th
      subvolume of the command line. *)
Record world := {
  realpath : string -> sys string;
  find_mount_root : string -> Z * string;
  open_rdonly : string -> sys Z;
  subvol_uuid_search_init : Z -> Z * subvol_uuid_search_t;
  subvol_strip_mountpoint : string -> string -> string;
  subvol_getflags : string -> sys Z;
  realloc_ok : nat -> bool;
  arg_copy_path : string -> Z;
  creat : string -> sys Z;
  isatty : Z -> bool;
  send_envs : nat -> send_env;
  dump_write : write_oracle
}.

Definition set_root_path (s : btrfs_send) (rp : option string) : btrfs_send :=
  {| send_fd := send_fd s; dump_fd := dump_fd s; mnt_fd := mnt_fd s;
     clone_sources := clone_sources s; root_path := rp; sus := sus s |}.

Definition set_mnt_fd (s : btrfs_send) (fd : Z) : btrfs_send :=
  {| send_fd := send_fd s; dump_fd := dump_fd s; mnt_fd := fd;
     clone_sources := clone_sources s; root_path := root_path s;
     sus := sus s |}.

Definition set_dump_fd (s : btrfs_send) (fd : Z) : btrfs_send :=
  {| send_fd := send_fd s; dump_fd := fd; mnt_fd := mnt_fd s;
     clone_sources := clone_sources s; root_path := root_path s;
     sus := sus s |}.

Definition set_sus (s : btrfs_send) (r : subvol_uuid_search_t) : btrfs_send :=
  {| send_fd := send_fd s; dump_fd := dump_fd s; mnt_fd := mnt_fd s;
     clone_sources := clone_sources s; root_path := root_path s;
     sus := r |}.

(** ** init_root_path, is_subvol_ro *)

Definition init_root_path (w : world) (s : btrfs_send) (subvol : string)
    : Z * btrfs_send :=
  match root_path s with
  | Some _ => (0, s)
  | None =>
      let (r, mount_root) := find_mount_root w subvol in
      if r <? 0 then (- EINVAL, s)
      else if r >? 0 then (- EINVAL, s)
      else
        let s := set_root_path s (Some mount_root) in
        match open_rdonly w mount_root with
        | Sys_err errno => (- Z.pos errno, set_mnt_fd s (-1))
        | Sys_ok fd =>
            let s := set_mnt_fd s fd in
            let (r, reg) := subvol_uuid_search_init w fd in
            if r <? 0 then (r, s) else (r, set_sus s reg)
        end
  end.

(** [1] read-only, [0] writable, negative on error. *)
Definition is_subvol_ro (w : world) (s : btrfs_send) (subvol : string) : Z :=
  match subvol_getflags w subvol with
  | Sys_err errno => - Z.pos errno
  | Sys_ok flags =>
      if negb (Z.land flags BTRFS_SUBVOL_RDONLY =? 0) then 1 else 0
  end.

(** ** cmd_send *)

(** The local variables of [cmd_send] that live across statements, the
    trace, and the buffer of [stdout]: what [printf] has put there and
    stdio has not yet written to descriptor 1.  [cmd_send] only goes on
    when [isatty(send.dump_fd)] is 0, so, where [stdout] is the output of
    the stream, it is not a terminal and stdio buffers it fully: the few
    bytes [cmd_send] prints stay in the buffer until [exit] flushes
    it. *)
Record frame := {
  send : btrfs_send;
  snapshot_parent : option string;
  var_root_id : Z;
  parent_root_id : Z;
  full_send : bool;
  new_end_cmd_semantic : bool;
  send_flags : Z;
  outname : string;
  tr : trace;
  stdout_buf : list byte
}.

Definition set_send (s : btrfs_send) (f : frame) : frame :=
  {| send := s; snapshot_parent := snapshot_parent f;
     var_root_id := var_root_id f; parent_root_id := parent_root_id f;
     full_send := full_send f;
     new_end_cmd_semantic := new_end_cmd_semantic f;
     send_flags := send_flags f; outname := outname f; tr := tr f;
     stdout_buf := stdout_buf f |}.

Definition set_snapshot_parent (p : option string) (f : frame) : frame :=
  {| send := send f; snapshot_parent := p;
     var_root_id := var_root_id f; parent_root_id := parent_root_id f;
     full_send := full_send f;
     new_end_cmd_semantic := new_end_cmd_semantic f;
     send_flags := send_flags f; outname := outname f; tr := tr f;
     stdout_buf := stdout_buf f |}.

Definition set_root_id (r : Z) (f : frame) : frame :=
  {| send := send f; snapshot_parent := snapshot_parent f;
     var_root_id := r; parent_root_id := parent_root_id f;
     full_send := full_send f;
     new_end_cmd_semantic := new_end_cmd_semantic f;
     send_flags := send_flags f; outname := outname f; tr := tr f;
     stdout_buf := stdout_buf f |}.

Definition set_parent_root_id (r : Z) (f : frame) : frame :=
  {| send := send f; snapshot_parent := snapshot_parent f;
     var_root_id := var_root_id f; parent_root_id := r;
     full_send := full_send f;
     new_end_cmd_semantic := new_end_cmd_semantic f;
     send_flags := send_flags f; outname := outname f; tr := tr f;
     stdout_buf := stdout_buf f |}.

Definition set_full_send (b : bool) (f : frame) : frame :=
  {| send := send f; snapshot_parent := snapshot_parent f;
     var_root_id := var_root_id f; parent_root_id := parent_root_id f;
     full_send := b;
     new_end_cmd_semantic := new_end_cmd_semantic f;
     send_flags := send_flags f; outname := outname f; tr := tr f;
     stdout_buf := stdout_buf f |}.

Definition set_new_end_cmd_semantic (b : bool) (f : frame) : frame :=
  {| send := send f; snapshot_parent := snapshot_parent f;
     var_root_id := var_root_id f; parent_root_id := parent_root_id f;
     full_send := full_send f;
     new_end_cmd_semantic := b;
     send_flags := send_flags f; outname := outname f; tr := tr f;
     stdout_buf := stdout_buf f |}.

Definition set_send_flags (fl : Z) (f : frame) : frame :=
  {| send := send f; snapshot_parent := snapshot_parent f;
     var_root_id := var_root_id f; parent_root_id := parent_root_id f;
     full_send := full_send f;
     new_end_cmd_semantic := new_end_cmd_semantic f;
     send_flags := fl; outname := outname f; tr := tr f;
     stdout_buf := stdout_buf f |}.

Definition set_outname (o : string) (f : frame) : frame :=
  {| send := send f; snapshot_parent := snapshot_parent f;
     var_root_id := var_root_id f; parent_root_id := parent_root_id f;
     full_send := full_send f;
     new_end_cmd_semantic := new_end_cmd_semantic f;
     send_flags := send_flags f; outname := o; tr := tr f;
     stdout_buf := stdout_buf f |}.

Definition set_tr (t : trace) (f : frame) : frame :=
  {| send := send f; snapshot_parent := snapshot_parent f;
     var_root_id := var_root_id f; parent_root_id := parent_root_id f;
     full_send := full_send f;
     new_end_cmd_semantic := new_end_cmd_semantic f;
     send_flags := send_flags f; outname := outname f; tr := t;
     stdout_buf := stdout_buf f |}.

Definition set_stdout_buf (b : list byte) (f : frame) : frame :=
  {| send := send f; snapshot_parent := snapshot_parent f;
     var_root_id := var_root_id f; parent_root_id := parent_root_id f;
     full_send := full_send f;
     new_end_cmd_semantic := new_end_cmd_semantic f;
     send_flags := send_flags f; outname := outname f; tr := tr f;
     stdout_buf := b |}.

(** Statements of [cmd_send]: they transform the frame and either run
    to their end, jump to [out:], or end the process. *)
Definition M (A : Type) : Type := frame -> outcome A * frame.

Definition pure {A} (a : A) : M A := fun f => (Val a, f).

Definition bind {A B} (c : M A) (k : A -> M B) : M B :=
  fun f =>
    match c f with
    | (Val a, f') => k a f'
    | (Goto_out r, f') => (Goto_out r, f')
    | (Exit code, f') => (Exit code, f')
    | (Blocked, f') => (Blocked, f')
    end.

Definition goto_out {A} (r : Z) : M A := fun f => (Goto_out r, f).
Definition exit {A} (code : Z) : M A := fun f => (Exit code, f).
Definition get : M frame := fun f => (Val f, f).
Definition modify (g : frame -> frame) : M unit := fun f => (Val tt, g f).

Declare Scope send_scope.
Delimit Scope send_scope with send.
Notation "x <- c ;; k" := (bind c (fun x => k))
  (at level 61, c at next level, right associativity) : send_scope.
Notation "c ;; k" := (bind c (fun _ => k))
  (at level 61, right associativity) : send_scope.
Local Open Scope send_scope.

(** [x = call(...); if (x failed) { ret = -errno; goto out; }] *)
Definition sys_call {A} (r : sys A) : M A :=
  match r with
  | Sys_ok a => pure a
  | Sys_err errno => goto_out (- Z.pos errno)
  end.

(** [if (ret < 0) goto out;] *)
Definition check_ret (r : Z) : M unit :=
  if r <? 0 then goto_out r else pure tt.

(** [ret = is_subvol_ro(&send, subvol); if (ret < 0) goto out;
    if (!ret) { ret = -EINVAL; goto out; }] *)
Definition require_ro (w : world) (subvol : string) : M unit :=
  f <- get ;;
  let r := is_subvol_ro w (send f) subvol in
  check_ret r ;;
  if r =? 0 then goto_out (- EINVAL) else pure tt.

(** [ret = init_root_path(&send, subvol); if (ret < 0) goto out;] *)
Definition do_init_root_path (w : world) (subvol : string) : M unit :=
  f <- get ;;
  let (r, s) := init_root_path w (send f) subvol in
  modify (set_send s) ;;
  check_ret r.

(** [ret = add_clone_source(&send, id); if (ret < 0) goto out;] *)
Definition do_add_clone_source (w : world) (id : Z) : M unit :=
  f <- get ;;
  let (r, s) :=
    add_clone_source
      (realloc_ok w (S (List.length (clone_sources (send f)))))
      (send f) id in
  modify (set_send s) ;;
  check_ret r.

(** [send.root_path] where the code passes it as a string *)
Definition root_path_str (s : btrfs_send) : string :=
  match root_path s with Some p => p | None => EmptyString end.

(** What [getopt_long] returns for one option of the command line. *)
Inductive opt :=
| Opt_v
| Opt_e
| Opt_c (optarg : string)
| Opt_f (optarg : string)
| Opt_p (optarg : string)
| Opt_i
| Opt_no_data
| Opt_invalid.

(** One turn of the [switch (c)]. *)
Definition handle_opt (w : world) (c : opt) : M unit :=
  match c with
  | Opt_v => pure tt          (* g_verbose++ : only changes messages *)
  | Opt_e => modify (set_new_end_cmd_semantic true)
  | Opt_c optarg =>
      subvol <- sys_call (realpath w optarg) ;;
      do_init_root_path w subvol ;;
      f <- get ;;
      match get_root_id (send f)
              (subvol_strip_mountpoint w (root_path_str (send f)) subvol) with
      | Error r => goto_out r
      | Ok id =>
          modify (set_root_id id) ;;
          require_ro w subvol ;;
          do_add_clone_source w id ;;
          f <- get ;;
          let s := send f in
          let s := if mnt_fd s >=? 0 then set_mnt_fd s (-1) else s in
          modify (set_send (set_root_path s None)) ;;
          modify (set_full_send false)
      end
  | Opt_f optarg =>
      if negb (arg_copy_path w optarg =? 0) then goto_out 1
      else modify (set_outname optarg)
  | Opt_p optarg =>
      f <- get ;;
      match snapshot_parent f with
      | Some _ => goto_out 1
      | None =>
          sp <- sys_call (realpath w optarg) ;;
          modify (set_snapshot_parent (Some sp)) ;;
          require_ro w sp ;;
          modify (set_full_send false)
      end
  | Opt_i => goto_out 1
  | Opt_no_data =>
      f <- get ;;
      modify (set_send_flags
                (Z.lor (send_flags f) BTRFS_SEND_FLAG_NO_FILE_DATA))
  | Opt_invalid => goto_out 1
  end.

(** The [while (1)] around [getopt_long]. *)
Fixpoint getopt_loop (w : world) (opts : list opt) : M unit :=
  match opts with
  | [] => pure tt
  | c :: rest => handle_opt w c ;; getopt_loop w rest
  end.

(** From [check_argc_min] to the registration of the [-p] parent.
    [subvols] is [argv[optind .. argc)]. *)
Definition cmd_send_setup (w : world) (subvols : list string) : M unit :=
  match subvols with
  | [] => exit 1              (* usage(cmd_send_usage) *)
  | first :: _ =>
      f <- get ;;
      (if negb (String.eqb (outname f) EmptyString) then
         fd <- sys_call (creat w (outname f)) ;;
         modify (set_send (set_dump_fd (send f) fd))
       else pure tt) ;;
      f <- get ;;
      if isatty w (dump_fd (send f)) then goto_out 1
      else
        subvol <- sys_call (realpath w first) ;;
        do_init_root_path w subvol ;;
        f <- get ;;
        match snapshot_parent f with
        | None => pure tt
        | Some sp =>
            match get_root_id (send f)
                    (subvol_strip_mountpoint w (root_path_str (send f)) sp)
            with
            | Error r => goto_out r
            | Ok id =>
                modify (set_parent_root_id id) ;;
                do_add_clone_source w id
            end
        end
  end.

(** Body of the first [for] loop: every subvolume is on the same
    filesystem and read-only. *)
Definition check_item (w : world) (arg : string) : M unit :=
  subvol <- sys_call (realpath w arg) ;;
  let (r, mount_root) := find_mount_root w subvol in
  check_ret r ;;
  if r >? 0 then goto_out (- EINVAL)
  else
    f <- get ;;
    if negb (String.eqb (root_path_str (send f)) mount_root)
    then goto_out (- EINVAL)
    else require_ro w subvol.

Fixpoint check_loop (w : world) (args : list string) : M unit :=
  match args with
  | [] => pure tt
  | a :: rest => check_item w a ;; check_loop w rest
  end.

(** The text of [printf("Mode NO_FILE_DATA enabled\n")]. *)
Definition mode_no_file_data : list byte :=
  list_byte_of_string "Mode NO_FILE_DATA enabled" ++ [x0a].

(** [if (send_flags & BTRFS_SEND_FLAG_NO_FILE_DATA) printf(...)],
    between the two [for] loops. *)
Definition print_mode : M unit :=
  f <- get ;;
  if negb (Z.land (send_flags f) BTRFS_SEND_FLAG_NO_FILE_DATA =? 0)
  then modify (set_stdout_buf (stdout_buf f ++ mode_no_file_data))
  else pure tt.

(** [ret = do_send(...)] *)
Definition call_do_send (w : world) (i : nat)
    (is_first_subvol is_last_subvol : bool) (subvol : string) : M Z :=
  fun f =>
    match do_send (send_envs w i) (dump_write w) (send f) (parent_root_id f)
            is_first_subvol is_last_subvol subvol (send_flags f) (tr f) with
    | (o, s, t) => (o, set_tr t (set_send s f))
    end.

(** Body of the second [for] loop, for the subvolume at position [i]
    (counted from [optind]) of [n]. *)
Definition send_item (w : world) (n i : nat) (arg : string) : M unit :=
  subvol <- sys_call (realpath w arg) ;;
  f <- get ;;
  (if negb (full_send f) && (parent_root_id f =? 0) then
     match find_good_parent (send f) (var_root_id f) with
     | Error r => goto_out r
     | Ok found => modify (set_parent_root_id found)
     end
   else pure tt) ;;
  require_ro w subvol ;;
  f <- get ;;
  let is_first_subvol :=
    if new_end_cmd_semantic f then Nat.eqb i 0 else true in
  let is_last_subvol :=
    if new_end_cmd_semantic f then Nat.eqb i (n - 1) else true in
  r <- call_do_send w i is_first_subvol is_last_subvol subvol ;;
  check_ret r ;;
  (if negb (full_send f) then
     (* done with this subvol, so add it to the clone sources *)
     do_add_clone_source w (var_root_id f)
   else pure tt) ;;
  modify (set_parent_root_id 0).

Fixpoint send_loop (w : world) (n i : nat) (args : list string) : M unit :=
  match args with
  | [] => pure tt
  | a :: rest => send_item w n i a ;; send_loop w n (S i) rest
  end.

(** The state after [memset(&send, 0, sizeof(send))],
    [send.dump_fd = fileno(stdout)] and the initialisers. *)
Definition init_frame : frame :=
  {| send := {| send_fd := 0; dump_fd := 1; mnt_fd := 0;
                clone_sources := []; root_path := None; sus := empty_sus |};
     snapshot_parent := None;
     var_root_id := 0;
     parent_root_id := 0;
     full_send := true;
     new_end_cmd_semantic := false;
     send_flags := 0;
     outname := EmptyString;
     tr := {| log := []; sink := {| written := []; wlog := [] |} |};
     stdout_buf := [] |}.

Definition cmd_send_body (w : world) (opts : list opt)
    (subvols : list string) : M unit :=
  getopt_loop w opts ;;
  cmd_send_setup w subvols ;;
  check_loop w subvols ;;
  print_mode ;;
  send_loop w (List.length subvols) 0 subvols.

(** How the process ends. *)
Inductive status :=
| Returned (code : Z)      (* [return !!ret] *)
| Exited (code : Z)
| Hangs.

(** [cmd_send] on the options [opts] and the subvolumes [subvols], in
    the order of the command line. *)
Definition cmd_send (w : world) (opts : list opt) (subvols : list string)
    : status * frame :=
  match cmd_send_body w opts subvols init_frame with
  | (Val _, f) => (Returned 0, f)
  | (Goto_out r, f) => (Returned (if r =? 0 then 0 else 1), f)
  | (Exit code, f) => (Exited code, f)
  | (Blocked, f) => (Hangs, f)
  end.

End WithIoctlH.

(** * Specification vocabulary and sample filesystems *)

(** ** The sibling search in the words of the specification *)

(** [c] is a sibling of the target: its recorded ancestor is [parent]. *)
Definition is_sibling (s : btrfs_send) (parent : subvol_info) (c : Z) : bool :=
  match get_parent s c with
  | Some parent2 => root_id parent2 =? root_id parent
  | None => false
  end.

(** Absolute difference between the creation transaction id of clone
    source [c] and that of [parent]. *)
Definition abs_diff (s : btrfs_send) (parent : subvol_info) (c : Z) : Z :=
  match by_root_id (sus s) c with
  | Some si => Z.abs (ctransid si - ctransid parent)
  | None => 0
  end.

(** [r] is what the sibling search has to return: the sibling among the
    clone sources with the smallest absolute difference, the earliest
    one on ties; [-ENOENT] when there is no sibling. *)
Definition closest_sibling_returned (s : btrfs_send) (parent : subvol_info)
    (r : result Z) : Prop :=
  match r with
  | Ok found =>
      exists i : nat,
        nth_error (clone_sources s) i = Some found /\
        is_sibling s parent found = true /\
        forall (j : nat) (c : Z),
          nth_error (clone_sources s) j = Some c ->
          is_sibling s parent c = true ->
          abs_diff s parent found <= abs_diff s parent c /\
          (abs_diff s parent c = abs_diff s parent found -> (i <= j)%nat)
  | Error ret =>
      ret = - ENOENT /\
      forall c, In c (clone_sources s) -> is_sibling s parent c = false
  end.

(** The registry answers a root id with a record of that root id. *)
Definition by_root_id_sound (sus : subvol_uuid_search_t) : Prop :=
  forall r si, by_root_id sus r = Some si -> root_id si = r.

(** The transaction ids involved fit a signed 64-bit integer. *)
Definition ctransid_in_s64 (s : btrfs_send) (parent : subvol_info) : Prop :=
  0 <= ctransid parent < two63 /\
  forall c si, In c (clone_sources s) -> by_root_id (sus s) c = Some si ->
               0 <= ctransid si < two63.

(** State of the second loop after the clone sources [pre]. *)
Definition scan_inv (s : btrfs_send) (parent : subvol_info) (pre : list Z)
    (best : option subvol_info) (best_diff : Z) : Prop :=
  match best with
  | None =>
      best_diff = U64_MAX /\ forall c, In c pre -> is_sibling s parent c = false
  | Some bp =>
      exists i : nat,
        nth_error pre i = Some (root_id bp) /\
        is_sibling s parent (root_id bp) = true /\
        best_diff = abs_diff s parent (root_id bp) /\
        0 <= best_diff < two63 /\
        forall (j : nat) (c : Z),
          nth_error pre j = Some c -> is_sibling s parent c = true ->
          best_diff <= abs_diff s parent c /\
          (abs_diff s parent c = best_diff -> (i <= j)%nat)
  end.

(** ** Sample filesystems *)

Definition mk_send (cs : list Z) (tbl : list subvol_info) : btrfs_send :=
  {| send_fd := 0; dump_fd := 1; mnt_fd := 3; clone_sources := cs;
     root_path := Some "/mnt"%string; sus := registry_of tbl |}.

Definition mk_subvol (id u pu ct : Z) (p : string) : subvol_info :=
  {| root_id := id; uuid := u; parent_uuid := pu; ctransid := ct; path := p |}.

(** An ancestor created in transaction 100 and three snapshots of it,
    created in transactions 90, 150 and 101, plus the target. *)
Definition fs_siblings : list subvol_info :=
  [ mk_subvol 256 1 0 100 "base";
    mk_subvol 257 2 1 90 "s90";
    mk_subvol 258 3 1 150 "s150";
    mk_subvol 259 4 1 101 "s101";
    mk_subvol 260 5 1 120 "target" ].

Definition send_siblings : btrfs_send := mk_send [257; 258; 259] fs_siblings.

(** Transaction ids whose difference does not fit [__s64]. *)
Definition fs_wrap : list subvol_info :=
  [ mk_subvol 5 1 0 0 "base";
    mk_subvol 6 2 1 (two63 - 3) "near";
    mk_subvol 7 3 1 (two63 + 5) "far";
    mk_subvol 8 4 1 1 "target" ].

Definition send_wrap : btrfs_send := mk_send [6; 7] fs_wrap.

(** ** Sample sinks and pipes *)

Definition empty_sink : sink_t := {| written := []; wlog := [] |}.

(** A sink that takes at most two bytes per [write]. *)
Definition two_bytes_at_a_time : write_oracle :=
  fun _ count => WriteOk (Z.to_N (Z.min count 2)).

(** A sink that takes everything it is offered. *)
Definition greedy_sink : write_oracle :=
  fun _ count => WriteOk (Z.to_N count).

(** A sink whose every [write] fails with [EPIPE]. *)
Definition broken_sink : write_oracle :=
  fun _ _ => WriteErr 32.

Definition abc : list byte := [x61; x62; x63].

(** The sink keeps accepting at least one byte and never more than it
    is offered. *)
Definition sink_progress (wr : write_oracle) : Prop :=
  forall (k : nat) (count : Z), 0 < count ->
    exists n : N, wr k count = WriteOk n /\ 0 < Z.of_N n <= count.

Definition read_failed (r : read_result) : Prop :=
  match r with ReadErr _ => True | ReadOk _ => False end.

Definition write_failed (r : write_result) : Prop :=
  match r with
  | WriteErr _ => True
  | WriteOk n => n = 0%N
  end.

(** ** Sample runs of do_send *)

Definition quiet_env : send_env :=
  {| se_openat := None; se_pipe := None; se_pipefd := (4, 5);
     se_pthread_create := None; se_ioctl := None;
     se_reads_during := [ReadOk abc]; se_reads_after := [ReadOk []];
     se_pthread_join := None |}.

(** The ioctl fails with [EINVAL] while the dump thread still waits in
    [read]; [do_send] closes the pipe, and the thread's [read] fails with
    [EBADF] before the process has ended. *)
Definition env_generator_fails_first : send_env :=
  {| se_openat := None; se_pipe := None; se_pipefd := (4, 5);
     se_pthread_create := None; se_ioctl := Some 22%positive;
     se_reads_during := []; se_reads_after := [ReadErr 9];
     se_pthread_join := None |}.


(** The dump thread's [write] fails with [EPIPE] while the main thread
    is still inside an ioctl that is going to fail with [EINVAL]. *)
Definition env_drain_fails_first : send_env :=
  {| se_openat := None; se_pipe := None; se_pipefd := (4, 5);
     se_pthread_create := None; se_ioctl := Some 22%positive;
     se_reads_during := [ReadOk abc]; se_reads_after := [];
     se_pthread_join := None |}.

(** The drain task, taken on its own over all it reads, fails. *)
Definition drain_fails (e : send_env) (wr : write_oracle) (snk : sink_t)
    : Prop :=
  exists code snk',
    dump_thread wr (se_reads_during e ++ se_reads_after e) snk
      = (ThreadExit code, snk').

(** The thread is created: everything before the ioctl succeeds. *)
Definition thread_started (e : send_env) : Prop :=
  se_openat e = None /\ se_pipe e = None /\ se_pthread_create e = None.

(** ** Vocabulary for cmd_send *)

Section SendVocabulary.
Context {h : ioctl_h}.

(** the stream header / end command is left out of this request *)
Definition omit_header (c : send_call) : bool :=
  negb (Z.land (io_flags c) BTRFS_SEND_FLAG_OMIT_STREAM_HEADER =? 0).

Definition omit_trailer (c : send_call) : bool :=
  negb (Z.land (io_flags c) BTRFS_SEND_FLAG_OMIT_END_CMD =? 0).

Definition is_opt_e (c : opt) : bool :=
  match c with Opt_e => true | _ => false end.

(** [-e] is among the options *)
Definition has_opt_e (opts : list opt) : bool := existsb is_opt_e opts.

(** the paths given with [-c] and [-p] *)
Fixpoint opt_paths (opts : list opt) : list string :=
  match opts with
  | [] => []
  | Opt_c p :: rest => p :: opt_paths rest
  | Opt_p p :: rest => p :: opt_paths rest
  | _ :: rest => opt_paths rest
  end.

(** [p] resolves to a subvolume whose flags lack [BTRFS_SUBVOL_RDONLY]. *)
Definition writable (w : world) (p : string) : Prop :=
  exists q flags,
    realpath w p = Sys_ok q /\
    subvol_getflags w q = Sys_ok flags /\
    Z.land flags BTRFS_SUBVOL_RDONLY = 0.

(** the process ended with an error *)
Definition failed (st : status) : Prop :=
  match st with
  | Returned code => code = 1
  | Exited code => 0 < code
  | Hangs => False
  end.


(** what [cmd_send] makes of the way its body ends *)
Definition status_of {A} (o : outcome A) : status :=
  match o with
  | Val _ => Returned 0
  | Goto_out r => Returned (if r =? 0 then 0 else 1)
  | Exit code => Exited code
  | Blocked => Hangs
  end.

(** [cmd_send] up to the second [for] loop *)
Definition cmd_send_prelude (w : world) (opts : list opt)
    (subvols : list string) : M unit :=
  bind (getopt_loop w opts) (fun _ =>
  bind (cmd_send_setup w subvols) (fun _ =>
  bind (check_loop w subvols) (fun _ =>
  print_mode))).

(** Every step of the loop body for [arg], started in frame [f], went
    well: the path resolved, the parent was determined where a search
    was due, the subvolume is read-only, [do_send] returned 0 with the
    ioctl, the thread and the join all succeeding, and the clone source
    was added where one is due. *)
Definition item_steps_ok (w : world) (n i : nat) (arg : string) (f : frame)
    : Prop :=
  exists subvol parent,
    realpath w arg = Sys_ok subvol /\
    (if negb (full_send f) && (parent_root_id f =? 0)
     then find_good_parent (send f) (var_root_id f) = Ok parent
     else parent = parent_root_id f) /\
    is_subvol_ro w (send f) subvol = 1 /\
    (exists s t,
       do_send (send_envs w i) (dump_write w) (send f) parent
         (if new_end_cmd_semantic f then Nat.eqb i 0 else true)
         (if new_end_cmd_semantic f then Nat.eqb i (n - 1) else true)
         subvol (send_flags f) (tr f) = (Val 0, s, t)) /\
    se_openat (send_envs w i) = None /\
    se_pipe (send_envs w i) = None /\
    se_pthread_create (send_envs w i) = None /\
    se_ioctl (send_envs w i) = None /\
    se_pthread_join (send_envs w i) = None /\
    (full_send f = false ->
     realloc_ok w (S (List.length (clone_sources (send f)))) = true).

End SendVocabulary.

(** ** A sample machine *)

(** [base], a clone source [c] and a snapshot [s1] taken from it, [s2]
    taken from [s1], and a writable subvolume [rw]. *)
Definition fs_batch : list subvol_info :=
  [ mk_subvol 256 1 0 100 "base";
    mk_subvol 257 2 1 110 "c";
    mk_subvol 258 3 1 120 "s1";
    mk_subvol 259 4 3 130 "s2";
    mk_subvol 260 5 1 140 "rw" ].

(** Everything lives under one mount point, [/mnt]; all subvolumes but
    [/mnt/rw] are read-only; no call fails. *)
Definition sample_world : world :=
  {| realpath := fun p => Sys_ok p;
     find_mount_root := fun _ => (0, "/mnt"%string);
     open_rdonly := fun _ => Sys_ok 3;
     subvol_uuid_search_init := fun _ => (0, registry_of fs_batch);
     subvol_strip_mountpoint :=
       fun rp p =>
         substring (S (String.length rp))
           (String.length p - S (String.length rp)) p;
     subvol_getflags :=
       fun p => if String.eqb p "/mnt/rw" then Sys_ok 0 else Sys_ok 2;
     realloc_ok := fun _ => true;
     arg_copy_path := fun _ => 0;
     creat := fun _ => Sys_ok 4;
     isatty := fun _ => false;
     send_envs := fun _ => quiet_env;
     dump_write := greedy_sink |}.

Section TraceVocabulary.
Context {h : ioctl_h}.

(** [c] is the request for [subvol], the item at position [k] of [n],
    issued under framing mode [e] with option flags [fl], when the clone
    sources held at least [cs]. *)
Definition entry_at (e : bool) (fl : Z) (cs : list Z) (n k : nat)
    (subvol : string) (c : send_call) : Prop :=
  exists s1 fd parent,
    c = send_args s1 fd parent
          (if e then Nat.eqb k 0 else true)
          (if e then Nat.eqb k (n - 1) else true) subvol fl /\
    incl cs (clone_sources s1).

(** the option flags carry none of the two framing bits *)
Definition flags_clean (fl : Z) : Prop :=
  Z.land fl BTRFS_SEND_FLAG_OMIT_STREAM_HEADER = 0 /\
  Z.land fl BTRFS_SEND_FLAG_OMIT_END_CMD = 0.

(** how a statement before the second loop may end *)
Definition prelude_outcome {A} (o : outcome A) : Prop :=
  match o with
  | Val _ => True
  | Goto_out r => r <> 0
  | Exit code => 0 < code
  | Blocked => False
  end.

End TraceVocabulary.

Section LoopBodyParts.
Context {h : ioctl_h}.

(** The loop body of the second [for] from the read-only check on. *)
Definition send_item_tail (w : world) (n i : nat) (subvol : string) : M unit :=
  bind (require_ro w subvol) (fun _ =>
  bind get (fun f =>
  let is_first_subvol :=
    if new_end_cmd_semantic f then Nat.eqb i 0 else true in
  let is_last_subvol :=
    if new_end_cmd_semantic f then Nat.eqb i (n - 1) else true in
  bind (call_do_send w i is_first_subvol is_last_subvol subvol) (fun r =>
  bind (check_ret r) (fun _ =>
  bind (if negb (full_send f) then do_add_clone_source w (var_root_id f)
        else pure tt) (fun _ =>
  modify (set_parent_root_id 0)))))).

End LoopBodyParts.





(** The frame of [btrfs send -p /mnt/base /mnt/s1] before the loop. *)
Definition parent_f0 : frame :=
  snd (@cmd_send_prelude linux_ioctl_h sample_world [Opt_p "/mnt/base"]
         ["/mnt/s1"%string] init_frame).

(** ** Vocabulary for the stream pump *)

(** The bytes the listed reads delivered, in order. *)
Definition data_of (reads : list read_result) : list byte :=
  flat_map (fun r => match r with ReadOk data => data | ReadErr _ => [] end)
    reads.

(** ** Vocabulary for do_send *)

(** [e] and [e'] differ at most in when the dump thread performs its
    reads: the same reads, cut differently by the ioctl's return. *)
Definition same_but_schedule (e e' : send_env) : Prop :=
  se_openat e = se_openat e' /\
  se_pipe e = se_pipe e' /\
  se_pipefd e = se_pipefd e' /\
  se_pthread_create e = se_pthread_create e' /\
  se_ioctl e = se_ioctl e' /\
  se_pthread_join e = se_pthread_join e' /\
  se_reads_during e ++ se_reads_after e =
    se_reads_during e' ++ se_reads_after e'.

(** [quiet_env] with the whole stream read before the ioctl returns. *)
Definition quiet_env_early : send_env :=
  {| se_openat := None; se_pipe := None; se_pipefd := (4, 5);
     se_pthread_create := None; se_ioctl := None;
     se_reads_during := [ReadOk abc; ReadOk []]; se_reads_after := [];
     se_pthread_join := None |}.

(** The sample machine with a mount point that cannot be opened. *)
Definition world_open_fails : world :=
  {| realpath := realpath sample_world;
     find_mount_root := find_mount_root sample_world;
     open_rdonly := fun _ => @Sys_err Z 13%positive;
     subvol_uuid_search_init := subvol_uuid_search_init sample_world;
     subvol_strip_mountpoint := subvol_strip_mountpoint sample_world;
     subvol_getflags := subvol_getflags sample_world;
     realloc_ok := realloc_ok sample_world;
     arg_copy_path := arg_copy_path sample_world;
     creat := creat sample_world;
     isatty := isatty sample_world;
     send_envs := send_envs sample_world;
     dump_write := dump_write sample_world |}.

(** ** Vocabulary for whole runs of cmd_send *)

(** [parent] is the parent the loop body settles on when started in
    frame [f]: the result of the search where one is due, else the
    current [parent_root_id]. *)
Definition parent_for (f : frame) (parent : Z) : Prop :=
  if negb (full_send f) && (parent_root_id f =? 0)
  then find_good_parent (send f) (var_root_id f) = Ok parent
  else parent = parent_root_id f.

(** The bytes delivered by [reads] before the first zero-length or
    failing read. *)
Fixpoint until_eof (reads : list read_result) : list byte :=
  match reads with
  | [] => []
  | ReadErr _ :: _ => []
  | ReadOk [] :: _ => []
  | ReadOk data :: rest => data ++ until_eof rest
  end.

(** All the reads of the dump thread of the [i]-th item. *)
Definition item_reads (w : world) (i : nat) : list read_result :=
  se_reads_during (send_envs w i) ++ se_reads_after (send_envs w i).

Definition is_opt_p (c : opt) : bool :=
  match c with Opt_p _ => true | _ => false end.

(** how many [-p] options the command line has *)
Definition count_opt_p (opts : list opt) : nat :=
  List.length (filter is_opt_p opts).

(** The sample machine with its standard output, and no other
    descriptor, on a terminal. *)
Definition world_tty : world :=
  {| realpath := realpath sample_world;
     find_mount_root := find_mount_root sample_world;
     open_rdonly := open_rdonly sample_world;
     subvol_uuid_search_init := subvol_uuid_search_init sample_world;
     subvol_strip_mountpoint := subvol_strip_mountpoint sample_world;
     subvol_getflags := subvol_getflags sample_world;
     realloc_ok := realloc_ok sample_world;
     arg_copy_path := arg_copy_path sample_world;
     creat := creat sample_world;
     isatty := fun fd => fd =? 1;
     send_envs := send_envs sample_world;
     dump_write := dump_write sample_world |}.

(** The sample machine with a second filesystem mounted on [/data]. *)
Definition world_two_mounts : world :=
  {| realpath := realpath sample_world;
     find_mount_root :=
       fun p => if String.eqb p "/data/s9" then (0, "/data"%string)
                else (0, "/mnt"%string);
     open_rdonly := open_rdonly sample_world;
     subvol_uuid_search_init := subvol_uuid_search_init sample_world;
     subvol_strip_mountpoint := subvol_strip_mountpoint sample_world;
     subvol_getflags := subvol_getflags sample_world;
     realloc_ok := realloc_ok sample_world;
     arg_copy_path := arg_copy_path sample_world;
     creat := creat sample_world;
     isatty := isatty sample_world;
     send_envs := send_envs sample_world;
     dump_write := dump_write sample_world |}.

(** ** Vocabulary for the output of cmd_send *)

(** The name the option loop leaves in [outname] when it started with
    [name]: the argument of the last [-f]. *)
Fixpoint last_outname (opts : list opt) (name : string) : string :=
  match opts with
  | [] => name
  | Opt_f optarg :: rest => last_outname rest optarg
  | _ :: rest => last_outname rest name
  end.

(** The descriptor the stream is to be written to on this command line:
    that of [stdout], or what [creat] returns for the file of [-f]. *)
Definition output_fd (w : world) (opts : list opt) : sys Z :=
  if String.eqb (last_outname opts EmptyString) EmptyString
  then Sys_ok (dump_fd (send init_frame))
  else creat w (last_outname opts EmptyString).

Definition is_opt_no_data (c : opt) : bool :=
  match c with Opt_no_data => true | _ => false end.

(** [--no-data] is among the options *)
Definition has_opt_no_data (opts : list opt) : bool :=
  existsb is_opt_no_data opts.

(** [f'] has the buffer of [stdout], the output descriptor, the output
    name and the option flags of [f]. *)
Definition keeps_output (f f' : frame) : Prop :=
  stdout_buf f' = stdout_buf f /\
  dump_fd (send f') = dump_fd (send f) /\
  outname f' = outname f /\
  send_flags f' = send_flags f.

(** a statement that, run in frame [f], changes none of these, however
    it ends *)
Definition preserves_at {A} (c : M A) (f : frame) : Prop :=
  forall o f', c f = (o, f') -> keeps_output f f'.

(** What the descriptor behind [send.dump_fd] has received once the
    process has ended.  [exit], whether [main] calls it with the result
    of [cmd_send] or the dump thread calls it, writes out the buffer of
    [stdout], whose descriptor is 1; where that is [send.dump_fd], the
    bytes follow what the dump threads wrote.  stdio writes the buffer
    out as [write_buf] does: it goes on after a partial write and gives
    up on an error. *)
Definition output_at_exit (w : world) (f : frame) : sink_t :=
  if dump_fd (send f) =? 1 then
    snd (write_buf (dump_write w) (sink (tr f)) (stdout_buf f)
           (Z.of_nat (List.length (stdout_buf f))))
  else sink (tr f).

(** * cmds-filesystem.c *)

(** ** The hash of the fsids already shown *)

Definition EEXIST : Z := 17.

Definition SEEN_FSID_HASH_SIZE : nat := 256.

(** [seen_fsid_hash]: each slot holds its chain of [struct seen_fsid],
    first element first. *)
Definition seen_fsid_hash_t : Type := nat -> list (list byte).

(** [static struct seen_fsid *seen_fsid_hash[SEEN_FSID_HASH_SIZE] = {NULL,}] *)
Definition seen_fsid_hash : seen_fsid_hash_t := fun _ => [].

Definition set_slot (tbl : seen_fsid_hash_t) (slot : nat)
    (chain : list (list byte)) : seen_fsid_hash_t :=
  fun s => if Nat.eqb s slot then chain else tbl s.

Fixpoint bytes_eqb (a b : list byte) : bool :=
  match a, b with
  | [], [] => true
  | x :: a', y :: b' => Byte.eqb x y && bytes_eqb a' b'
  | _, _ => false
  end.

(** [u8 hash = fsid[0]; int slot = hash % SEEN_FSID_HASH_SIZE] *)
Definition fsid_slot (fsid : list byte) : nat :=
  Nat.modulo (Byte.to_nat (hd x00 fsid)) SEEN_FSID_HASH_SIZE.

Definition is_seen_fsid (tbl : seen_fsid_hash_t) (fsid : list byte) : Z :=
  match tbl (fsid_slot fsid) with
  | [] => 0
  | _ :: _ => 1
  end.

Section SeenFsid.

(** [BTRFS_FSID_SIZE] of ctree.h; the callers pass buffers of that many
    bytes. *)
Variable BTRFS_FSID_SIZE : nat.

(** [memcmp(seen->fsid, fsid, BTRFS_FSID_SIZE) == 0] *)
Definition same_fsid (seen fsid : list byte) : bool :=
  bytes_eqb (firstn BTRFS_FSID_SIZE seen) (firstn BTRFS_FSID_SIZE fsid).

(** The [while (1)] of [add_seen_fsid]: does the walk along the chain end
    in [return -EEXIST]? *)
Fixpoint chain_has (chain : list (list byte)) (fsid : list byte) : bool :=
  match chain with
  | [] => false
  | seen :: next =>
      if same_fsid seen fsid then true else chain_has next fsid
  end.

(** [malloc_ok] tells whether [malloc] returns memory. *)
Definition add_seen_fsid (malloc_ok : bool) (tbl : seen_fsid_hash_t)
    (fsid : list byte) : Z * seen_fsid_hash_t :=
  let slot := fsid_slot fsid in
  if chain_has (tbl slot) fsid then (- EEXIST, tbl)
  else if negb malloc_ok then (- ENOMEM, tbl)
  else
    (* the new element goes behind the last one of the chain *)
    (0, set_slot tbl slot (tbl slot ++ [firstn BTRFS_FSID_SIZE fsid])).

(** A sequence of calls of [add_seen_fsid], each with the answer of its
    [malloc]. *)
Fixpoint add_all (tbl : seen_fsid_hash_t) (calls : list (bool * list byte))
    : seen_fsid_hash_t :=
  match calls with
  | [] => tbl
  | (malloc_ok, fsid) :: rest =>
      add_all (snd (add_seen_fsid malloc_ok tbl fsid)) rest
  end.

(** Every element of a chain is a copy of [BTRFS_FSID_SIZE] bytes, and
    no chain holds the same fsid twice. *)
Definition chains_ok (tbl : seen_fsid_hash_t) : Prop :=
  forall slot,
    NoDup (tbl slot) /\
    forall seen, In seen (tbl slot) -> firstn BTRFS_FSID_SIZE seen = seen.

End SeenFsid.

Definition free_seen_fsid (tbl : seen_fsid_hash_t) : seen_fsid_hash_t :=
  fun slot => if Nat.ltb slot SEEN_FSID_HASH_SIZE then [] else tbl slot.

(** Two fsids of 16 bytes that differ in their last byte only. *)
Definition fsid_a : list byte :=
  [x2a; x01; x02; x03; x04; x05; x06; x07;
   x08; x09; x0a; x0b; x0c; x0d; x0e; x0f].

Definition fsid_b : list byte :=
  [x2a; x01; x02; x03; x04; x05; x06; x07;
   x08; x09; x0a; x0b; x0c; x0d; x0e; xff].

(** ** The devices of a filesystem and of its seeds *)

(** The fields of [struct btrfs_device] (volumes.h) that
    [cmp_device_id] and [splice_device_list] read. *)
Record btrfs_device := {
  devid : Z;              (* u64 *)
  generation : Z;         (* u64 *)
  dev_name : string       (* char *name *)
}.

(** Sort devices by devid, ascending. *)
Definition cmp_device_id (da db : btrfs_device) : Z :=
  if devid da <? devid db then -1
  else if devid da >? devid db then 1 else 0.

(** The inner [list_for_each_entry_safe] of [splice_device_list], for one
    [in_all]: whether [in_all] stays in its list, and the seed devices that
    are left. *)
Fixpoint splice_scan (in_all : btrfs_device)
    (seed_devices : list btrfs_device) : bool * list btrfs_device :=
  match seed_devices with
  | [] => (true, [])
  | in_seed :: next_seed =>
      if devid in_all =? devid in_seed then
        if generation in_all <? generation in_seed
        then (false, seed_devices)          (* list_del(&in_all->dev_list) *)
        else if generation in_all >? generation in_seed
        then (true, next_seed)              (* list_del(&in_seed->dev_list) *)
        else (true, seed_devices)
        (* break *)
      else
        let (keep, rest) := splice_scan in_all next_seed in
        (keep, in_seed :: rest)
  end.

(** The outer [list_for_each_entry_safe]: the devices left in
    [all_devices] and in [seed_devices]. *)
Fixpoint splice_loop (all_devices seed_devices : list btrfs_device)
    : list btrfs_device * list btrfs_device :=
  match all_devices with
  | [] => ([], seed_devices)
  | in_all :: next_all =>
      let (keep, seed1) := splice_scan in_all seed_devices in
      let (all2, seed2) := splice_loop next_all seed1 in
      (if keep then in_all :: all2 else all2, seed2)
  end.

(** [all_devices] after the call; [list_splice(list, head)] of list.h
    puts the elements of [list] in front of those of [head]. *)
Definition splice_device_list (seed_devices all_devices : list btrfs_device)
    : list btrfs_device :=
  let (all1, seed1) := splice_loop all_devices seed_devices in
  seed1 ++ all1.

(** No two devices of [l] of equal devid differ in their generation. *)
Definition one_generation (l : list btrfs_device) : Prop :=
  forall d1 d2, In d1 l -> In d2 l -> devid d1 = devid d2 ->
                generation d1 = generation d2.

(** A sprout with devices 1 and 2 whose device 1 replaced the one of the
    seed, and the seed with devices 1 and 3. *)
Definition sprout_devices : list btrfs_device :=
  [ {| devid := 1; generation := 9; dev_name := "/dev/sdc" |};
    {| devid := 2; generation := 9; dev_name := "/dev/sdb" |} ].

Definition seed_devices_of_sprout : list btrfs_device :=
  [ {| devid := 1; generation := 5; dev_name := "/dev/sda" |};
    {| devid := 3; generation := 5; dev_name := "/dev/sdd" |} ].

(** ** calc_used_bytes *)

(** [spaces] holds [si->spaces[i].used_bytes] for [i] below
    [si->total_spaces]. *)
Definition calc_used_bytes (spaces : list Z) : Z :=
  fold_left (fun ret used_bytes => to_u64 (ret + used_bytes)) spaces 0.

(** * cmds-replace.c *)

(** a character from 0 to 9 *)
Definition is_digit (c : Ascii.ascii) : bool :=
  (Nat.leb 48 (Ascii.nat_of_ascii c)) && (Nat.leb (Ascii.nat_of_ascii c) 57).

(** The loop that moves [str] past the leading digits; a [string] holds
    the characters before the terminating NUL. *)
Fixpoint skip_digits (str : string) : string :=
  match str with
  | EmptyString => EmptyString
  | String c rest => if is_digit c then skip_digits rest else str
  end.

Definition is_numerical (str : string) : Z :=
  match str with
  | EmptyString => 0
  | String c _ =>
      if negb (is_digit c) then 0
      else
        match skip_digits str with
        | EmptyString => 1
        | String _ _ => 0
        end
  end.

(** every character of [str] is a decimal digit *)
Fixpoint all_digits (str : string) : Prop :=
  match str with
  | EmptyString => True
  | String c rest => is_digit c = true /\ all_digits rest
  end.

(** * cmds-filesystem.c: selecting a mounted filesystem *)

(** [strncmp(a, b, n) == 0] on the characters before the terminating
    NULs *)
Fixpoint strncmp_eq (a b : string) (n : nat) : bool :=
  match n with
  | O => true
  | S n' =>
      match a, b with
      | EmptyString, EmptyString => true
      | String x a', String y b' =>
          if Ascii.eqb x y then strncmp_eq a' b' n' else false
      | _, _ => false
      end
  end.

Section MatchSearchItem.

(** [BTRFS_UUID_UNPARSED_SIZE] of ctree.h and [uuid_unparse] of
    libuuid *)
Variable BTRFS_UUID_UNPARSED_SIZE : nat.
Variable uuid_unparse : list byte -> string.

Definition match_search_item_kernel (fsid : list byte)
    (mnt label search : string) : Z :=
  let search_len := String.length search in
  let search_len := Nat.min search_len BTRFS_UUID_UNPARSED_SIZE in
  let uuidbuf := uuid_unparse fsid in
  if strncmp_eq uuidbuf search search_len then 1
  else if negb (String.eqb label EmptyString) && String.eqb label search
  then 1
  else if String.eqb mnt search then 1
  else 0.

End MatchSearchItem.

(** * Properties *)

(** ** Machine arithmetic *)

Lemma to_u64_small z : 0 <= z < two64 -> to_u64 z = z.
Proof. intros Hz. unfold to_u64. apply Z.mod_small. exact Hz. Qed.

Lemma U64_MAX_value : U64_MAX = two64 - 1.
Proof. reflexivity. Qed.

(** For transaction ids below [2^63] the loop's [tmp] is the absolute
    difference. *)
Lemma ctransid_diff_abs p2 p :
  0 <= ctransid p2 < two63 -> 0 <= ctransid p < two63 ->
  ctransid_diff p2 p = Z.abs (ctransid p2 - ctransid p).
Proof.
  intros H2 H1. unfold ctransid_diff, to_s64, to_u64, two64, two63 in *.
  set (a := ctransid p2) in *. set (b := ctransid p) in *.
  destruct (Z_lt_le_dec a b) as [Hlt | Hge].
  - assert (E : (a - b) mod 2 ^ 64 = a - b + 2 ^ 64).
    { symmetry. apply Z.mod_unique with (q := -1); lia. }
    rewrite E.
    assert (E2 : (a - b + 2 ^ 64) mod 2 ^ 64 = a - b + 2 ^ 64).
    { apply Z.mod_small. lia. }
    rewrite E2.
    destruct (a - b + 2 ^ 64 <? 2 ^ 63) eqn:C1; [apply Z.ltb_lt in C1; lia|].
    replace (a - b + 2 ^ 64 - 2 ^ 64) with (a - b) by lia.
    destruct (a - b <? 0) eqn:C2; [|apply Z.ltb_ge in C2; lia].
    assert (E3 : ((a - b) * -1) mod 2 ^ 64 = b - a).
    { replace ((a - b) * -1) with (b - a) by lia. apply Z.mod_small. lia. }
    rewrite E3.
    destruct (b - a <? 2 ^ 63) eqn:C3; [|apply Z.ltb_ge in C3; lia].
    lia.
  - assert (E : (a - b) mod 2 ^ 64 = a - b) by (apply Z.mod_small; lia).
    rewrite E, E.
    destruct (a - b <? 2 ^ 63) eqn:C1; [|apply Z.ltb_ge in C1; lia].
    destruct (a - b <? 0) eqn:C2; [apply Z.ltb_lt in C2; lia|].
    lia.
Qed.

(** ** find_good_parent: the exact-ancestry match *)

Lemma clone_sources_has_In cs r : clone_sources_has cs r = true <-> In r cs.
Proof.
  induction cs as [|c cs IH]; simpl.
  - split; [discriminate | tauto].
  - destruct (c =? r) eqn:E.
    + apply Z.eqb_eq in E. split; auto.
    + apply Z.eqb_neq in E. rewrite IH. split; [auto | intros [H|H]; congruence].
Qed.

(** C2: when the recorded ancestor of the target is itself a clone
    source, [find_good_parent] returns that ancestor's root id, whatever
    else the clone sources hold. *)
Theorem find_good_parent_exact_ancestor (s : btrfs_send) (rootid : Z)
    (parent : subvol_info) :
  get_parent s rootid = Some parent ->
  In (root_id parent) (clone_sources s) ->
  find_good_parent s rootid = Ok (root_id parent).
Proof.
  intros Hp Hin. unfold find_good_parent. rewrite Hp.
  apply clone_sources_has_In in Hin. rewrite Hin. reflexivity.
Qed.

(** ** find_good_parent: the sibling scan *)

Lemma get_parent_by_root_id s c p :
  get_parent s c = Some p -> exists si, by_root_id (sus s) c = Some si.
Proof.
  unfold get_parent, subvol_uuid_search.
  destruct (by_root_id (sus s) c) as [si|]; [eauto | discriminate].
Qed.

Lemma nth_error_snoc_inv (A : Type) (l : list A) (x : A) j c :
  nth_error (l ++ [x]) j = Some c ->
  nth_error l j = Some c \/ (j = List.length l /\ c = x).
Proof.
  intros H. destruct (Nat.lt_ge_cases j (List.length l)) as [Hlt|Hge].
  - left. rewrite nth_error_app1 in H; assumption.
  - right. rewrite nth_error_app2 in H by assumption.
    destruct (j - List.length l)%nat as [|k] eqn:E; simpl in H.
    + split; [lia | congruence].
    + destruct k; discriminate.
Qed.

Lemma scan_inv_skip s parent pre c best bd :
  is_sibling s parent c = false ->
  scan_inv s parent pre best bd ->
  scan_inv s parent (pre ++ [c]) best bd.
Proof.
  intros Hns Hinv. unfold scan_inv in *. destruct best as [bp|].
  - destruct Hinv as (i & Hi & Hsib & Hd & Hrange & Hmin).
    exists i. split; [|split; [|split; [|split]]]; try assumption.
    + rewrite nth_error_app1; [assumption|].
      apply nth_error_Some. congruence.
    + intros j c0 Hj Hs0.
      destruct (nth_error_snoc_inv _ _ _ Hj) as [Hj'|[_ ->]];
        [eapply Hmin; eassumption | congruence].
  - destruct Hinv as [Hd Hno]. split; [assumption|].
    intros c0 Hin. apply in_app_or in Hin.
    destruct Hin as [Hin|[<-|[]]]; auto.
Qed.

(** Everything seen so far is at least [bd] away, or [bd] is still the
    initial [(u64)-1]. *)
Lemma scan_inv_lower_bound s parent pre best bd j c :
  scan_inv s parent pre best bd ->
  nth_error pre j = Some c -> is_sibling s parent c = true ->
  bd <= abs_diff s parent c.
Proof.
  intros Hinv Hj Hs. unfold scan_inv in Hinv. destruct best as [bp|].
  - destruct Hinv as (i & _ & _ & _ & _ & Hmin).
    destruct (Hmin _ _ Hj Hs). assumption.
  - destruct Hinv as [_ Hno].
    apply nth_error_In in Hj. apply Hno in Hj. congruence.
Qed.

Lemma scan_clone_sources_inv s parent :
  by_root_id_sound (sus s) ->
  0 <= ctransid parent < two63 ->
  forall rest pre best best_diff,
    (forall c si, In c rest -> by_root_id (sus s) c = Some si ->
                  0 <= ctransid si < two63) ->
    scan_inv s parent pre best best_diff ->
    exists best' d',
      scan_clone_sources s parent rest best best_diff = Ok best' /\
      scan_inv s parent (pre ++ rest) best' d'.
Proof.
  intros Hsound Hpar. induction rest as [|c rest IH]; intros pre best bd Hr Hinv.
  - simpl. rewrite app_nil_r. eauto.
  - replace (pre ++ c :: rest) with ((pre ++ [c]) ++ rest)
      by (rewrite <- app_assoc; reflexivity).
    assert (Hr' : forall c0 si, In c0 rest -> by_root_id (sus s) c0 = Some si ->
                                0 <= ctransid si < two63)
      by (intros; eapply Hr; [right|]; eassumption).
    pose proof (@scan_inv_skip s parent pre c best bd) as Hskip.
    simpl. unfold is_sibling in Hskip at 1.
    destruct (get_parent s c) as [p2|] eqn:Hgp.
    2:{ apply IH; auto. }
    destruct (root_id p2 =? root_id parent) eqn:Heq; simpl.
    2:{ apply IH; auto. }
    destruct (get_parent_by_root_id _ _ Hgp) as [si Hsi].
    unfold subvol_uuid_search. rewrite Hsi.
    assert (Hsi_id : root_id si = c) by (apply Hsound; assumption).
    assert (Hsi_ct : 0 <= ctransid si < two63)
      by (eapply Hr; [left; reflexivity | eassumption]).
    rewrite (ctransid_diff_abs si parent Hsi_ct Hpar).
    assert (Hsibc : is_sibling s parent c = true)
      by (unfold is_sibling; rewrite Hgp; assumption).
    assert (Habs : abs_diff s parent c = Z.abs (ctransid si - ctransid parent))
      by (unfold abs_diff; rewrite Hsi; reflexivity).
    assert (Hdr : 0 <= Z.abs (ctransid si - ctransid parent) < two63)
      by (unfold two63 in *; lia).
    rewrite to_u64_small by (unfold two64, two63 in *; lia).
    rewrite <- Habs in *.
    destruct (abs_diff s parent c <? bd) eqn:Hcmp.
    + (* a strictly better sibling *)
      apply Z.ltb_lt in Hcmp. apply IH; [assumption|].
      unfold scan_inv. rewrite Hsi_id.
      exists (List.length pre).
      split; [|split; [|split; [|split]]]; try assumption; try reflexivity.
      * rewrite nth_error_app2 by lia. rewrite Nat.sub_diag. reflexivity.
      * intros j c0 Hj Hs0.
        destruct (nth_error_snoc_inv _ _ _ Hj) as [Hj'|[-> ->]]; [|lia].
        pose proof (@scan_inv_lower_bound _ _ _ _ _ _ _ Hinv Hj' Hs0). lia.
    + (* not better: the earlier best stays *)
      apply Z.ltb_ge in Hcmp. apply IH; [assumption|].
      unfold scan_inv in *. destruct best as [bp|].
      * destruct Hinv as (i & Hi & Hsib & Hd & Hrange & Hmin).
        assert (Hlt : (i < List.length pre)%nat)
          by (apply nth_error_Some; congruence).
        exists i. split; [|split; [|split; [|split]]]; try assumption.
        -- rewrite nth_error_app1; assumption.
        -- intros j c0 Hj Hs0.
           destruct (nth_error_snoc_inv _ _ _ Hj) as [Hj'|[-> ->]];
             [eapply Hmin; eassumption | lia].
      * destruct Hinv as [Hd _]. rewrite Hd, U64_MAX_value in Hcmp.
        unfold two64, two63 in *. lia.
Qed.

(** C1 (amended): the target's recorded ancestor exists and is not a
    clone source, the registry answers a root id with the record of that
    root id, and all transaction ids involved are below 2^63.  Then
    [find_good_parent] returns the sibling among the clone sources whose
    creation transaction id is closest to the ancestor's, the earliest
    inserted one on ties, and fails with [-ENOENT] when no clone source
    is a sibling. *)
Theorem find_good_parent_closest_sibling (s : btrfs_send) (rootid : Z)
    (parent : subvol_info) :
  get_parent s rootid = Some parent ->
  ~ In (root_id parent) (clone_sources s) ->
  by_root_id_sound (sus s) ->
  ctransid_in_s64 s parent ->
  closest_sibling_returned s parent (find_good_parent s rootid).
Proof.
  intros Hp Hnin Hsound [Hpar Hcs]. unfold find_good_parent. rewrite Hp.
  destruct (clone_sources_has (clone_sources s) (root_id parent)) eqn:Hhas.
  { apply clone_sources_has_In in Hhas. contradiction. }
  destruct (@scan_clone_sources_inv s parent Hsound Hpar
              (clone_sources s) [] None U64_MAX Hcs)
    as (best & d & Hscan & Hinv).
  { split; [reflexivity | intros c []]. }
  rewrite Hscan. simpl in Hinv. unfold scan_inv in Hinv.
  destruct best as [bp|]; simpl.
  - destruct Hinv as (i & Hi & Hsib & Hd & _ & Hmin).
    exists i. split; [assumption | split; [assumption|]].
    intros j c Hj Hs. rewrite <- Hd. eapply Hmin; eassumption.
  - destruct Hinv as [_ Hno]. split; [reflexivity | assumption].
Qed.

Lemma registry_of_sound tbl : by_root_id_sound (registry_of tbl).
Proof.
  intros r si H. simpl in H. apply find_some in H.
  destruct H as [_ H]. apply Z.eqb_eq in H. exact H.
Qed.

(** The example of the specification: siblings created in transactions
    90, 150 and 101 around an ancestor created in transaction 100. *)
Example find_good_parent_siblings :
  find_good_parent send_siblings 260 = Ok 259.
Proof. vm_compute. reflexivity. Qed.

Lemma find_good_parent_closest_sibling_witness :
  closest_sibling_returned send_siblings (mk_subvol 256 1 0 100 "base")
    (find_good_parent send_siblings 260).
Proof.
  apply find_good_parent_closest_sibling.
  - reflexivity.
  - simpl. lia.
  - apply registry_of_sound.
  - split; [unfold two63; simpl; lia|].
    intros c si [<-|[<-|[<-|[]]]] H; vm_compute in H;
      injection H as <-; unfold two63; simpl; lia.
Defined.

Lemma find_good_parent_exact_ancestor_witness :
  find_good_parent (mk_send [257; 256; 259] fs_siblings) 260 = Ok 256.
Proof.
  apply (@find_good_parent_exact_ancestor
           (mk_send [257; 256; 259] fs_siblings) 260
           (mk_subvol 256 1 0 100 "base")).
  - reflexivity.
  - simpl. lia.
Defined.

(** C1 as stated fails once a difference of transaction ids leaves the
    range of [__s64]: [near] is [2^63 - 3] away from the ancestor and
    [far] is [2^63 + 5] away, yet the code computes [2^63 - 5] for [far]
    and returns it. *)
Lemma find_good_parent_wrap_counterexample :
  get_parent send_wrap 8 = Some (mk_subvol 5 1 0 0 "base") /\
  ~ In 5 (clone_sources send_wrap) /\
  by_root_id_sound (sus send_wrap) /\
  find_good_parent send_wrap 8 = Ok 7 /\
  ~ closest_sibling_returned send_wrap (mk_subvol 5 1 0 0 "base")
      (find_good_parent send_wrap 8).
Proof.
  split; [reflexivity|].
  split; [simpl; lia|].
  split; [apply registry_of_sound|].
  assert (E : find_good_parent send_wrap 8 = Ok 7) by (vm_compute; reflexivity).
  split; [exact E|].
  rewrite E. intros (i & _ & _ & Hmin).
  destruct (Hmin 0%nat 6) as [Hle _]; [reflexivity | reflexivity |].
  vm_compute in Hle. apply Hle. reflexivity.
Qed.

(** ** add_clone_source *)

(** C4 (amended): [add_clone_source] never looks for [rootid] among the
    clone sources.  It fails only with [-ENOMEM], when [realloc] fails;
    otherwise it returns 0, keeps the earlier elements in order and
    appends [rootid], so that [rootid] occurs once more than before. *)
Theorem add_clone_source_appends (realloc_ok : bool) (s : btrfs_send)
    (rootid : Z) :
  let (ret, s') := add_clone_source realloc_ok s rootid in
  if realloc_ok then
    ret = 0 /\
    clone_sources s' = clone_sources s ++ [rootid] /\
    count_occ Z.eq_dec (clone_sources s') rootid =
      S (count_occ Z.eq_dec (clone_sources s) rootid)
  else ret = - ENOMEM.
Proof.
  unfold add_clone_source. destruct realloc_ok; simpl; [|reflexivity].
  split; [reflexivity|]. split; [reflexivity|].
  rewrite count_occ_app. simpl.
  destruct (Z.eq_dec rootid rootid) as [_|N]; [lia | congruence].
Qed.

(** C4 as stated fails: adding a root id that is already present is
    accepted, and leaves it in the sequence twice. *)
Lemma add_clone_source_duplicate_counterexample :
  In 7 (clone_sources (mk_send [7] [])) /\
  fst (add_clone_source true (mk_send [7] []) 7) = 0 /\
  clone_sources (snd (add_clone_source true (mk_send [7] []) 7)) = [7; 7] /\
  count_occ Z.eq_dec
    (clone_sources (snd (add_clone_source true (mk_send [7] []) 7))) 7
  <> 1%nat.
Proof.
  split; [left; reflexivity|].
  split; [reflexivity|]. split; [reflexivity|].
  vm_compute. discriminate.
Qed.

(** ** The stream pump *)

(** The loop of [write_buf] needs no more than [size - pos] turns. *)
Lemma write_loop_fuel wr buf size :
  forall fuel1 fuel2 snk pos,
    (Z.to_nat (size - pos) <= fuel1)%nat ->
    (Z.to_nat (size - pos) <= fuel2)%nat ->
    write_loop fuel1 wr snk buf pos size = write_loop fuel2 wr snk buf pos size.
Proof.
  induction fuel1 as [|f1 IH]; intros fuel2 snk pos H1 H2.
  - destruct fuel2 as [|f2]; simpl; [reflexivity|].
    destruct (pos <? size) eqn:C; [apply Z.ltb_lt in C; lia | reflexivity].
  - destruct fuel2 as [|f2]; simpl.
    + destruct (pos <? size) eqn:C; [apply Z.ltb_lt in C; lia | reflexivity].
    + destruct (pos <? size) eqn:C; [|reflexivity].
      apply Z.ltb_lt in C.
      destruct (wr (wcalls snk) (size - pos)) as [[|p]|e]; try reflexivity.
      apply IH; simpl; lia.
Qed.

(** The loop equation of [write_buf]: one turn of the [while]. *)
Lemma write_loop_unfold wr buf size snk pos :
  write_loop (Z.to_nat (size - pos)) wr snk buf pos size =
  if pos <? size then
    match wr (wcalls snk) (size - pos) with
    | WriteErr errno => (- Z.pos errno, sink_called snk (WriteErr errno))
    | WriteOk 0%N => (- EIO, sink_called snk (WriteOk 0))
    | WriteOk n =>
        write_loop (Z.to_nat (size - (pos + Z.of_N n))) wr
          (sink_accept snk buf pos n) buf (pos + Z.of_N n) size
    end
  else (0, snk).
Proof.
  destruct (pos <? size) eqn:C.
  - apply Z.ltb_lt in C.
    destruct (Z.to_nat (size - pos)) as [|f] eqn:F; [lia|].
    simpl. apply Z.ltb_lt in C. rewrite C.
    destruct (wr (wcalls snk) (size - pos)) as [[|p]|e]; try reflexivity.
    apply write_loop_fuel; simpl; lia.
  - apply Z.ltb_ge in C.
    replace (Z.to_nat (size - pos)) with O by lia. reflexivity.
Qed.

(** A sink that keeps making progress gets the whole rest of the buffer,
    however the writes are cut. *)
Lemma write_loop_flush wr buf :
  sink_progress wr ->
  forall fuel snk pos,
    0 <= pos <= Z.of_nat (List.length buf) ->
    (Z.to_nat (Z.of_nat (List.length buf) - pos) <= fuel)%nat ->
    exists snk',
      write_loop fuel wr snk buf pos (Z.of_nat (List.length buf)) = (0, snk') /\
      written snk' = written snk ++ skipn (Z.to_nat pos) buf.
Proof.
  intros Hp. induction fuel as [|f IH]; intros snk pos Hpos Hf.
  - exists snk. split; [reflexivity|].
    rewrite skipn_all2 by lia. rewrite app_nil_r. reflexivity.
  - simpl. destruct (pos <? Z.of_nat (List.length buf)) eqn:C.
    + apply Z.ltb_lt in C.
      destruct (Hp (wcalls snk) (Z.of_nat (List.length buf) - pos))
        as (n & Hn & Hrange); [lia|].
      rewrite Hn. destruct n as [|p]; [simpl in Hrange; lia|].
      destruct (IH (sink_accept snk buf pos (N.pos p)) (pos + Z.of_N (N.pos p)))
        as (snk' & Hrun & Hw); [simpl in *; lia | simpl in *; lia |].
      exists snk'. split; [exact Hrun|].
      rewrite Hw. simpl written. rewrite <- app_assoc. f_equal.
      replace (Z.to_nat (pos + Z.of_N (N.pos p)))
        with (N.to_nat (N.pos p) + Z.to_nat pos)%nat by (simpl; lia).
      rewrite <- skipn_skipn. apply firstn_skipn.
    + apply Z.ltb_ge in C. exists snk. split; [reflexivity|].
      rewrite skipn_all2 by lia. rewrite app_nil_r. reflexivity.
Qed.

Lemma write_buf_flush wr snk buf :
  sink_progress wr ->
  exists snk',
    write_buf wr snk buf (Z.of_nat (List.length buf)) = (0, snk') /\
    written snk' = written snk ++ buf.
Proof.
  intros Hp. unfold write_buf.
  destruct (@write_loop_flush wr buf Hp
              (Z.to_nat (Z.of_nat (List.length buf))) snk 0)
    as (snk' & Hrun & Hw); [lia | lia |].
  exists snk'. split; [exact Hrun | exact Hw].
Qed.

(** [write_buf] returns 0 or a negative errno, and the latter exactly
    when one of its [write] calls failed or wrote nothing. *)
Lemma write_loop_result wr buf size :
  forall fuel snk pos ret snk',
    write_loop fuel wr snk buf pos size = (ret, snk') ->
    exists new,
      wlog snk' = wlog snk ++ new /\
      ((ret = 0 /\ Forall (fun r => ~ write_failed r) new) \/
       (ret < 0 /\ Exists write_failed new)).
Proof.
  induction fuel as [|f IH]; intros snk pos ret snk' H; simpl in H.
  - injection H as <- <-. exists []. rewrite app_nil_r. auto.
  - destruct (pos <? size).
    2:{ injection H as <- <-. exists []. rewrite app_nil_r. auto. }
    destruct (wr (wcalls snk) (size - pos)) as [[|p]|e] eqn:W.
    + injection H as <- <-. exists [WriteOk 0]. split; [reflexivity|].
      right. split; [unfold EIO; lia|]. left. reflexivity.
    + apply IH in H. destruct H as (new & Hl & Hres).
      exists (WriteOk (N.pos p) :: new). split.
      * rewrite Hl. simpl. rewrite <- app_assoc. reflexivity.
      * destruct Hres as [[-> Hall]|[Hneg Hex]].
        -- left. split; [reflexivity|]. constructor; [|exact Hall].
           simpl. discriminate.
        -- right. split; [exact Hneg|]. right. exact Hex.
    + injection H as <- <-. exists [WriteErr e]. split; [reflexivity|].
      right. split; [lia|]. left. exact I.
Qed.

Lemma dump_loop_clean wr :
  sink_progress wr ->
  forall (chunks : list (list byte)) rest snk,
    Forall (fun c => c <> []) chunks ->
    exists snk',
      dump_loop wr (map ReadOk chunks ++ ReadOk [] :: rest) snk
        = (Some 0, snk', rest) /\
      written snk' = written snk ++ List.concat chunks.
Proof.
  intros Hp. induction chunks as [|c chunks IH]; intros rest snk Hne.
  - exists snk. split; [reflexivity|]. simpl. rewrite app_nil_r. reflexivity.
  - inversion Hne as [|? ? Hc Hrest]; subst. simpl.
    destruct (Z.of_nat (List.length c) =? 0) eqn:E.
    { apply Z.eqb_eq in E. destruct c; [congruence | simpl in E; lia]. }
    destruct (write_buf_flush snk c Hp) as (snk1 & Hrun & Hw).
    rewrite Hrun. simpl.
    destruct (IH rest snk1 Hrest) as (snk' & Hloop & Hw').
    exists snk'. split; [exact Hloop|].
    rewrite Hw', Hw, <- app_assoc. reflexivity.
Qed.

Lemma dump_loop_result wr :
  forall reads snk ret snk' rest,
    dump_loop wr reads snk = (Some ret, snk', rest) ->
    exists consumed new,
      reads = consumed ++ rest /\
      wlog snk' = wlog snk ++ new /\
      (ret = 0 \/ ret < 0) /\
      (ret < 0 <->
       Exists read_failed consumed \/ Exists write_failed new).
Proof.
  induction reads as [|r reads IH]; intros snk ret snk' rest H; simpl in H.
  - discriminate.
  - destruct r as [data|e].
    + destruct (Z.of_nat (List.length data) =? 0).
      * injection H as <- <- <-. exists [ReadOk data], [].
        split; [reflexivity|]. split; [rewrite app_nil_r; reflexivity|].
        split; [left; reflexivity|].
        split; [lia|]. intros [Hx|Hx].
        -- inversion Hx as [? ? Hf|? ? Hf]; subst; [destruct Hf | inversion Hf].
        -- inversion Hx.
      * destruct (write_buf wr snk data (Z.of_nat (List.length data)))
          as [wret snk1] eqn:W.
        unfold write_buf in W. apply write_loop_result in W.
        destruct W as (new1 & Hl1 & Hres1).
        destruct (wret <? 0) eqn:C.
        -- injection H as <- <- <-. apply Z.ltb_lt in C.
           exists [ReadOk data], new1.
           split; [reflexivity|]. split; [exact Hl1|].
           split; [right; exact C|].
           split; [|intros _; exact C].
           intros _. right. destruct Hres1 as [[-> _]|[_ Hex]]; [lia | exact Hex].
        -- apply Z.ltb_ge in C.
           destruct Hres1 as [[-> Hall]|[Hneg _]]; [|lia].
           apply IH in H. destruct H as (consumed & new & -> & Hl & Hsign & Hiff).
           exists (ReadOk data :: consumed), (new1 ++ new).
           split; [reflexivity|].
           split; [rewrite Hl, Hl1, <- app_assoc; reflexivity|].
           split; [exact Hsign|].
           split.
           ++ intros Hneg. apply Hiff in Hneg. destruct Hneg as [Hx|Hx].
              ** left. right. exact Hx.
              ** right. apply Exists_app. right. exact Hx.
           ++ intros [Hx|Hx]; apply Hiff.
              ** inversion Hx as [? ? Hf|? ? Hf]; subst;
                   [destruct Hf | left; exact Hf].
              ** apply Exists_app in Hx. destruct Hx as [Hx|Hx].
                 --- apply Exists_exists in Hx. destruct Hx as (x & Hin & Hf).
                     rewrite Forall_forall in Hall.
                     exfalso. exact (Hall x Hin Hf).
                 --- right. exact Hx.
    + injection H as <- <- <-. exists [ReadErr e], [].
      split; [reflexivity|]. split; [rewrite app_nil_r; reflexivity|].
      split; [right; lia|].
      split; [|intros _; lia]. intros _. left. left. exact I.
Qed.

Lemma dump_loop_terminates wr :
  forall reads snk,
    Exists (fun r => r = ReadOk [] \/ read_failed r) reads ->
    exists ret snk' rest, dump_loop wr reads snk = (Some ret, snk', rest).
Proof.
  induction reads as [|r reads IH]; intros snk Hex.
  - inversion Hex.
  - simpl. destruct r as [data|e]; [|eauto].
    destruct (Z.of_nat (List.length data) =? 0) eqn:E; [eauto|].
    destruct (write_buf wr snk data (Z.of_nat (List.length data)))
      as [wret snk1].
    destruct (wret <? 0); [eauto|].
    apply IH. inversion Hex as [? ? Hr|? ? Hr]; subst; [|exact Hr].
    destruct Hr as [Hr|[]]. injection Hr as ->. discriminate.
Qed.

Lemma sink_progress_two_bytes : sink_progress two_bytes_at_a_time.
Proof.
  intros k count Hc. exists (Z.to_N (Z.min count 2)).
  split; [reflexivity | lia].
Qed.

(** C6: the pump, for chunks followed by a zero-length read and a sink
    that keeps accepting at least one byte per [write], stops with
    [ret = 0] right after the zero-length read, the sink having received
    the chunks' bytes in order, however the writes were cut.  Whenever it
    stops, [ret] is 0 or negative, and negative exactly when one of the
    reads it consumed failed or one of its writes failed or wrote
    nothing; a negative [ret] ends the process with [exit(-ret)].  It
    does stop once a zero-length or failing read is in the sequence. *)
Theorem dump_thread_pump (wr : write_oracle) :
  (forall (chunks : list (list byte)) (rest : list read_result) (snk : sink_t),
     sink_progress wr ->
     Forall (fun c => c <> []) chunks ->
     exists snk',
       dump_loop wr (map ReadOk chunks ++ ReadOk [] :: rest) snk
         = (Some 0, snk', rest) /\
       dump_thread wr (map ReadOk chunks ++ ReadOk [] :: rest) snk
         = (ThreadReturn 0, snk') /\
       written snk' = written snk ++ List.concat chunks) /\
  (forall reads snk ret snk' rest,
     dump_loop wr reads snk = (Some ret, snk', rest) ->
     dump_thread wr reads snk
       = (if ret <? 0 then ThreadExit (- ret) else ThreadReturn ret, snk') /\
     exists consumed new,
       reads = consumed ++ rest /\
       wlog snk' = wlog snk ++ new /\
       (ret = 0 \/ ret < 0) /\
       (ret < 0 <->
        Exists read_failed consumed \/ Exists write_failed new)) /\
  (forall reads snk,
     Exists (fun r => r = ReadOk [] \/ read_failed r) reads ->
     exists ret snk' rest, dump_loop wr reads snk = (Some ret, snk', rest)).
Proof.
  split; [|split].
  - intros chunks rest snk Hp Hne.
    destruct (dump_loop_clean Hp rest snk Hne) as (snk' & Hloop & Hw).
    exists snk'. split; [exact Hloop|]. split; [|exact Hw].
    unfold dump_thread. rewrite Hloop. reflexivity.
  - intros reads snk ret snk' rest H. split.
    + unfold dump_thread. rewrite H. destruct (ret <? 0); reflexivity.
    + eapply dump_loop_result. exact H.
  - apply dump_loop_terminates.
Qed.

Lemma dump_thread_pump_witness :
  exists snk',
    dump_loop two_bytes_at_a_time
      (map ReadOk [abc] ++ ReadOk [] :: [ReadOk abc]) empty_sink
      = (Some 0, snk', [ReadOk abc]) /\
    dump_thread two_bytes_at_a_time
      (map ReadOk [abc] ++ ReadOk [] :: [ReadOk abc]) empty_sink
      = (ThreadReturn 0, snk') /\
    written snk' = written empty_sink ++ List.concat [abc].
Proof.
  apply (proj1 (dump_thread_pump two_bytes_at_a_time)).
  - exact sink_progress_two_bytes.
  - constructor; [discriminate | constructor].
Defined.

(** The example of the specification: chunks ["abc", ""], a sink that
    takes two bytes at a time. *)
Example dump_thread_abc :
  dump_thread two_bytes_at_a_time [ReadOk abc; ReadOk []; ReadOk abc]
    empty_sink
  = (ThreadReturn 0, {| written := abc; wlog := [WriteOk 2; WriteOk 1] |}).
Proof. vm_compute. reflexivity. Qed.

Example dump_thread_broken_sink :
  dump_thread broken_sink [ReadOk abc; ReadOk []] empty_sink
  = (ThreadExit 32, {| written := []; wlog := [WriteErr 32] |}).
Proof. vm_compute. reflexivity. Qed.

(** ** do_send: generator failure against drain failure *)

Lemma dump_loop_app wr :
  forall r1 r2 snk,
    dump_loop wr (r1 ++ r2) snk =
    match dump_loop wr r1 snk with
    | (None, snk1, _) => dump_loop wr r2 snk1
    | (Some ret, snk1, rest1) => (Some ret, snk1, rest1 ++ r2)
    end.
Proof.
  induction r1 as [|rd r1 IH]; intros r2 snk; simpl.
  - reflexivity.
  - destruct rd as [data|e]; [|reflexivity].
    destruct (Z.of_nat (List.length data) =? 0); [reflexivity|].
    destruct (write_buf wr snk data (Z.of_nat (List.length data)))
      as [wret snk1].
    destruct (wret <? 0); [reflexivity | apply IH].
Qed.

Lemma dump_thread_app wr r1 r2 snk :
  dump_thread wr (r1 ++ r2) snk =
  match dump_thread wr r1 snk with
  | (ThreadWaiting, snk1) => dump_thread wr r2 snk1
  | x => x
  end.
Proof.
  unfold dump_thread. rewrite dump_loop_app.
  destruct (dump_loop wr r1 snk) as [[[ret|] snk1] rest1].
  - destruct (ret <? 0); reflexivity.
  - reflexivity.
Qed.

Section DoSend.
Context {h : ioctl_h}.

(** C7 (amended): [do_send] neither waits for the ioctl on behalf of
    the drain nor puts the drain's error in the place of the ioctl's.
    Once the dump thread is started, a failure of the drain while the
    main thread is inside the ioctl ends the process with the drain's
    error code, whatever the ioctl would return.  When the ioctl returns
    an error, [do_send] does not join the thread: it returns the ioctl's
    error, unless the thread, which runs on, fails before the process has
    ended; then the thread's [exit] ends the process with the drain's
    error code.  The sink holds what the thread wrote until then. *)
Theorem do_send_failure_order (e : send_env) (wr : write_oracle)
    (s : btrfs_send) (parent : Z) (is_first is_last : bool)
    (subvol : string) (flags : Z) (t : trace) :
  thread_started e ->
  (forall code snk,
     dump_thread wr (se_reads_during e) (sink t) = (ThreadExit code, snk) ->
     fst (fst (do_send e wr s parent is_first is_last subvol flags t))
       = Exit code /\
     sink (snd (do_send e wr s parent is_first is_last subvol flags t))
       = snk) /\
  (forall errno,
     se_ioctl e = Some errno ->
     fst (fst (do_send e wr s parent is_first is_last subvol flags t)) =
       match fst (dump_thread wr (se_reads_during e ++ se_reads_after e)
                    (sink t)) with
       | ThreadExit code => Exit code
       | _ => Val (- Z.pos errno)
       end /\
     sink (snd (do_send e wr s parent is_first is_last subvol flags t)) =
       snd (dump_thread wr (se_reads_during e ++ se_reads_after e) (sink t))).
Proof.
  intros (Ho & Hp & Hc). unfold do_send. rewrite Ho, Hp, Hc. split.
  - intros code snk Hd. rewrite Hd. split; reflexivity.
  - intros errno Hi. rewrite Hi, dump_thread_app.
    destruct (dump_thread wr (se_reads_during e) (sink t)) as [th snk].
    destruct th as [code|t_err|]; try (split; reflexivity).
    destruct (dump_thread wr (se_reads_after e) snk) as [th2 snk2].
    destruct th2 as [code|t_err|]; split; reflexivity.
Qed.

End DoSend.

Lemma do_send_failure_order_witness :
  fst (fst (@do_send linux_ioctl_h env_generator_fails_first greedy_sink
              (mk_send [] []) 0 true true "/mnt/snap" 0
              {| log := []; sink := empty_sink |}))
    = Exit 9 /\
  sink (snd (@do_send linux_ioctl_h env_generator_fails_first greedy_sink
               (mk_send [] []) 0 true true "/mnt/snap" 0
               {| log := []; sink := empty_sink |}))
    = empty_sink.
Proof.
  exact (proj2 (@do_send_failure_order linux_ioctl_h env_generator_fails_first
                  greedy_sink (mk_send [] []) 0 true true "/mnt/snap"%string 0
                  {| log := []; sink := empty_sink |}
                  (conj eq_refl (conj eq_refl eq_refl)))
           22%positive eq_refl).
Defined.

(** C7 as stated fails: the generator is going to fail with [EINVAL] and
    the drain fails with [EPIPE] while the ioctl is in progress.  The
    generator is not waited for and [do_send] reports nothing: the dump
    thread has ended the process before the ioctl returned, and the run
    is the same whatever the ioctl was going to return. *)
Lemma do_send_drain_exit_counterexample :
  thread_started env_drain_fails_first /\
  se_ioctl env_drain_fails_first = Some 22%positive /\
  drain_fails env_drain_fails_first broken_sink empty_sink /\
  fst (dump_thread broken_sink (se_reads_during env_drain_fails_first)
         empty_sink) = ThreadExit 32 /\
  fst (fst (@do_send linux_ioctl_h env_drain_fails_first broken_sink
              (mk_send [] []) 0 true true "/mnt/snap" 0
              {| log := []; sink := empty_sink |}))
    = Exit 32 /\
  (forall r,
     fst (fst (@do_send linux_ioctl_h env_drain_fails_first broken_sink
                 (mk_send [] []) 0 true true "/mnt/snap" 0
                 {| log := []; sink := empty_sink |}))
       <> Val r) /\
  forall ioctl_result,
    @do_send linux_ioctl_h
      {| se_openat := None; se_pipe := None; se_pipefd := (4, 5);
         se_pthread_create := None; se_ioctl := ioctl_result;
         se_reads_during := [ReadOk abc]; se_reads_after := [];
         se_pthread_join := None |}
      broken_sink (mk_send [] []) 0 true true "/mnt/snap" 0
      {| log := []; sink := empty_sink |} =
    @do_send linux_ioctl_h env_drain_fails_first broken_sink
      (mk_send [] []) 0 true true "/mnt/snap" 0
      {| log := []; sink := empty_sink |}.
Proof.
  split; [repeat split|]. split; [reflexivity|]. split.
  - exists 32, {| written := []; wlog := [WriteErr 32] |}. reflexivity.
  - split; [reflexivity|]. split; [reflexivity|]. split.
    + intros r H. discriminate H.
    + intros ioctl_result. reflexivity.
Qed.

(** ** cmd_send *)

Lemma dump_thread_exit_pos wr reads snk code snk' :
  dump_thread wr reads snk = (ThreadExit code, snk') -> 0 < code.
Proof.
  unfold dump_thread.
  destruct (dump_loop wr reads snk) as [[[ret|] s1] rest]; [|discriminate].
  destruct (ret <? 0) eqn:C; [|discriminate].
  intros H. injection H as <- _. apply Z.ltb_lt in C. lia.
Qed.

Lemma dump_thread_return_zero wr reads snk t_err snk' :
  dump_thread wr reads snk = (ThreadReturn t_err, snk') -> t_err = 0.
Proof.
  unfold dump_thread.
  destruct (dump_loop wr reads snk) as [[[ret|] s1] rest] eqn:D; [|discriminate].
  destruct (ret <? 0) eqn:C; [discriminate|].
  intros H. injection H as <- _. apply Z.ltb_ge in C.
  apply dump_loop_result in D.
  destruct D as (_ & _ & _ & _ & [Hz|Hn] & _); lia.
Qed.

Lemma scan_clone_sources_error s parent :
  forall cs best bd ret,
    scan_clone_sources s parent cs best bd = Error ret -> ret = - ENOENT.
Proof.
  induction cs as [|c cs IH]; intros best bd ret H; simpl in H.
  - discriminate.
  - destruct (get_parent s c); [|eauto].
    destruct (negb _); [eauto|].
    destruct (by_root_id _ _); [|injection H as <-; reflexivity].
    destruct (_ <? _); eauto.
Qed.

Lemma find_good_parent_error s rootid ret :
  find_good_parent s rootid = Error ret -> ret = - ENOENT.
Proof.
  unfold find_good_parent. destruct (get_parent s rootid); [|congruence].
  destruct (clone_sources_has _ _); [discriminate|].
  destruct (scan_clone_sources _ _ _ _ _) as [[bp|]|r] eqn:S; try congruence.
  intros H. injection H as <-. eapply scan_clone_sources_error. exact S.
Qed.

Section CmdSend.
Context {h : ioctl_h}.

Lemma is_subvol_ro_range w s subvol :
  is_subvol_ro w s subvol < 0 \/ is_subvol_ro w s subvol = 0 \/
  is_subvol_ro w s subvol = 1.
Proof.
  unfold is_subvol_ro. destruct (subvol_getflags w subvol); [|lia].
  destruct (negb _); auto.
Qed.

Lemma is_subvol_ro_writable w s p q :
  writable w p -> realpath w p = Sys_ok q -> is_subvol_ro w s q = 0.
Proof.
  intros (q' & flags & Hr & Hf & Hl) Hq. rewrite Hr in Hq.
  injection Hq as ->. unfold is_subvol_ro. rewrite Hf, Hl. reflexivity.
Qed.

(** What one call of [do_send] does to the state and the trace. *)
Lemma do_send_cases e wr s parent first last subvol flags t o s' t' :
  do_send e wr s parent first last subvol flags t = (o, s', t') ->
  clone_sources s' = clone_sources s /\
  ((log t' = log t /\ sink t' = sink t /\ exists r, o = Val r /\ r < 0) \/
   (log t' = log t ++
              [send_args s (snd (se_pipefd e)) parent first last subvol flags] /\
    match o with
    | Val r => r <= 0
    | Exit code => 0 < code
    | Blocked => True
    | Goto_out _ => False
    end)).
Proof.
  unfold do_send. intros H.
  destruct (se_openat e).
  { injection H as <- <- <-. split; [reflexivity|]. left. eauto 6 with zarith. }
  destruct (se_pipe e).
  { injection H as <- <- <-. split; [reflexivity|]. left. eauto 6 with zarith. }
  destruct (se_pthread_create e).
  { injection H as <- <- <-. split; [reflexivity|]. left.
    simpl. eauto 6 with zarith. }
  destruct (dump_thread wr (se_reads_during e) (sink t)) as [th snk] eqn:D1.
  destruct th as [code|t_err|].
  - injection H as <- <- <-. split; [reflexivity|]. right.
    split; [reflexivity|]. eapply dump_thread_exit_pos; eassumption.
  - destruct (se_ioctl e).
    { simpl in H. injection H as <- <- <-. split; [reflexivity|]. right.
      split; [reflexivity | lia]. }
    apply dump_thread_return_zero in D1. subst t_err.
    destruct (se_pthread_join e); simpl in H; injection H as <- <- <-;
      (split; [reflexivity|]; right; split; [reflexivity | lia]).
  - destruct (se_ioctl e).
    { destruct (dump_thread wr (se_reads_after e) snk) as [th2 snk2] eqn:D2.
      destruct th2 as [code|t_err|]; injection H as <- <- <-;
        (split; [reflexivity|]; right; split; [reflexivity|]);
        [eapply dump_thread_exit_pos; eassumption | lia | lia]. }
    destruct (dump_thread wr (se_reads_after e) snk) as [th2 snk2] eqn:D2.
    destruct th2 as [code|t_err|].
    + injection H as <- <- <-. split; [reflexivity|]. right.
      split; [reflexivity|]. eapply dump_thread_exit_pos; eassumption.
    + apply dump_thread_return_zero in D2. subst t_err.
      destruct (se_pthread_join e); simpl in H; injection H as <- <- <-;
        (split; [reflexivity|]; right; split; [reflexivity | lia]).
    + injection H as <- <- <-. split; [reflexivity|]. right.
      split; [reflexivity | exact I].
Qed.

(** [do_send] returns a non-negative value only when every call it
    makes succeeded, and then it returns 0. *)
Lemma do_send_ok e wr s parent first last subvol flags t r s' t' :
  do_send e wr s parent first last subvol flags t = (Val r, s', t') ->
  0 <= r ->
  r = 0 /\ se_openat e = None /\ se_pipe e = None /\
  se_pthread_create e = None /\ se_ioctl e = None /\
  se_pthread_join e = None.
Proof.
  unfold do_send. intros H Hr.
  destruct (se_openat e); [injection H as <- _ _; lia|].
  destruct (se_pipe e); [injection H as <- _ _; lia|].
  destruct (se_pthread_create e); [injection H as <- _ _; lia|].
  destruct (dump_thread wr (se_reads_during e) (sink t)) as [th snk] eqn:D1.
  destruct th as [code|t_err|]; [discriminate| |].
  - destruct (se_ioctl e); [simpl in H; injection H as <- _ _; lia|].
    apply dump_thread_return_zero in D1. subst t_err.
    destruct (se_pthread_join e); simpl in H; injection H as <- _ _;
      [lia | repeat split].
  - destruct (se_ioctl e).
    { destruct (dump_thread wr (se_reads_after e) snk) as [[code|t_err|] snk2];
        [discriminate H | injection H as <- _ _; lia
        | injection H as <- _ _; lia]. }
    destruct (dump_thread wr (se_reads_after e) snk) as [th2 snk2] eqn:D2.
    destruct th2 as [code|t_err|]; [discriminate| |discriminate].
    apply dump_thread_return_zero in D2. subst t_err.
    destruct (se_pthread_join e); simpl in H; injection H as <- _ _;
      [lia | repeat split].
Qed.

Lemma send_item_split w n i a :
  send_item w n i a =
  bind (sys_call (realpath w a)) (fun subvol =>
  bind get (fun f =>
  bind (if negb (full_send f) && (parent_root_id f =? 0) then
          match find_good_parent (send f) (var_root_id f) with
          | Error r => goto_out r
          | Ok found => modify (set_parent_root_id found)
          end
        else pure tt) (fun _ =>
  send_item_tail w n i subvol))).
Proof. reflexivity. Qed.

(** The tail of the loop body, started in [f] with [parent_root_id]
    already determined. *)
Lemma send_item_tail_spec w n i subvol f o f' :
  send_item_tail w n i subvol f = (o, f') ->
  new_end_cmd_semantic f' = new_end_cmd_semantic f /\
  send_flags f' = send_flags f /\
  full_send f' = full_send f /\
  var_root_id f' = var_root_id f /\
  match o with
  | Val _ => True
  | Goto_out r => r < 0
  | Exit code => 0 < code
  | Blocked => True
  end /\
  ((log (tr f') = log (tr f) /\ o <> Val tt) \/
   exists c, log (tr f') = log (tr f) ++ [c] /\
             entry_at (new_end_cmd_semantic f) (send_flags f)
               (clone_sources (send f)) n i subvol c) /\
  (o = Val tt ->
   parent_root_id f' = 0 /\
   clone_sources (send f') =
     clone_sources (send f) ++ (if full_send f then [] else [var_root_id f]) /\
   is_subvol_ro w (send f) subvol = 1 /\
   (exists s t,
       do_send (send_envs w i) (dump_write w) (send f) (parent_root_id f)
         (if new_end_cmd_semantic f then Nat.eqb i 0 else true)
         (if new_end_cmd_semantic f then Nat.eqb i (n - 1) else true)
         subvol (send_flags f) (tr f) = (Val 0, s, t)) /\
   se_openat (send_envs w i) = None /\
   se_pipe (send_envs w i) = None /\
   se_pthread_create (send_envs w i) = None /\
   se_ioctl (send_envs w i) = None /\
   se_pthread_join (send_envs w i) = None /\
   (full_send f = false ->
    realloc_ok w (S (List.length (clone_sources (send f)))) = true)).
Proof.
  unfold send_item_tail, require_ro.
  unfold bind at 1 2. unfold get at 1. simpl.
  pose proof (is_subvol_ro_range w (send f) subvol) as Hro.
  unfold check_ret at 1.
  destruct (is_subvol_ro w (send f) subvol <? 0) eqn:C1.
  { apply Z.ltb_lt in C1. unfold goto_out. intros H. injection H as <- <-.
    do 4 (split; [reflexivity|]). split; [exact C1|].
    split; [left; split; [reflexivity | discriminate] | discriminate]. }
  apply Z.ltb_ge in C1. unfold pure at 1.
  destruct (is_subvol_ro w (send f) subvol =? 0) eqn:C2.
  { unfold goto_out. intros H. injection H as <- <-.
    do 4 (split; [reflexivity|]). split; [unfold EINVAL; lia|].
    split; [left; split; [reflexivity | discriminate] | discriminate]. }
  apply Z.eqb_neq in C2.
  assert (Hro1 : is_subvol_ro w (send f) subvol = 1) by lia. clear Hro C1 C2.
  unfold pure at 1. unfold bind at 1 2. unfold get at 1.
  unfold call_do_send.
  set (first := if new_end_cmd_semantic f then (i =? 0)%nat else true).
  set (last := if new_end_cmd_semantic f then (i =? n - 1)%nat else true).
  destruct (do_send (send_envs w i) (dump_write w) (send f) (parent_root_id f)
              first last subvol (send_flags f) (tr f)) as [[od s1] t1] eqn:D.
  pose proof (do_send_cases _ _ _ _ _ _ _ _ _ D) as [Hcs Hlog].
  assert (Hentry : entry_at (new_end_cmd_semantic f) (send_flags f)
                     (clone_sources (send f)) n i subvol
                     (send_args (send f) (snd (se_pipefd (send_envs w i)))
                        (parent_root_id f) first last subvol (send_flags f))).
  { exists (send f), (snd (se_pipefd (send_envs w i))), (parent_root_id f).
    split; [reflexivity | apply incl_refl]. }
  unfold bind at 1. rewrite D.
  destruct Hlog as [(Hl & _ & r & -> & Hr)|[Hl Hod]].
  { (* do_send failed before the ioctl *)
    unfold bind at 1. unfold check_ret.
    destruct (r <? 0) eqn:C; [|apply Z.ltb_ge in C; lia].
    unfold goto_out. intros H. injection H as <- <-. simpl.
    do 4 (split; [reflexivity|]). split; [exact Hr|].
    split; [left; split; [exact Hl | discriminate] | discriminate]. }
  assert (Hright :
            exists c, log t1 = log (tr f) ++ [c] /\
                      entry_at (new_end_cmd_semantic f) (send_flags f)
                        (clone_sources (send f)) n i subvol c)
    by (eexists; split; [exact Hl | exact Hentry]).
  destruct od as [r| |code|]; [| contradiction | |].
  2:{ intros H. injection H as <- <-. simpl.
      do 4 (split; [reflexivity|]). split; [exact Hod|].
      split; [right; exact Hright | discriminate]. }
  2:{ intros H. injection H as <- <-. simpl.
      do 4 (split; [reflexivity|]). split; [exact I|].
      split; [right; exact Hright | discriminate]. }
  unfold bind at 1. unfold check_ret.
  destruct (r <? 0) eqn:C.
  { apply Z.ltb_lt in C. unfold goto_out. intros H. injection H as <- <-. simpl.
    do 4 (split; [reflexivity|]). split; [exact C|].
    split; [right; exact Hright | discriminate]. }
  apply Z.ltb_ge in C.
  destruct (do_send_ok _ _ _ _ _ _ _ _ _ D C) as (-> & Ho & Hp & Hc & Hi & Hj).
  unfold pure at 1. unfold bind at 1.
  destruct (full_send f) eqn:Hfull; simpl negb; cbv iota.
  - unfold pure, modify. intros H. injection H as <- <-. simpl.
    split; [reflexivity|]. split; [reflexivity|].
    split; [congruence|]. split; [reflexivity|].
    split; [exact I|]. split; [right; exact Hright|].
    intros _. split; [reflexivity|].
    split; [rewrite app_nil_r; exact Hcs|].
    split; [exact Hro1|]. split; [eauto|].
    repeat (split; [assumption|]). discriminate.
  - unfold do_add_clone_source, add_clone_source.
    unfold bind at 1. unfold get at 1. simpl.
    destruct (realloc_ok w (S (Datatypes.length (clone_sources s1)))) eqn:Hre.
    + unfold bind, modify, check_ret, pure. simpl.
      intros H. injection H as <- <-. simpl.
      split; [reflexivity|]. split; [reflexivity|].
      split; [congruence|]. split; [reflexivity|].
      split; [exact I|]. split; [right; exact Hright|].
      intros _. split; [reflexivity|].
      split; [rewrite Hcs; reflexivity|].
      split; [exact Hro1|]. split; [eauto|].
      repeat (split; [assumption|]). intros _. rewrite <- Hcs. exact Hre.
    + unfold bind, modify, check_ret, pure, goto_out. simpl.
      intros H. injection H as <- <-. simpl.
      split; [reflexivity|]. split; [reflexivity|].
      split; [congruence|]. split; [reflexivity|].
      split; [unfold ENOMEM; lia|].
      split; [right; exact Hright | discriminate].
Qed.

Lemma entry_at_incl e fl cs cs' n k subvol c :
  incl cs cs' ->
  entry_at e fl cs' n k subvol c -> entry_at e fl cs n k subvol c.
Proof.
  intros Hi (s1 & fd & parent & -> & Hincl).
  exists s1, fd, parent. split; [reflexivity|].
  eapply incl_tran; eassumption.
Qed.

Lemma send_item_spec w n i a f o f' :
  send_item w n i a f = (o, f') ->
  new_end_cmd_semantic f' = new_end_cmd_semantic f /\
  send_flags f' = send_flags f /\
  full_send f' = full_send f /\
  var_root_id f' = var_root_id f /\
  match o with
  | Val _ => True
  | Goto_out r => r < 0
  | Exit code => 0 < code
  | Blocked => True
  end /\
  ((log (tr f') = log (tr f) /\ o <> Val tt) \/
   exists c subvol,
     realpath w a = Sys_ok subvol /\
     log (tr f') = log (tr f) ++ [c] /\
     entry_at (new_end_cmd_semantic f) (send_flags f)
       (clone_sources (send f)) n i subvol c) /\
  (o = Val tt ->
   parent_root_id f' = 0 /\
   clone_sources (send f') =
     clone_sources (send f) ++ (if full_send f then [] else [var_root_id f]) /\
   item_steps_ok w n i a f).
Proof.
  rewrite send_item_split. unfold bind at 1. unfold sys_call.
  destruct (realpath w a) as [subvol|e] eqn:Hrp.
  2:{ unfold goto_out. intros H. injection H as <- <-.
      do 4 (split; [reflexivity|]). split; [lia|].
      split; [left; split; [reflexivity | discriminate] | discriminate]. }
  unfold pure at 1. unfold bind at 1. unfold get at 1.
  destruct (negb (full_send f) && (parent_root_id f =? 0)) eqn:Hsearch.
  - destruct (find_good_parent (send f) (var_root_id f)) as [found|r] eqn:Hfind.
    + unfold bind at 1. unfold modify at 1. intros H.
      apply send_item_tail_spec in H. simpl in H.
      destruct H as (H1 & H2 & H3 & H4 & H5 & H6 & H7).
      do 5 (split; [assumption|]).
      split; [destruct H6 as [H6|(c & Hl & Hc)];
              [left; exact H6 | right; exists c, subvol; auto]|].
      intros Ho. destruct (H7 Ho) as (Hp & Hcs & Hro & Hds & Hrest).
      split; [exact Hp|]. split; [exact Hcs|].
      exists subvol, found. rewrite Hsearch.
      split; [exact Hrp|]. split; [exact Hfind|]. split; [exact Hro|].
      split; [exact Hds | exact Hrest].
    + apply find_good_parent_error in Hfind. subst r.
      unfold bind at 1. unfold goto_out. intros H. injection H as <- <-.
      do 4 (split; [reflexivity|]). split; [unfold ENOENT; lia|].
      split; [left; split; [reflexivity | discriminate] | discriminate].
  - unfold bind at 1. unfold pure at 1. intros H.
    apply send_item_tail_spec in H.
    destruct H as (H1 & H2 & H3 & H4 & H5 & H6 & H7).
    do 5 (split; [assumption|]).
    split; [destruct H6 as [H6|(c & Hl & Hc)];
            [left; exact H6 | right; exists c, subvol; auto]|].
    intros Ho. destruct (H7 Ho) as (Hp & Hcs & Hro & Hds & Hrest).
    split; [exact Hp|]. split; [exact Hcs|].
    exists subvol, (parent_root_id f). rewrite Hsearch.
    split; [exact Hrp|]. split; [reflexivity|]. split; [exact Hro|].
    split; [exact Hds | exact Hrest].
Qed.

(** The second loop over [args], the first of which has position [i]. *)
Lemma send_loop_spec w n :
  forall args i f o f',
    send_loop w n i args f = (o, f') ->
    new_end_cmd_semantic f' = new_end_cmd_semantic f /\
    send_flags f' = send_flags f /\
    full_send f' = full_send f /\
    var_root_id f' = var_root_id f /\
    match o with
    | Val _ => True
    | Goto_out r => r < 0
    | Exit code => 0 < code
    | Blocked => True
    end /\
    exists entries,
      log (tr f') = log (tr f) ++ entries /\
      (List.length entries <= List.length args)%nat /\
      (o = Val tt ->
       List.length entries = List.length args /\
       incl (clone_sources (send f)) (clone_sources (send f'))) /\
      forall k c, nth_error entries k = Some c ->
        exists a subvol,
          nth_error args k = Some a /\
          realpath w a = Sys_ok subvol /\
          entry_at (new_end_cmd_semantic f) (send_flags f)
            (clone_sources (send f)) n (i + k) subvol c.
Proof.
  induction args as [|a rest IH]; intros i f o f' H; simpl in H.
  - unfold pure in H. injection H as <- <-.
    do 4 (split; [reflexivity|]). split; [exact I|].
    exists []. rewrite app_nil_r. split; [reflexivity|]. split; [simpl; lia|].
    split; [intros _; split; [reflexivity | apply incl_refl]|].
    intros k c Hk. destruct k; discriminate.
  - unfold bind in H.
    destruct (send_item w n i a f) as [o1 f1] eqn:Hitem.
    apply send_item_spec in Hitem.
    destruct Hitem as (H1 & H2 & H3 & H4 & H5 & H6 & H7).
    assert (Hstop : o1 <> Val tt -> (o, f') = (match o1 with Val _ => Blocked | Goto_out r => Goto_out r | Exit c => Exit c | Blocked => Blocked end, f1) ->
      new_end_cmd_semantic f' = new_end_cmd_semantic f /\
      send_flags f' = send_flags f /\
      full_send f' = full_send f /\
      var_root_id f' = var_root_id f /\
      match o with
      | Val _ => True
      | Goto_out r => r < 0
      | Exit code => 0 < code
      | Blocked => True
      end /\
      exists entries,
        log (tr f') = log (tr f) ++ entries /\
        (List.length entries <= List.length (a :: rest))%nat /\
        (o = Val tt ->
         List.length entries = List.length (a :: rest) /\
         incl (clone_sources (send f)) (clone_sources (send f'))) /\
        forall k c, nth_error entries k = Some c ->
          exists a0 subvol,
            nth_error (a :: rest) k = Some a0 /\
            realpath w a0 = Sys_ok subvol /\
            entry_at (new_end_cmd_semantic f) (send_flags f)
              (clone_sources (send f)) n (i + k) subvol c).
    { intros Hne Heq. injection Heq as -> ->.
      do 4 (split; [assumption|]).
      split; [destruct o1 as [[]| | |]; try exact I; try exact H5; congruence|].
      destruct H6 as [[Hl _]|(c & subvol & Hrp & Hl & Hc)].
      - exists []. rewrite app_nil_r. split; [exact Hl|]. split; [simpl; lia|].
        split; [destruct o1; discriminate|].
        intros k c Hk. destruct k; discriminate.
      - exists [c]. split; [exact Hl|]. split; [simpl; lia|].
        split; [destruct o1; discriminate|].
        intros k c0 Hk. destruct k as [|[|k]]; simpl in Hk; try discriminate.
        injection Hk as <-. rewrite Nat.add_0_r.
        exists a, subvol. split; [reflexivity|]. split; [exact Hrp | exact Hc]. }
    destruct o1 as [[]|r|code|];
      [| apply Hstop; [discriminate | symmetry; exact H] .. ].
    clear Hstop.
    destruct (H7 eq_refl) as (Hp & Hcs & _).
    destruct H6 as [[_ Hne]|(c & subvol & Hrp & Hl & Hc)]; [congruence|].
    apply IH in H.
    destruct H as (G1 & G2 & G3 & G4 & G5 & entries & Gl & Glen & Gval & Gentries).
    split; [congruence|]. split; [congruence|]. split; [congruence|].
    split; [congruence|]. split; [exact G5|].
    assert (Hincl : incl (clone_sources (send f)) (clone_sources (send f1)))
      by (rewrite Hcs; apply incl_appl, incl_refl).
    exists (c :: entries).
    split; [rewrite Gl, Hl, <- app_assoc; reflexivity|].
    split; [simpl; lia|].
    split.
    + intros Ho. destruct (Gval Ho) as [Glen' Gincl].
      split; [simpl; lia | eapply incl_tran; eassumption].
    + intros k c0 Hk. destruct k as [|k]; simpl in Hk.
      * injection Hk as <-. rewrite Nat.add_0_r.
        exists a, subvol. split; [reflexivity|]. split; [exact Hrp | exact Hc].
      * apply Gentries in Hk. rewrite H1, H2 in Hk.
        destruct Hk as (a0 & subvol0 & Ha0 & Hrp0 & Hk).
        exists a0, subvol0. split; [exact Ha0|]. split; [exact Hrp0|].
        replace (i + S k)%nat with (S i + k)%nat by lia.
        eapply entry_at_incl; eassumption.
Qed.


(** *** The statements before the second loop *)

Lemma require_ro_spec w q f o f' :
  require_ro w q f = (o, f') ->
  f' = f /\
  ((o = Val tt /\ is_subvol_ro w (send f) q = 1) \/
   (exists r, o = Goto_out r /\ r < 0 /\ is_subvol_ro w (send f) q <> 1)).
Proof.
  unfold require_ro, bind, get, check_ret, goto_out, pure.
  pose proof (is_subvol_ro_range w (send f) q) as Hr.
  destruct (is_subvol_ro w (send f) q <? 0) eqn:C1.
  { apply Z.ltb_lt in C1. intros H. injection H as <- <-.
    split; [reflexivity|]. right. eexists. split; [reflexivity|]. lia. }
  apply Z.ltb_ge in C1.
  destruct (is_subvol_ro w (send f) q =? 0) eqn:C2.
  { apply Z.eqb_eq in C2. intros H. injection H as <- <-.
    split; [reflexivity|]. right. eexists. split; [reflexivity|].
    unfold EINVAL. lia. }
  apply Z.eqb_neq in C2. intros H. injection H as <- <-.
  split; [reflexivity|]. left. split; [reflexivity | lia].
Qed.

Lemma init_root_path_spec w s subvol r s' :
  init_root_path w s subvol = (r, s') ->
  clone_sources s' = clone_sources s /\ dump_fd s' = dump_fd s.
Proof.
  unfold init_root_path. destruct (root_path s).
  { intros H. injection H as <- <-. auto. }
  destruct (find_mount_root w subvol) as [r0 mr].
  destruct (r0 <? 0); [intros H; injection H as <- <-; auto|].
  destruct (r0 >? 0); [intros H; injection H as <- <-; auto|].
  destruct (open_rdonly w mr); [|intros H; injection H as <- <-; auto].
  destruct (subvol_uuid_search_init w a) as [r1 reg].
  destruct (r1 <? 0); intros H; injection H as <- <-; auto.
Qed.

Lemma do_init_root_path_spec w subvol f o f' :
  do_init_root_path w subvol f = (o, f') ->
  (exists s', f' = set_send s' f /\
              clone_sources s' = clone_sources (send f) /\
              dump_fd s' = dump_fd (send f)) /\
  (o = Val tt \/ exists r, o = Goto_out r /\ r < 0).
Proof.
  unfold do_init_root_path, bind, get, modify, check_ret, goto_out, pure.
  destruct (init_root_path w (send f) subvol) as [r s'] eqn:E.
  apply init_root_path_spec in E. destruct E as [E1 E2].
  destruct (r <? 0) eqn:C; intros H; injection H as <- <-.
  - apply Z.ltb_lt in C. split; [eauto|]. right. eauto.
  - split; [eauto|]. left. reflexivity.
Qed.

Lemma do_add_clone_source_spec w id f o f' :
  do_add_clone_source w id f = (o, f') ->
  (o = Val tt /\
   f' = set_send (set_clone_sources (send f) (clone_sources (send f) ++ [id])) f)
  \/
  (o = Goto_out (- ENOMEM) /\ f' = set_send (set_clone_sources (send f) []) f).
Proof.
  unfold do_add_clone_source, add_clone_source, bind, get, modify, check_ret,
    goto_out, pure.
  destruct (realloc_ok w _); simpl; intros H; injection H as <- <-; auto.
Qed.

Lemma flags_clean_no_data fl :
  send_flags_disjoint h -> flags_clean fl ->
  flags_clean (Z.lor fl BTRFS_SEND_FLAG_NO_FILE_DATA).
Proof.
  intros (_ & _ & H1 & H2 & _) [C1 C2]. unfold flags_clean.
  rewrite !Z.land_lor_distr_l, C1, C2, H1, H2. split; reflexivity.
Qed.

Lemma handle_opt_spec w c f o f' :
  handle_opt w c f = (o, f') ->
  tr f' = tr f /\
  prelude_outcome o /\
  (o = Val tt ->
   new_end_cmd_semantic f' = new_end_cmd_semantic f || is_opt_e c /\
   (send_flags_disjoint h -> flags_clean (send_flags f) ->
    flags_clean (send_flags f')) /\
   (forall q, snapshot_parent f = Some q -> snapshot_parent f' = Some q) /\
   (forall p, c = Opt_p p ->
      exists q, realpath w p = Sys_ok q /\ snapshot_parent f' = Some q) /\
   (forall p, In p (opt_paths [c]) -> ~ writable w p)).
Proof.
  destruct c as [| |optarg|optarg|optarg| | |]; simpl handle_opt.
  - (* -v *)
    unfold pure. intros H. injection H as <- <-.
    split; [reflexivity|]. split; [exact I|]. intros _.
    split; [rewrite orb_false_r; reflexivity|].
    split; [auto|]. split; [auto|]. split; [discriminate | intros p []].
  - (* -e *)
    unfold modify. intros H. injection H as <- <-.
    split; [reflexivity|]. split; [exact I|]. intros _. simpl.
    split; [rewrite orb_true_r; reflexivity|].
    split; [auto|]. split; [auto|]. split; [discriminate | intros p []].
  - (* -c *)
    unfold bind at 1. unfold sys_call.
    destruct (realpath w optarg) as [subvol|e] eqn:Hrp.
    2:{ unfold goto_out. intros H. injection H as <- <-.
        split; [reflexivity|]. split; [simpl; lia | discriminate]. }
    unfold pure at 1. unfold bind at 1.
    destruct (do_init_root_path w subvol f) as [o1 f1] eqn:Hinit.
    apply do_init_root_path_spec in Hinit.
    destruct Hinit as [(s1 & -> & Hcs1 & _) [-> | (r & -> & Hr)]].
    2:{ intros H. injection H as <- <-.
        split; [reflexivity|]. split; [simpl; lia | discriminate]. }
    unfold bind at 1. unfold get at 1.
    destruct (get_root_id _ _) as [id|r] eqn:Hid.
    2:{ unfold get_root_id in Hid. destruct (subvol_uuid_search _ _ _ _ _ _);
          [discriminate|]. injection Hid as <-.
        unfold goto_out. intros H. injection H as <- <-.
        split; [reflexivity|]. split; [unfold ENOENT; simpl; lia | discriminate]. }
    unfold bind at 1. unfold modify at 1. unfold bind at 1.
    destruct (require_ro w subvol _) as [o2 f2] eqn:Hro.
    apply require_ro_spec in Hro.
    destruct Hro as [-> [[-> Hro] | (r & -> & Hr & _)]].
    2:{ intros H. injection H as <- <-.
        split; [reflexivity|]. split; [simpl; lia | discriminate]. }
    unfold bind at 1.
    destruct (do_add_clone_source w id _) as [o3 f3] eqn:Hadd.
    apply do_add_clone_source_spec in Hadd.
    destruct Hadd as [[-> ->] | [-> ->]].
    2:{ intros H. injection H as <- <-.
        split; [reflexivity|]. split; [unfold ENOMEM; simpl; lia | discriminate]. }
    unfold bind, get, modify. intros H. injection H as <- <-. simpl.
    split; [reflexivity|]. split; [exact I|]. intros _.
    split; [rewrite orb_false_r; reflexivity|].
    split; [auto|]. split; [auto|]. split; [discriminate|].
    intros p [<-|[]] Hw.
    simpl in Hro. rewrite (is_subvol_ro_writable _ Hw Hrp) in Hro. discriminate.
  - (* -f *)
    destruct (negb (arg_copy_path w optarg =? 0)).
    + unfold goto_out. intros H. injection H as <- <-.
      split; [reflexivity|]. split; [simpl; lia | discriminate].
    + unfold modify. intros H. injection H as <- <-.
      split; [reflexivity|]. split; [exact I|]. intros _. simpl.
      split; [rewrite orb_false_r; reflexivity|].
      split; [auto|]. split; [auto|]. split; [discriminate | intros p []].
  - (* -p *)
    unfold bind at 1. unfold get at 1.
    destruct (snapshot_parent f) as [sp0|] eqn:Hsp.
    { unfold goto_out. intros H. injection H as <- <-.
      split; [reflexivity|]. split; [simpl; lia | discriminate]. }
    unfold bind at 1. unfold sys_call.
    destruct (realpath w optarg) as [sp|e] eqn:Hrp.
    2:{ unfold goto_out. intros H. injection H as <- <-.
        split; [reflexivity|]. split; [simpl; lia | discriminate]. }
    unfold pure at 1. unfold bind at 1. unfold modify at 1. unfold bind at 1.
    destruct (require_ro w sp _) as [o2 f2] eqn:Hro.
    apply require_ro_spec in Hro.
    destruct Hro as [-> [[-> Hro] | (r & -> & Hr & _)]].
    2:{ intros H. injection H as <- <-.
        split; [reflexivity|]. split; [simpl; lia | discriminate]. }
    unfold modify. intros H. injection H as <- <-. simpl.
    split; [reflexivity|]. split; [exact I|]. intros _.
    split; [rewrite orb_false_r; reflexivity|].
    split; [auto|]. split; [discriminate|].
    split; [intros p Hp; injection Hp as <-; eauto|].
    intros p [<-|[]] Hw.
    simpl in Hro. rewrite (is_subvol_ro_writable _ Hw Hrp) in Hro. discriminate.
  - (* -i *)
    unfold goto_out. intros H. injection H as <- <-.
    split; [reflexivity|]. split; [simpl; lia | discriminate].
  - (* --no-data *)
    unfold bind, get, modify. intros H. injection H as <- <-. simpl.
    split; [reflexivity|]. split; [exact I|]. intros _.
    split; [rewrite orb_false_r; reflexivity|].
    split; [apply flags_clean_no_data|].
    split; [auto|]. split; [discriminate | intros p []].
  - (* invalid *)
    unfold goto_out. intros H. injection H as <- <-.
    split; [reflexivity|]. split; [simpl; lia | discriminate].
Qed.

Lemma opt_paths_cons c opts p :
  In p (opt_paths (c :: opts)) <-> In p (opt_paths [c]) \/ In p (opt_paths opts).
Proof.
  destruct c; simpl; tauto.
Qed.

Lemma getopt_loop_spec w :
  forall opts f o f',
    getopt_loop w opts f = (o, f') ->
    tr f' = tr f /\
    prelude_outcome o /\
    (o = Val tt ->
     new_end_cmd_semantic f' = new_end_cmd_semantic f || has_opt_e opts /\
     (send_flags_disjoint h -> flags_clean (send_flags f) ->
      flags_clean (send_flags f')) /\
     (forall q, snapshot_parent f = Some q -> snapshot_parent f' = Some q) /\
     (forall p, In (Opt_p p) opts ->
        exists q, realpath w p = Sys_ok q /\ snapshot_parent f' = Some q) /\
     (forall p, In p (opt_paths opts) -> ~ writable w p)).
Proof.
  induction opts as [|c opts IH]; intros f o f' H; simpl in H.
  - unfold pure in H. injection H as <- <-.
    split; [reflexivity|]. split; [exact I|]. intros _.
    split; [rewrite orb_false_r; reflexivity|].
    split; [auto|]. split; [auto|]. split; intros p [].
  - unfold bind in H. destruct (handle_opt w c f) as [o1 f1] eqn:Hc.
    apply handle_opt_spec in Hc. destruct Hc as (Ht & Ho & Hval).
    destruct o1 as [[]|r|code|]; try (injection H as <- <-; split;
      [exact Ht | split; [exact Ho | discriminate]]).
    destruct (Hval eq_refl) as (He & Hfl & Hsp & Hp & Hro).
    apply IH in H. destruct H as (Ht' & Ho' & Hval').
    split; [congruence|]. split; [exact Ho'|]. intros Hv.
    destruct (Hval' Hv) as (He' & Hfl' & Hsp' & Hp' & Hro').
    split; [rewrite He', He; unfold has_opt_e; simpl; rewrite orb_assoc;
            reflexivity|].
    split; [auto|]. split; [auto|]. split.
    + intros p [->|Hin]; [|auto].
      destruct (Hp p eq_refl) as (q & Hq & Hs). eauto.
    + intros p Hin. apply opt_paths_cons in Hin. destruct Hin; auto.
Qed.

Lemma get_root_id_sus s s' p :
  sus s' = sus s -> get_root_id s' p = get_root_id s p.
Proof. unfold get_root_id. intros ->. reflexivity. Qed.

Lemma get_root_id_error s p r : get_root_id s p = Error r -> r = - ENOENT.
Proof.
  unfold get_root_id. destruct (subvol_uuid_search _ _ _ _ _ _);
    [discriminate | congruence].
Qed.

Lemma cmd_send_setup_spec w subvols f o f' :
  cmd_send_setup w subvols f = (o, f') ->
  tr f' = tr f /\
  prelude_outcome o /\
  new_end_cmd_semantic f' = new_end_cmd_semantic f /\
  send_flags f' = send_flags f /\
  (o = Val tt ->
   forall sp, snapshot_parent f = Some sp ->
     exists id,
       get_root_id (send f')
         (subvol_strip_mountpoint w (root_path_str (send f')) sp) = Ok id /\
       parent_root_id f' = id /\
       In id (clone_sources (send f'))).
Proof.
  unfold cmd_send_setup. destruct subvols as [|first rest].
  { unfold exit. intros H. injection H as <- <-.
    split; [reflexivity|]. split; [simpl; lia|]. split; [reflexivity|].
    split; [reflexivity | discriminate]. }
  unfold bind at 1. unfold get at 1. unfold bind at 1.
  assert (Hcreat : exists o0 f0,
            (if negb (outname f =? "")%string
             then bind (sys_call (creat w (outname f)))
                    (fun fd => modify (set_send (set_dump_fd (send f) fd)))
             else pure tt) f = (o0, f0) /\
            tr f0 = tr f /\ prelude_outcome o0 /\
            new_end_cmd_semantic f0 = new_end_cmd_semantic f /\
            send_flags f0 = send_flags f /\
            snapshot_parent f0 = snapshot_parent f).
  { destruct (negb (outname f =? "")%string).
    - unfold bind, sys_call. destruct (creat w (outname f)).
      + eexists _, _. split; [reflexivity|]. simpl. auto.
      + eexists _, _. split; [reflexivity|]. simpl. repeat split. lia.
    - eexists _, _. split; [reflexivity|]. simpl. auto. }
  destruct Hcreat as (o0 & f0 & -> & Ht0 & Ho0 & He0 & Hf0 & Hs0).
  destruct o0 as [[]|r|code|]; try (intros H; injection H as <- <-;
    split; [exact Ht0 | split; [exact Ho0 | split; [exact He0 |
    split; [exact Hf0 | discriminate]]]]).
  unfold bind at 1. unfold get at 1.
  destruct (isatty w (dump_fd (send f0))).
  { unfold goto_out. intros H. injection H as <- <-.
    split; [exact Ht0|]. split; [simpl; lia|]. split; [exact He0|].
    split; [exact Hf0 | discriminate]. }
  unfold bind at 1. unfold sys_call.
  destruct (realpath w first) as [subvol|e].
  2:{ unfold goto_out. intros H. injection H as <- <-.
      split; [exact Ht0|]. split; [simpl; lia|]. split; [exact He0|].
      split; [exact Hf0 | discriminate]. }
  unfold pure at 1. unfold bind at 1.
  destruct (do_init_root_path w subvol f0) as [o1 f1] eqn:Hinit.
  apply do_init_root_path_spec in Hinit.
  destruct Hinit as [(s1 & -> & Hcs1 & _) [-> | (r & -> & Hr)]].
  2:{ intros H. injection H as <- <-.
      split; [exact Ht0|]. split; [simpl; lia|]. split; [exact He0|].
      split; [exact Hf0 | discriminate]. }
  unfold bind at 1. unfold get at 1.
  cbn [snapshot_parent set_send send]. rewrite Hs0.
  destruct (snapshot_parent f) as [sp|].
  2:{ unfold pure. intros H. injection H as <- <-.
      split; [exact Ht0|]. split; [exact I|]. split; [exact He0|].
      split; [exact Hf0|]. intros _ sp Hsp. discriminate. }
  destruct (get_root_id _ _) as [id|r] eqn:Hid.
  2:{ apply get_root_id_error in Hid. subst r.
      unfold goto_out. intros H. injection H as <- <-.
      split; [exact Ht0|]. split; [unfold ENOENT; simpl; lia|].
      split; [exact He0|]. split; [exact Hf0 | discriminate]. }
  unfold bind at 1. unfold modify at 1.
  destruct (do_add_clone_source w id _) as [o3 f3] eqn:Hadd.
  apply do_add_clone_source_spec in Hadd.
  destruct Hadd as [[-> ->] | [-> ->]]; intros H; injection H as <- <-.
  - split; [exact Ht0|]. split; [exact I|]. split; [exact He0|].
    split; [exact Hf0|]. intros _ sp' Hsp'. injection Hsp' as <-.
    exists id. simpl in *. split; [exact Hid|]. split; [reflexivity|].
    apply in_or_app. right. left. reflexivity.
  - split; [exact Ht0|]. split; [unfold ENOMEM; simpl; lia|].
    split; [exact He0|]. split; [exact Hf0 | discriminate].
Qed.

Lemma check_item_spec w a f o f' :
  check_item w a f = (o, f') ->
  f' = f /\ prelude_outcome o /\ (o = Val tt -> ~ writable w a).
Proof.
  unfold check_item. unfold bind at 1. unfold sys_call.
  destruct (realpath w a) as [subvol|e] eqn:Hrp.
  2:{ unfold goto_out. intros H. injection H as <- <-.
      split; [reflexivity|]. split; [simpl; lia | discriminate]. }
  unfold pure at 1. destruct (find_mount_root w subvol) as [r mount_root].
  unfold bind at 1. unfold check_ret.
  destruct (r <? 0) eqn:C.
  { apply Z.ltb_lt in C. unfold goto_out. intros H. injection H as <- <-.
    split; [reflexivity|]. split; [simpl; lia | discriminate]. }
  unfold pure at 1.
  destruct (r >? 0).
  { unfold goto_out. intros H. injection H as <- <-.
    split; [reflexivity|]. split; [unfold EINVAL; simpl; lia | discriminate]. }
  unfold bind at 1. unfold get at 1.
  destruct (negb _).
  { unfold goto_out. intros H. injection H as <- <-.
    split; [reflexivity|]. split; [unfold EINVAL; simpl; lia | discriminate]. }
  intros H. apply require_ro_spec in H.
  destruct H as [-> [[-> Hro] | (r0 & -> & Hr & _)]].
  - split; [reflexivity|]. split; [exact I|]. intros _ Hw.
    rewrite (is_subvol_ro_writable _ Hw Hrp) in Hro. discriminate.
  - split; [reflexivity|]. split; [simpl; lia | discriminate].
Qed.

Lemma check_loop_spec w :
  forall args f o f',
    check_loop w args f = (o, f') ->
    f' = f /\ prelude_outcome o /\
    (o = Val tt -> forall p, In p args -> ~ writable w p).
Proof.
  induction args as [|a args IH]; intros f o f' H; simpl in H.
  - unfold pure in H. injection H as <- <-.
    split; [reflexivity|]. split; [exact I|]. intros _ p [].
  - unfold bind in H. destruct (check_item w a f) as [o1 f1] eqn:Hc.
    apply check_item_spec in Hc. destruct Hc as (-> & Ho & Hval).
    destruct o1 as [[]|r|code|]; try (injection H as <- <-; split;
      [reflexivity | split; [exact Ho | discriminate]]).
    apply IH in H. destruct H as (-> & Ho' & Hval').
    split; [reflexivity|]. split; [exact Ho'|].
    intros Hv p [<-|Hin]; [auto | apply Hval'; assumption].
Qed.

(** The [printf] between the loops touches nothing but the buffer of
    [stdout]. *)
Lemma print_mode_spec f :
  print_mode f =
  (Val tt,
   if negb (Z.land (send_flags f) BTRFS_SEND_FLAG_NO_FILE_DATA =? 0)
   then set_stdout_buf (stdout_buf f ++ mode_no_file_data) f else f).
Proof.
  unfold print_mode, bind, get, modify, pure.
  destruct (negb (Z.land (send_flags f) BTRFS_SEND_FLAG_NO_FILE_DATA =? 0));
    reflexivity.
Qed.

Lemma print_mode_fields f f' :
  print_mode f = (Val tt, f') ->
  send f' = send f /\ tr f' = tr f /\
  new_end_cmd_semantic f' = new_end_cmd_semantic f /\
  send_flags f' = send_flags f /\
  full_send f' = full_send f /\
  parent_root_id f' = parent_root_id f /\
  var_root_id f' = var_root_id f /\
  snapshot_parent f' = snapshot_parent f.
Proof.
  rewrite print_mode_spec. intros H. injection H as <-.
  destruct (negb (Z.land (send_flags f) BTRFS_SEND_FLAG_NO_FILE_DATA =? 0));
    repeat split.
Qed.

(** Everything before the second loop: nothing is sent, every path has
    been found read-only, and the [-p] parent is a clone source. *)
Lemma cmd_send_prelude_spec w opts subvols f o f' :
  cmd_send_prelude w opts subvols f = (o, f') ->
  tr f' = tr f /\
  prelude_outcome o /\
  (o = Val tt ->
   new_end_cmd_semantic f' = new_end_cmd_semantic f || has_opt_e opts /\
   (send_flags_disjoint h -> flags_clean (send_flags f) ->
    flags_clean (send_flags f')) /\
   (forall p, In p (opt_paths opts ++ subvols) -> ~ writable w p) /\
   (forall p, In (Opt_p p) opts ->
      exists sp id,
        realpath w p = Sys_ok sp /\
        get_root_id (send f')
          (subvol_strip_mountpoint w (root_path_str (send f')) sp) = Ok id /\
        parent_root_id f' = id /\
        In id (clone_sources (send f')))).
Proof.
  unfold cmd_send_prelude. unfold bind at 1.
  destruct (getopt_loop w opts f) as [o1 f1] eqn:H1.
  apply getopt_loop_spec in H1. destruct H1 as (Ht1 & Ho1 & Hv1).
  destruct o1 as [[]|r|code|]; try (intros H; injection H as <- <-;
    split; [exact Ht1 | split; [exact Ho1 | discriminate]]).
  destruct (Hv1 eq_refl) as (He1 & Hfl1 & _ & Hp1 & Hro1).
  unfold bind at 1.
  destruct (cmd_send_setup w subvols f1) as [o2 f2] eqn:H2.
  apply cmd_send_setup_spec in H2.
  destruct H2 as (Ht2 & Ho2 & He2 & Hfl2 & Hv2).
  destruct o2 as [[]|r|code|]; try (intros H; injection H as <- <-;
    split; [congruence | split; [exact Ho2 | discriminate]]).
  unfold bind at 1.
  destruct (check_loop w subvols f2) as [o3 f3] eqn:H3.
  apply check_loop_spec in H3. destruct H3 as (-> & Ho3 & Hv3).
  destruct o3 as [[]|r|code|]; try (intros H; injection H as <- <-;
    split; [congruence | split; [exact Ho3 | discriminate]]).
  intros H. assert (Ho : o = Val tt)
    by (rewrite print_mode_spec in H; congruence).
  subst o. apply print_mode_fields in H.
  destruct H as (Fs & Ft & Fe & Ffl & _ & Fp & _).
  rewrite Fs, Ft, Fe, Ffl, Fp.
  split; [congruence|]. split; [exact I|]. intros Hv.
  split; [congruence|].
  split; [intros Hd Hc; rewrite Hfl2; auto|].
  split.
  - intros p Hin. apply in_app_or in Hin. destruct Hin; auto.
  - intros p Hin. destruct (Hp1 p Hin) as (sp & Hsp & Hs).
    destruct (Hv2 eq_refl sp Hs) as (id & Hid & Hpid & Hcs).
    exists sp, id. auto.
Qed.

Lemma cmd_send_body_prelude w opts subvols f :
  cmd_send_body w opts subvols f =
  bind (cmd_send_prelude w opts subvols)
    (fun _ => send_loop w (List.length subvols) 0 subvols) f.
Proof.
  unfold cmd_send_body, cmd_send_prelude, bind.
  destruct (getopt_loop w opts f) as [[[]| | |] f1]; try reflexivity.
  destruct (cmd_send_setup w subvols f1) as [[[]| | |] f2]; try reflexivity.
  destruct (check_loop w subvols f2) as [[[]| | |] f3]; try reflexivity.
Qed.

(** *** The whole command *)

Lemma cmd_send_unfold w opts subvols :
  cmd_send w opts subvols =
  (status_of (fst (cmd_send_body w opts subvols init_frame)),
   snd (cmd_send_body w opts subvols init_frame)).
Proof.
  unfold cmd_send.
  destruct (cmd_send_body w opts subvols init_frame) as [[[]| | |] f];
    reflexivity.
Qed.

Lemma prelude_outcome_failed A (o : outcome A) :
  prelude_outcome o -> (forall a, o <> Val a) -> failed (status_of o).
Proof.
  destruct o as [a|r|code|]; simpl; intros Hp Hne.
  - destruct (Hne a eq_refl).
  - destruct (r =? 0) eqn:E; [apply Z.eqb_eq in E; contradiction | reflexivity].
  - exact Hp.
  - exact Hp.
Qed.

(** C10: when one of the paths given with [-c] or [-p], or one of the
    subvolumes to send, resolves to a writable subvolume, [cmd_send]
    ends with an error, no [BTRFS_IOC_SEND] has been issued and nothing
    has been written to the sink. *)
Theorem cmd_send_requires_read_only (w : world) (opts : list opt)
    (subvols : list string) (p : string) :
  In p (opt_paths opts ++ subvols) ->
  writable w p ->
  failed (fst (cmd_send w opts subvols)) /\
  log (tr (snd (cmd_send w opts subvols))) = [] /\
  written (sink (tr (snd (cmd_send w opts subvols)))) = [].
Proof.
  intros Hin Hw. rewrite cmd_send_unfold, cmd_send_body_prelude. simpl.
  unfold bind.
  destruct (cmd_send_prelude w opts subvols init_frame) as [o f0] eqn:Hpre.
  apply cmd_send_prelude_spec in Hpre. destruct Hpre as (Ht & Ho & Hv).
  destruct o as [[]|r|code|].
  - destruct (Hv eq_refl) as (_ & _ & Hro & _). destruct (Hro p Hin Hw).
  - simpl. rewrite Ht. split; [|split; reflexivity].
    apply (@prelude_outcome_failed unit (Goto_out r) Ho). discriminate.
  - simpl. rewrite Ht. split; [exact Ho | split; reflexivity].
  - destruct Ho.
Qed.

Lemma omit_flags_send_args s fd parent first last subvol fl :
  send_flags_disjoint h -> flags_clean fl ->
  omit_header (send_args s fd parent first last subvol fl) = negb first /\
  omit_trailer (send_args s fd parent first last subvol fl) = negb last.
Proof.
  intros (Hh & He & _ & _ & Hhe) [C1 C2].
  assert (Heh : Z.land BTRFS_SEND_FLAG_OMIT_END_CMD
                  BTRFS_SEND_FLAG_OMIT_STREAM_HEADER = 0)
    by (rewrite Z.land_comm; exact Hhe).
  unfold omit_header, omit_trailer, send_args. simpl io_flags.
  destruct first, last; simpl negb; cbv iota;
    rewrite ?Z.land_lor_distr_l, ?C1, ?C2, ?Hhe, ?Heh, ?Z.land_diag,
      ?Z.lor_0_l, ?Z.lor_0_r; split;
    try reflexivity;
    match goal with
    | |- negb (?x =? 0) = true =>
        destruct (x =? 0) eqn:E; [apply Z.eqb_eq in E; contradiction | reflexivity]
    end.
Qed.

Lemma flags_clean_0 : flags_clean 0.
Proof. split; apply Z.land_0_l. Qed.

(** C5: the [j]-th request of a run of [cmd_send] is the one for the
    [j]-th subvolume of the command line; it leaves out the stream
    header exactly when [-e] was given and it is not the first
    subvolume, and leaves out the end command exactly when [-e] was given
    and it is not the last one; without [-e] no request leaves out
    either. *)
Theorem cmd_send_framing_flags (w : world) (opts : list opt)
    (subvols : list string) (j : nat) (c : send_call) :
  send_flags_disjoint h ->
  nth_error (log (tr (snd (cmd_send w opts subvols)))) j = Some c ->
  (exists a, nth_error subvols j = Some a /\
             realpath w a = Sys_ok (io_subvol c)) /\
  omit_header c = has_opt_e opts && negb (Nat.eqb j 0) /\
  omit_trailer c =
    has_opt_e opts && negb (Nat.eqb j (List.length subvols - 1)).
Proof.
  intros Hd. rewrite cmd_send_unfold, cmd_send_body_prelude. simpl snd.
  unfold bind.
  destruct (cmd_send_prelude w opts subvols init_frame) as [o f0] eqn:Hpre.
  apply cmd_send_prelude_spec in Hpre. destruct Hpre as (Ht & Ho & Hv).
  destruct o as [[]|r|code|];
    try (simpl; rewrite Ht; simpl; destruct j; discriminate).
  destruct (Hv eq_refl) as (He & Hfl & _ & _).
  specialize (Hfl Hd flags_clean_0). simpl in He.
  destruct (send_loop w (List.length subvols) 0 subvols f0) as [o1 f1] eqn:Hloop.
  apply send_loop_spec in Hloop.
  destruct Hloop as (_ & _ & _ & _ & _ & entries & Hl & _ & _ & Hentries).
  simpl. rewrite Hl, Ht. simpl. intros Hj.
  apply Hentries in Hj. simpl in Hj.
  destruct Hj as (a & subvol & Ha & Hrp & s1 & fd & parent & -> & _).
  split; [exists a; split; [exact Ha | exact Hrp]|].
  destruct (omit_flags_send_args s1 fd parent
              (if new_end_cmd_semantic f0 then Nat.eqb j 0 else true)
              (if new_end_cmd_semantic f0
               then Nat.eqb j (List.length subvols - 1) else true)
              subvol Hd Hfl) as [-> ->].
  rewrite He. destruct (has_opt_e opts); split; reflexivity.
Qed.

(** C9: once everything before the sending loop has succeeded on a
    command line with [-p p], nothing has been sent yet, the root id that
    [get_root_id] resolves [p] to is among the clone sources, and every
    [BTRFS_IOC_SEND] request of the run carries it in its clone
    sources. *)
Theorem cmd_send_parent_is_clone_source (w : world) (opts : list opt)
    (subvols : list string) (p : string) (f0 : frame) :
  In (Opt_p p) opts ->
  cmd_send_prelude w opts subvols init_frame = (Val tt, f0) ->
  exists sp id,
    realpath w p = Sys_ok sp /\
    get_root_id (send f0)
      (subvol_strip_mountpoint w (root_path_str (send f0)) sp) = Ok id /\
    log (tr f0) = [] /\
    In id (clone_sources (send f0)) /\
    forall c, In c (log (tr (snd (cmd_send w opts subvols)))) ->
              In id (io_clone_sources c).
Proof.
  intros Hin Hpre. pose proof Hpre as Hspec.
  apply cmd_send_prelude_spec in Hspec. destruct Hspec as (Ht & _ & Hv).
  destruct (Hv eq_refl) as (_ & _ & _ & Hp).
  destruct (Hp p Hin) as (sp & id & Hsp & Hid & _ & Hcs).
  exists sp, id. split; [exact Hsp|]. split; [exact Hid|].
  split; [rewrite Ht; reflexivity|]. split; [exact Hcs|].
  rewrite cmd_send_unfold, cmd_send_body_prelude. simpl snd.
  unfold bind. rewrite Hpre.
  destruct (send_loop w (List.length subvols) 0 subvols f0) as [o1 f1] eqn:Hloop.
  apply send_loop_spec in Hloop.
  destruct Hloop as (_ & _ & _ & _ & _ & entries & Hl & _ & _ & Hentries).
  simpl. rewrite Hl, Ht. simpl. intros c Hc.
  apply In_nth_error in Hc. destruct Hc as [k Hk].
  apply Hentries in Hk.
  destruct Hk as (_ & subvol & _ & _ & s1 & fd & parent & -> & Hincl).
  simpl. apply Hincl. exact Hcs.
Qed.



End CmdSend.


(** *** Runs on the sample machine *)

Local Open Scope string_scope.

Lemma writable_sample_rw : @writable linux_ioctl_h sample_world "/mnt/rw".
Proof.
  exists "/mnt/rw", 0. repeat split.
Qed.

Lemma cmd_send_requires_read_only_witness :
  failed (fst (@cmd_send linux_ioctl_h sample_world
                 [Opt_c "/mnt/c"; Opt_p "/mnt/rw"] ["/mnt/s1"; "/mnt/s2"])) /\
  log (tr (snd (@cmd_send linux_ioctl_h sample_world
                  [Opt_c "/mnt/c"; Opt_p "/mnt/rw"] ["/mnt/s1"; "/mnt/s2"]))) = [] /\
  written (sink (tr (snd (@cmd_send linux_ioctl_h sample_world
                  [Opt_c "/mnt/c"; Opt_p "/mnt/rw"] ["/mnt/s1"; "/mnt/s2"])))) = [].
Proof.
  apply (@cmd_send_requires_read_only linux_ioctl_h sample_world
           [Opt_c "/mnt/c"; Opt_p "/mnt/rw"] ["/mnt/s1"; "/mnt/s2"]
           "/mnt/rw").
  - simpl. auto.
  - exact writable_sample_rw.
Defined.

Lemma linux_send_flags_disjoint : send_flags_disjoint linux_ioctl_h.
Proof. repeat split; discriminate. Qed.

Lemma cmd_send_framing_flags_witness :
  let c := {| io_subvol := "/mnt/s2"; io_send_fd := 5; io_clone_sources := [];
              io_parent_root := 0; io_flags := 6 |} in
  (exists a, nth_error ["/mnt/s1"; "/mnt/s2"; "/mnt/base"] 1 = Some a /\
             realpath sample_world a = Sys_ok (io_subvol c)) /\
  @omit_header linux_ioctl_h c = true /\ @omit_trailer linux_ioctl_h c = true.
Proof.
  apply (@cmd_send_framing_flags linux_ioctl_h sample_world [Opt_e]
           ["/mnt/s1"; "/mnt/s2"; "/mnt/base"] 1%nat).
  - exact linux_send_flags_disjoint.
  - vm_compute. reflexivity.
Defined.

Lemma cmd_send_parent_is_clone_source_witness :
  exists sp id,
    realpath sample_world "/mnt/base" = Sys_ok sp /\
    get_root_id (send parent_f0)
      (subvol_strip_mountpoint sample_world (root_path_str (send parent_f0)) sp)
      = Ok id /\
    log (tr parent_f0) = [] /\
    In id (clone_sources (send parent_f0)) /\
    forall c,
      In c (log (tr (snd (@cmd_send linux_ioctl_h sample_world
                            [Opt_p "/mnt/base"] ["/mnt/s1"])))) ->
      In id (io_clone_sources c).
Proof.
  apply (@cmd_send_parent_is_clone_source linux_ioctl_h sample_world
           [Opt_p "/mnt/base"] ["/mnt/s1"] "/mnt/base" parent_f0).
  - left. reflexivity.
  - vm_compute. reflexivity.
Defined.

(** On the sample machine the parent given with [-p] has root id 256. *)
Example cmd_send_parent_256 :
  map io_clone_sources
    (log (tr (snd (@cmd_send linux_ioctl_h sample_world
                     [Opt_p "/mnt/base"] ["/mnt/s1"]))))
  = [[256]].
Proof. vm_compute. reflexivity. Qed.


(** ** The clone source added after each item *)

(** C3 fails on the code: the loop never sets [root_id] to the root id
    of the subvolume it sends.  With [-p /mnt/base /mnt/s1 /mnt/s2], where
    [s2] is a snapshot of [s1] (root id 258), [s1] is sent, the stale
    [root_id = 0] is added to the clone sources, and the parent search
    for the second item is run on root id 0 and fails: one request only,
    status 1.  With [-c /mnt/c] instead, the last [-c] root id (257) is
    added again and [s2] is sent against 257; 258 is never a clone
    source. *)
Theorem cmd_send_adds_stale_root_id :
  let r := @cmd_send linux_ioctl_h sample_world
             [Opt_p "/mnt/base"] ["/mnt/s1"; "/mnt/s2"] in
  let r' := @cmd_send linux_ioctl_h sample_world
              [Opt_c "/mnt/c"] ["/mnt/s1"; "/mnt/s2"] in
  get_parent (send (snd r)) 259 = Some (mk_subvol 258 3 1 120 "s1") /\
  fst r = Returned 1 /\
  map io_subvol (log (tr (snd r))) = ["/mnt/s1"] /\
  clone_sources (send (snd r)) = [256; 0]%Z /\
  find_good_parent (send (snd r)) 0 = Error (- ENOENT) /\
  fst r' = Returned 0 /\
  map (fun c => (io_subvol c, io_parent_root c, io_clone_sources c))
    (log (tr (snd r')))
  = [("/mnt/s1", 257, [257]); ("/mnt/s2", 257, [257; 257])]%Z /\
  ~ In 258 (clone_sources (send (snd r'))).
Proof.
  vm_compute. repeat split; try reflexivity.
  intros [H|[H|[H|[]]]]; discriminate.
Qed.

(** * Further properties of the code *)

Local Close Scope string_scope.

(** ** find_good_parent: what it can return *)

Lemma scan_clone_sources_result s parent :
  forall cs best bd bp,
    scan_clone_sources s parent cs best bd = Ok (Some bp) ->
    best = Some bp \/
    exists c, In c cs /\ by_root_id (sus s) c = Some bp /\
              is_sibling s parent c = true.
Proof.
  induction cs as [|c cs IH]; intros best bd bp H; simpl in H.
  - injection H as ->. left. reflexivity.
  - assert (Hnext : forall b d,
              scan_clone_sources s parent cs b d = Ok (Some bp) ->
              b = best \/ (by_root_id (sus s) c = b /\
                           is_sibling s parent c = true) ->
              best = Some bp \/
              exists c0, In c0 (c :: cs) /\ by_root_id (sus s) c0 = Some bp /\
                         is_sibling s parent c0 = true).
    { intros b d Hs Hb. apply IH in Hs. destruct Hs as [->|(c0 & Hin & Hc0)].
      - destruct Hb as [<-|[Hb Hsib]]; [left; reflexivity|].
        right. exists c. split; [left; reflexivity | auto].
      - right. exists c0. split; [right; exact Hin | exact Hc0]. }
    unfold is_sibling in Hnext.
    destruct (get_parent s c) as [p2|] eqn:Hgp; [|eapply Hnext; eauto].
    destruct (root_id p2 =? root_id parent) eqn:Heq; simpl in H;
      [|eapply Hnext; eauto].
    unfold subvol_uuid_search in H.
    destruct (by_root_id (sus s) c) as [si|] eqn:Hsi; [|discriminate].
    destruct (to_u64 (ctransid_diff si parent) <? bd);
      eapply Hnext; eauto.
Qed.

(** X1: whatever [find_good_parent] returns is one of the clone
    sources (for a registry that answers a root id with the record of
    that root id): the target's recorded ancestor itself, or a clone
    source with the same recorded ancestor. *)
Theorem find_good_parent_returns_clone_source (s : btrfs_send)
    (rootid found : Z) :
  by_root_id_sound (sus s) ->
  find_good_parent s rootid = Ok found ->
  In found (clone_sources s) /\
  exists parent,
    get_parent s rootid = Some parent /\
    (found = root_id parent \/ is_sibling s parent found = true).
Proof.
  intros Hsound. unfold find_good_parent.
  destruct (get_parent s rootid) as [parent|]; [|discriminate].
  destruct (clone_sources_has (clone_sources s) (root_id parent)) eqn:Hhas.
  - intros H. injection H as <-. apply clone_sources_has_In in Hhas.
    split; [exact Hhas|]. exists parent. auto.
  - destruct (scan_clone_sources s parent (clone_sources s) None U64_MAX)
      as [[bp|]|r] eqn:Hscan; try discriminate.
    intros H. injection H as <-.
    apply scan_clone_sources_result in Hscan.
    destruct Hscan as [Hn|(c & Hin & Hc & Hsib)]; [discriminate|].
    rewrite (Hsound _ _ Hc).
    split; [exact Hin|]. exists parent. auto.
Qed.

Lemma find_good_parent_returns_clone_source_witness :
  In 259 (clone_sources send_siblings) /\
  exists parent,
    get_parent send_siblings 260 = Some parent /\
    (259 = root_id parent \/ is_sibling send_siblings parent 259 = true).
Proof.
  apply (@find_good_parent_returns_clone_source send_siblings 260 259).
  - apply registry_of_sound.
  - vm_compute. reflexivity.
Defined.

(** X2: [find_good_parent] fails with [-ENOENT] and nothing else; it
    does so whenever the target has no recorded ancestor and whenever
    there is no clone source at all. *)
Theorem find_good_parent_fails_with_enoent (s : btrfs_send) (rootid : Z) :
  (forall ret, find_good_parent s rootid = Error ret -> ret = - ENOENT) /\
  (get_parent s rootid = None ->
   find_good_parent s rootid = Error (- ENOENT)) /\
  (clone_sources s = [] -> find_good_parent s rootid = Error (- ENOENT)).
Proof.
  split; [intros ret; apply find_good_parent_error|].
  unfold find_good_parent. split.
  - intros ->. reflexivity.
  - intros ->. destruct (get_parent s rootid); reflexivity.
Qed.

(** ** The stream pump: what reaches the sink *)

Lemma firstn_plus (A : Type) (l : list A) :
  forall p m, firstn (p + m) l = firstn p l ++ firstn m (skipn p l).
Proof.
  induction l as [|x l IH]; intros p m.
  - rewrite !firstn_nil, skipn_nil, firstn_nil. reflexivity.
  - destruct p as [|p]; simpl; [reflexivity|]. rewrite IH. reflexivity.
Qed.

(** The loop of [write_buf] from [pos]: it stops at some [posf], having
    handed the sink the bytes between [pos] and [posf]. *)
Lemma write_loop_prefix wr buf size :
  forall fuel snk pos ret snk',
    0 <= pos ->
    (Z.to_nat (size - pos) <= fuel)%nat ->
    write_loop fuel wr snk buf pos size = (ret, snk') ->
    exists posf,
      pos <= posf /\
      written snk' =
        written snk ++
        firstn (Z.to_nat (posf - pos)) (skipn (Z.to_nat pos) buf) /\
      ((ret = 0 /\ size <= posf) \/ (ret < 0 /\ posf < size)).
Proof.
  induction fuel as [|f IH]; intros snk pos ret snk' Hpos Hf H; simpl in H.
  - injection H as <- <-. exists pos. split; [lia|].
    rewrite Z.sub_diag. simpl. rewrite app_nil_r. split; [reflexivity|].
    left. split; [reflexivity | lia].
  - destruct (pos <? size) eqn:C.
    2:{ apply Z.ltb_ge in C. injection H as <- <-. exists pos. split; [lia|].
        rewrite Z.sub_diag. simpl. rewrite app_nil_r. split; [reflexivity|].
        left. split; [reflexivity | lia]. }
    apply Z.ltb_lt in C.
    destruct (wr (wcalls snk) (size - pos)) as [[|p]|e].
    + injection H as <- <-. exists pos. split; [lia|].
      rewrite Z.sub_diag. simpl. rewrite app_nil_r. split; [reflexivity|].
      right. split; [unfold EIO; lia | exact C].
    + apply IH in H; [|simpl; lia|simpl; lia].
      destruct H as (posf & Hle & Hw & Hres).
      exists posf. split; [simpl in Hle; lia|]. split; [|exact Hres].
      rewrite Hw. simpl written. rewrite <- app_assoc. f_equal.
      replace (Z.to_nat (posf - pos))
        with (N.to_nat (N.pos p)
              + Z.to_nat (posf - (pos + Z.of_N (N.pos p))))%nat
        by (simpl in *; lia).
      rewrite firstn_plus. f_equal. rewrite skipn_skipn. f_equal. f_equal.
      simpl. lia.
    + injection H as <- <-. exists pos. split; [lia|].
      rewrite Z.sub_diag. simpl. rewrite app_nil_r. split; [reflexivity|].
      right. split; [lia | exact C].
Qed.

Lemma write_buf_prefix wr snk buf ret snk' :
  write_buf wr snk buf (Z.of_nat (List.length buf)) = (ret, snk') ->
  exists k : nat,
    (k <= List.length buf)%nat /\
    written snk' = written snk ++ firstn k buf /\
    ((ret = 0 /\ k = List.length buf) \/
     (ret < 0 /\ (k < List.length buf)%nat)).
Proof.
  unfold write_buf. intros H.
  apply write_loop_prefix in H; [|lia|lia].
  destruct H as (posf & Hle & Hw & Hres). simpl in Hw.
  rewrite Z.sub_0_r in Hw.
  destruct Hres as [[-> Hge]|[Hneg Hlt]].
  - exists (List.length buf). split; [lia|]. split; [|left; auto].
    rewrite Hw. f_equal. rewrite firstn_all.
    apply firstn_all2. lia.
  - exists (Z.to_nat posf). split; [lia|]. split; [exact Hw|].
    right. split; [exact Hneg | lia].
Qed.

(** X3: [write_buf] hands the sink a prefix of the buffer, whatever the
    sink answers: the whole buffer exactly when it returns 0, a proper
    prefix when it returns a negative error. *)
Theorem write_buf_writes_prefix (wr : write_oracle) (snk : sink_t)
    (buf : list byte) :
  let (ret, snk') := write_buf wr snk buf (Z.of_nat (List.length buf)) in
  exists k : nat,
    (k <= List.length buf)%nat /\
    written snk' = written snk ++ firstn k buf /\
    ((ret = 0 /\ k = List.length buf) \/
     (ret < 0 /\ (k < List.length buf)%nat)).
Proof.
  destruct (write_buf wr snk buf (Z.of_nat (List.length buf)))
    as [ret snk'] eqn:H.
  eapply write_buf_prefix. exact H.
Qed.

Lemma dump_loop_prefix wr :
  forall reads snk r snk' rest,
    dump_loop wr reads snk = (r, snk', rest) ->
    exists consumed k,
      reads = consumed ++ rest /\
      written snk' = written snk ++ firstn k (data_of consumed) /\
      (r = Some 0 \/ r = None ->
       written snk' = written snk ++ data_of consumed).
Proof.
  induction reads as [|rd reads IH]; intros snk r snk' rest H; simpl in H.
  - injection H as <- <- <-. exists [], 0%nat. simpl.
    rewrite app_nil_r. auto.
  - destruct rd as [data|e].
    + destruct (Z.of_nat (List.length data) =? 0) eqn:E.
      * apply Z.eqb_eq in E. injection H as <- <- <-.
        assert (data = []) by (destruct data; [reflexivity | simpl in E; lia]).
        subst data. exists [ReadOk []], 0%nat. simpl.
        rewrite app_nil_r. auto.
      * destruct (write_buf wr snk data (Z.of_nat (List.length data)))
          as [wret snk1] eqn:W.
        apply write_buf_prefix in W.
        destruct W as (k1 & Hk1 & Hw1 & Hres1).
        destruct (wret <? 0) eqn:C.
        -- apply Z.ltb_lt in C. injection H as <- <- <-.
           exists [ReadOk data], k1. split; [reflexivity|].
           unfold data_of. simpl. rewrite app_nil_r.
           split; [exact Hw1|].
           intros [Hr|Hr]; [injection Hr as ->; lia | discriminate].
        -- apply Z.ltb_ge in C.
           destruct Hres1 as [[-> ->]|[Hneg _]]; [|lia].
           rewrite firstn_all in Hw1.
           apply IH in H. destruct H as (consumed & k & -> & Hw & Hall).
           exists (ReadOk data :: consumed), (List.length data + k)%nat.
           split; [reflexivity|].
           unfold data_of in *. simpl.
           split.
           ++ rewrite Hw, Hw1, <- app_assoc. f_equal.
              rewrite firstn_app_2. reflexivity.
           ++ intros Hr. rewrite (Hall Hr), Hw1, <- app_assoc. reflexivity.
    + injection H as <- <- <-. exists [ReadErr e], 0%nat. simpl.
      rewrite app_nil_r. split; [reflexivity|]. split; [reflexivity|].
      intros [Hr|Hr]; [injection Hr as Hr; lia | discriminate].
Qed.

(** X4: the sink receives the bytes in the order they were read and
    nothing else: after the pump, what it has gained is a prefix of the
    data of the reads consumed, and all of it when the pump stopped with
    [ret = 0] or is still waiting in [read]. *)
Theorem dump_loop_keeps_order (wr : write_oracle) (reads : list read_result)
    (snk : sink_t) :
  let '(r, snk', rest) := dump_loop wr reads snk in
  exists consumed k,
    reads = consumed ++ rest /\
    written snk' = written snk ++ firstn k (data_of consumed) /\
    (r = Some 0 \/ r = None ->
     written snk' = written snk ++ data_of consumed).
Proof.
  destruct (dump_loop wr reads snk) as [[r snk'] rest] eqn:H.
  eapply dump_loop_prefix. exact H.
Qed.

(** ** do_send: the request, the schedule, a clean transfer *)

Lemma land_lor_absorb a b : Z.land (Z.lor a b) a = a.
Proof.
  apply Z.bits_inj'. intros n Hn. rewrite Z.land_spec, Z.lor_spec.
  destruct (Z.testbit a n), (Z.testbit b n); reflexivity.
Qed.

Section DoSendExtras.
Context {h : ioctl_h}.

Lemma send_args_fields s fd parent first last subvol flags :
  let c := send_args s fd parent first last subvol flags in
  io_subvol c = subvol /\
  io_clone_sources c = clone_sources s /\
  io_parent_root c = parent /\
  Z.land (io_flags c) flags = flags.
Proof.
  unfold send_args. simpl. repeat split.
  destruct first, last; simpl.
  - apply Z.land_diag.
  - apply land_lor_absorb.
  - apply land_lor_absorb.
  - rewrite <- Z.lor_assoc. apply land_lor_absorb.
Qed.

(** X5: [do_send] never changes the clone sources.  When [openat],
    [pipe] or [pthread_create] fails it returns the negative error,
    issues no request and leaves the sink untouched; otherwise it issues
    exactly one [BTRFS_IOC_SEND] request, on the given subvolume, with
    the current clone sources, the given parent and every flag the
    caller passed. *)
Theorem do_send_issues_one_request (e : send_env) (wr : write_oracle)
    (s : btrfs_send) (parent : Z) (is_first is_last : bool)
    (subvol : string) (flags : Z) (t : trace) :
  let '(o, s', t') := do_send e wr s parent is_first is_last subvol flags t in
  clone_sources s' = clone_sources s /\
  ((~ thread_started e /\
    log t' = log t /\ sink t' = sink t /\ exists r, o = Val r /\ r < 0) \/
   (thread_started e /\
    exists c, log t' = log t ++ [c] /\
              io_subvol c = subvol /\
              io_clone_sources c = clone_sources s /\
              io_parent_root c = parent /\
              Z.land (io_flags c) flags = flags)).
Proof.
  destruct (do_send e wr s parent is_first is_last subvol flags t)
    as [[o s'] t'] eqn:H.
  pose proof (do_send_cases _ _ _ _ _ _ _ _ _ H) as [Hcs Hlog].
  split; [exact Hcs|].
  unfold thread_started. unfold do_send in H.
  destruct (se_openat e) eqn:Ho.
  { injection H as <- <- <-. left. split; [intros (A & _); discriminate|].
    repeat split. eexists. split; [reflexivity | lia]. }
  destruct (se_pipe e) eqn:Hp.
  { injection H as <- <- <-. left. split; [intros (_ & A & _); discriminate|].
    repeat split. eexists. split; [reflexivity | lia]. }
  destruct (se_pthread_create e) eqn:Hc.
  { injection H as <- <- <-. left. split; [intros (_ & _ & A); discriminate|].
    repeat split. eexists. split; [reflexivity | lia]. }
  right. split; [auto|].
  exists (send_args s (snd (se_pipefd e)) parent is_first is_last subvol flags).
  split; [|apply send_args_fields].
  destruct (dump_thread wr (se_reads_during e) (sink t)) as [[code|t_err|] snk].
  - injection H as <- <- <-. reflexivity.
  - destruct (se_ioctl e); [simpl in H; injection H as <- <- <-; reflexivity|].
    destruct (se_pthread_join e); [injection H as <- <- <-; reflexivity|].
    destruct (negb (t_err =? 0)); injection H as <- <- <-; reflexivity.
  - destruct (se_ioctl e).
    { destruct (dump_thread wr (se_reads_after e) snk) as [[code|t_err|] snk2];
        injection H as <- <- <-; reflexivity. }
    destruct (dump_thread wr (se_reads_after e) snk) as [[code|t_err|] snk2].
    + injection H as <- <- <-. reflexivity.
    + destruct (se_pthread_join e); [injection H as <- <- <-; reflexivity|].
      destruct (negb (t_err =? 0)); injection H as <- <- <-; reflexivity.
    + injection H as <- <- <-. reflexivity.
Qed.

End DoSendExtras.

Section DoSendSchedule.
Context {h : ioctl_h}.

(** When the ioctl succeeds, [do_send] is a function of the whole
    sequence of the thread's reads. *)
Lemma do_send_joined e wr s parent first last subvol flags t :
  thread_started e ->
  se_ioctl e = None ->
  do_send e wr s parent first last subvol flags t =
  let s1 := set_send_fd s (fst (se_pipefd e)) in
  let lg := log t ++
            [send_args s1 (snd (se_pipefd e)) parent first last subvol flags] in
  let (th, snk) :=
    dump_thread wr (se_reads_during e ++ se_reads_after e) (sink t) in
  let t' := {| log := lg; sink := snk |} in
  match th with
  | ThreadExit code => (Exit code, s1, t')
  | ThreadWaiting => (Blocked, s1, t')
  | ThreadReturn t_err =>
      match se_pthread_join e with
      | Some err => (Val (- Z.pos err), s1, t')
      | None => if negb (t_err =? 0) then (Val t_err, s1, t')
                else (Val 0, s1, t')
      end
  end.
Proof.
  intros (Ho & Hp & Hc) Hi. unfold do_send. rewrite Ho, Hp, Hc, Hi.
  rewrite dump_thread_app. cbv zeta.
  destruct (dump_thread wr (se_reads_during e) (sink t)) as [[code|t_err|] snk];
    try reflexivity.
Qed.

(** X6: when the ioctl succeeds, the outcome of [do_send] does not
    depend on how the dump thread's reads fall before and after the
    ioctl's return. *)
Theorem do_send_schedule_independent (e e' : send_env) (wr : write_oracle)
    (s : btrfs_send) (parent : Z) (is_first is_last : bool)
    (subvol : string) (flags : Z) (t : trace) :
  same_but_schedule e e' ->
  se_ioctl e = None ->
  do_send e wr s parent is_first is_last subvol flags t =
  do_send e' wr s parent is_first is_last subvol flags t.
Proof.
  intros (Ho & Hp & Hfd & Hc & Hi & Hj & Hr) Hnone.
  destruct (se_openat e) eqn:Ho1.
  { unfold do_send. rewrite <- Ho, Ho1. reflexivity. }
  destruct (se_pipe e) eqn:Hp1.
  { unfold do_send. rewrite <- Ho, Ho1, <- Hp, Hp1. reflexivity. }
  destruct (se_pthread_create e) eqn:Hc1.
  { unfold do_send. rewrite <- Ho, Ho1, <- Hp, Hp1, <- Hc, Hc1, Hfd.
    reflexivity. }
  rewrite (do_send_joined wr s parent is_first is_last subvol flags t
             (conj Ho1 (conj Hp1 Hc1)) Hnone).
  rewrite (@do_send_joined e' wr s parent is_first is_last subvol flags t).
  - rewrite Hfd, Hr, Hj. reflexivity.
  - repeat split; congruence.
  - congruence.
Qed.

(** X7: when no call fails, the sink keeps accepting bytes and the pipe
    delivers non-empty chunks followed by end of file, [do_send] returns
    0 having issued its request and the sink has received exactly the
    chunks, in order. *)
Theorem do_send_clean_transfer (e : send_env) (wr : write_oracle)
    (s : btrfs_send) (parent : Z) (is_first is_last : bool)
    (subvol : string) (flags : Z) (t : trace)
    (chunks : list (list byte)) (rest : list read_result) :
  thread_started e ->
  se_ioctl e = None ->
  se_pthread_join e = None ->
  sink_progress wr ->
  Forall (fun c => c <> []) chunks ->
  se_reads_during e ++ se_reads_after e = map ReadOk chunks ++ ReadOk [] :: rest ->
  exists s' t',
    do_send e wr s parent is_first is_last subvol flags t = (Val 0, s', t') /\
    List.length (log t') = S (List.length (log t)) /\
    written (sink t') = written (sink t) ++ List.concat chunks.
Proof.
  intros Hst Hi Hj Hp Hne Hreads.
  rewrite (do_send_joined wr s parent is_first is_last subvol flags t Hst Hi).
  cbv zeta. rewrite Hreads.
  destruct (dump_loop_clean Hp rest (sink t) Hne) as (snk' & Hloop & Hw).
  unfold dump_thread. rewrite Hloop, Hj. simpl.
  eexists _, _. split; [reflexivity|]. simpl.
  split; [rewrite length_app; simpl; lia | exact Hw].
Qed.

End DoSendSchedule.

Lemma do_send_schedule_independent_witness :
  @do_send linux_ioctl_h quiet_env greedy_sink (mk_send [] []) 0 true true
    "/mnt/snap" 0 {| log := []; sink := empty_sink |} =
  @do_send linux_ioctl_h quiet_env_early greedy_sink (mk_send [] []) 0 true
    true "/mnt/snap" 0 {| log := []; sink := empty_sink |}.
Proof.
  apply (@do_send_schedule_independent linux_ioctl_h quiet_env quiet_env_early).
  - repeat split.
  - reflexivity.
Defined.

Lemma sink_progress_greedy : sink_progress greedy_sink.
Proof.
  intros k count Hc. exists (Z.to_N count). split; [reflexivity | lia].
Qed.

Lemma do_send_clean_transfer_witness :
  exists s' t',
    @do_send linux_ioctl_h quiet_env greedy_sink (mk_send [] []) 0 true true
      "/mnt/snap" 0 {| log := []; sink := empty_sink |} = (Val 0, s', t') /\
    List.length (log t') = 1%nat /\
    written (sink t') = [] ++ List.concat [abc].
Proof.
  apply (@do_send_clean_transfer linux_ioctl_h quiet_env greedy_sink
           (mk_send [] []) 0 true true "/mnt/snap"%string 0
           {| log := []; sink := empty_sink |} [abc] []).
  - repeat split.
  - reflexivity.
  - reflexivity.
  - exact sink_progress_greedy.
  - constructor; [discriminate | constructor].
  - reflexivity.
Defined.

(** ** init_root_path *)

(** X8: once [init_root_path] has returned a non-negative value, the
    mount root is set, and every further call, for whatever subvolume,
    returns 0 and changes nothing; no call ever touches the clone
    sources or [dump_fd]. *)
Theorem init_root_path_once (w : world) (s : btrfs_send) (subvol : string) :
  let (r, s') := init_root_path w s subvol in
  clone_sources s' = clone_sources s /\
  dump_fd s' = dump_fd s /\
  (0 <= r ->
   root_path s' <> None /\
   forall subvol', init_root_path w s' subvol' = (0, s')).
Proof.
  destruct (init_root_path w s subvol) as [r s'] eqn:H.
  destruct (init_root_path_spec _ _ _ H) as [Hcs Hfd].
  split; [exact Hcs|]. split; [exact Hfd|].
  unfold init_root_path in H.
  destruct (root_path s) as [rp|] eqn:Hrp.
  { injection H as <- <-. intros _. split; [congruence|].
    intros subvol'. unfold init_root_path. rewrite Hrp. reflexivity. }
  destruct (find_mount_root w subvol) as [r0 mr].
  destruct (r0 <? 0); [injection H as <- <-; unfold EINVAL; lia|].
  destruct (r0 >? 0); [injection H as <- <-; unfold EINVAL; lia|].
  destruct (open_rdonly w mr) as [fd|e]; [|injection H as <- <-; lia].
  destruct (subvol_uuid_search_init w fd) as [r1 reg].
  destruct (r1 <? 0) eqn:C; injection H as <- <-.
  - apply Z.ltb_lt in C. lia.
  - intros _. split; [discriminate|]. intros subvol'. reflexivity.
Qed.

(** X9: a call of [init_root_path] that fails at [open], or at the
    initialisation of the registry, has already stored the mount root:
    it returns the negative error, and a further call then returns 0
    although no registry was set up. *)
Theorem init_root_path_after_failure (w : world) (s : btrfs_send)
    (subvol mount_root : string) :
  root_path s = None ->
  find_mount_root w subvol = (0, mount_root) ->
  (forall fd, open_rdonly w mount_root = Sys_ok fd ->
              fst (subvol_uuid_search_init w fd) < 0) ->
  let (r, s') := init_root_path w s subvol in
  r < 0 /\
  root_path s' = Some mount_root /\
  sus s' = sus s /\
  forall subvol', init_root_path w s' subvol' = (0, s').
Proof.
  intros Hrp Hm Hfail. unfold init_root_path at 1. rewrite Hrp, Hm. simpl.
  destruct (open_rdonly w mount_root) as [fd|e] eqn:Ho.
  - specialize (Hfail fd eq_refl).
    destruct (subvol_uuid_search_init w fd) as [r1 reg]. simpl in Hfail.
    destruct (r1 <? 0) eqn:C; [|apply Z.ltb_ge in C; lia].
    split; [exact Hfail|]. split; [reflexivity|]. split; [reflexivity|].
    intros subvol'. reflexivity.
  - split; [lia|]. split; [reflexivity|]. split; [reflexivity|].
    intros subvol'. reflexivity.
Qed.

Lemma init_root_path_after_failure_witness :
  let (r, s') := init_root_path world_open_fails (send init_frame) "/mnt/s1" in
  r < 0 /\
  root_path s' = Some "/mnt"%string /\
  sus s' = sus (send init_frame) /\
  forall subvol', init_root_path world_open_fails s' subvol' = (0, s').
Proof.
  apply (@init_root_path_after_failure world_open_fails (send init_frame)
           "/mnt/s1" "/mnt").
  - reflexivity.
  - reflexivity.
  - intros fd H. discriminate.
Defined.

(** ** cmd_send: the trace of a run *)

Section RunExtras.
Context {h : ioctl_h}.

(** The trace after the tail of the loop body is the trace [do_send]
    left, unless the read-only check stopped the item before. *)
Lemma send_item_tail_trace w n i subvol f o f' :
  send_item_tail w n i subvol f = (o, f') ->
  (tr f' = tr f /\ o <> Val tt) \/
  exists od s1,
    do_send (send_envs w i) (dump_write w) (send f) (parent_root_id f)
      (if new_end_cmd_semantic f then Nat.eqb i 0 else true)
      (if new_end_cmd_semantic f then Nat.eqb i (n - 1) else true)
      subvol (send_flags f) (tr f) = (od, s1, tr f') /\
    (o = Val tt -> od = Val 0).
Proof.
  unfold send_item_tail. unfold bind at 1.
  destruct (require_ro w subvol f) as [o1 f1] eqn:Hro.
  apply require_ro_spec in Hro.
  destruct Hro as [-> [[-> _] | (r & -> & _ & _)]].
  2:{ intros H. injection H as <- <-. left. split; [reflexivity | discriminate]. }
  unfold bind at 1. unfold get at 1. unfold bind at 1. unfold call_do_send.
  destruct (do_send (send_envs w i) (dump_write w) (send f) (parent_root_id f)
              (if new_end_cmd_semantic f then (i =? 0)%nat else true)
              (if new_end_cmd_semantic f then (i =? n - 1)%nat else true)
              subvol (send_flags f) (tr f)) as [[od s1] t1] eqn:D.
  destruct od as [r|r|code|].
  - unfold bind at 1. unfold check_ret.
    destruct (r <? 0) eqn:C.
    { unfold goto_out. intros H. injection H as <- <-. right.
      exists (Val r), s1. split; [reflexivity | discriminate]. }
    apply Z.ltb_ge in C.
    destruct (do_send_ok _ _ _ _ _ _ _ _ _ D C) as (-> & _).
    unfold pure at 1. unfold bind at 1.
    destruct (negb (full_send f)).
    + destruct (do_add_clone_source w (var_root_id f) (set_tr t1 (set_send s1 f)))
        as [o3 f3] eqn:Hadd.
      apply do_add_clone_source_spec in Hadd.
      destruct Hadd as [[-> ->] | [-> ->]]; unfold modify; intros H;
        injection H as <- <-; right; exists (Val 0), s1;
        (split; [reflexivity | auto]).
    + unfold pure, modify. intros H. injection H as <- <-. right.
      exists (Val 0), s1. split; [reflexivity | auto].
  - intros H. injection H as <- <-. right.
    exists (Goto_out r), s1. split; [reflexivity | discriminate].
  - intros H. injection H as <- <-. right.
    exists (Exit code), s1. split; [reflexivity | discriminate].
  - intros H. injection H as <- <-. right.
    exists Blocked, s1. split; [reflexivity | discriminate].
Qed.

Lemma send_item_trace w n i a f o f' :
  send_item w n i a f = (o, f') ->
  (tr f' = tr f /\ o <> Val tt) \/
  exists subvol parent od s1,
    realpath w a = Sys_ok subvol /\
    parent_for f parent /\
    do_send (send_envs w i) (dump_write w) (send f) parent
      (if new_end_cmd_semantic f then Nat.eqb i 0 else true)
      (if new_end_cmd_semantic f then Nat.eqb i (n - 1) else true)
      subvol (send_flags f) (tr f) = (od, s1, tr f') /\
    (o = Val tt -> od = Val 0).
Proof.
  rewrite send_item_split. unfold bind at 1. unfold sys_call.
  destruct (realpath w a) as [subvol|e] eqn:Hrp.
  2:{ unfold goto_out. intros H. injection H as <- <-.
      left. split; [reflexivity | discriminate]. }
  unfold pure at 1. unfold bind at 1. unfold get at 1. unfold parent_for.
  destruct (negb (full_send f) && (parent_root_id f =? 0)) eqn:Hsearch.
  - destruct (find_good_parent (send f) (var_root_id f)) as [found|r] eqn:Hfind.
    + unfold bind at 1. unfold modify at 1. intros H.
      apply send_item_tail_trace in H. simpl in H.
      destruct H as [H|(od & s1 & Hd & Hv)]; [left; exact H|].
      right. exists subvol, found, od, s1. auto.
    + unfold bind at 1. unfold goto_out. intros H. injection H as <- <-.
      left. split; [reflexivity | discriminate].
  - unfold bind at 1. unfold pure at 1. intros H.
    apply send_item_tail_trace in H.
    destruct H as [H|(od & s1 & Hd & Hv)]; [left; exact H|].
    right. exists subvol, (parent_root_id f), od, s1. auto.
Qed.

(** A run that returns 0 went through the whole prelude and the whole
    loop. *)
Lemma cmd_send_success w opts subvols :
  fst (cmd_send w opts subvols) = Returned 0 ->
  exists f0,
    cmd_send_prelude w opts subvols init_frame = (Val tt, f0) /\
    send_loop w (List.length subvols) 0 subvols f0
      = (Val tt, snd (cmd_send w opts subvols)).
Proof.
  rewrite cmd_send_unfold, cmd_send_body_prelude. simpl. unfold bind.
  destruct (cmd_send_prelude w opts subvols init_frame) as [o f0] eqn:Hpre.
  pose proof (cmd_send_prelude_spec _ _ _ _ Hpre) as (_ & Ho & _).
  destruct o as [[]|r|code|]; simpl.
  - destruct (send_loop w (List.length subvols) 0 subvols f0) as [o1 f1] eqn:Hl.
    pose proof (send_loop_spec _ _ _ _ _ Hl) as (_ & _ & _ & _ & Ho1 & _).
    destruct o1 as [[]|r|code|]; simpl; intros H; try discriminate.
    + exists f0. auto.
    + destruct (r =? 0) eqn:E; [apply Z.eqb_eq in E; lia | discriminate].
  - simpl in Ho. destruct (r =? 0) eqn:E;
      [apply Z.eqb_eq in E; contradiction | discriminate].
  - discriminate.
  - discriminate.
Qed.

End RunExtras.

(** ** cmd_send: the output descriptor and the buffer of stdout *)

Section OutputFacts.
Context {h : ioctl_h}.

Lemma keeps_output_refl f : keeps_output f f.
Proof. repeat split. Qed.

Lemma keeps_output_trans f g k :
  keeps_output f g -> keeps_output g k -> keeps_output f k.
Proof.
  unfold keeps_output. intros (A1 & A2 & A3 & A4) (B1 & B2 & B3 & B4).
  repeat split; congruence.
Qed.

Lemma preserves_at_pure A (a : A) f : preserves_at (pure a) f.
Proof. intros o f' H. injection H as _ <-. apply keeps_output_refl. Qed.

Lemma preserves_at_goto_out A r f : preserves_at (goto_out (A := A) r) f.
Proof. intros o f' H. injection H as _ <-. apply keeps_output_refl. Qed.

Lemma preserves_at_modify g f :
  keeps_output f (g f) -> preserves_at (modify g) f.
Proof. intros Hg o f' H. injection H as _ <-. exact Hg. Qed.

Lemma preserves_at_bind A B (c : M A) (k : A -> M B) f :
  (forall f0, preserves_at c f0) ->
  (forall a f1, preserves_at (k a) f1) ->
  preserves_at (bind c k) f.
Proof.
  intros Hc Hk o f' H. unfold bind in H.
  destruct (c f) as [o1 f1] eqn:E. apply (Hc f) in E.
  destruct o1 as [a|r|code|];
    try (injection H as _ <-; exact E).
  eapply keeps_output_trans; [exact E | exact (Hk a f1 o f' H)].
Qed.

(** the continuation of [get] runs in the frame it was handed *)
Lemma preserves_at_bind_get B (k : frame -> M B) f :
  preserves_at (k f) f -> preserves_at (bind get k) f.
Proof. intros Hk o f' H. exact (Hk o f' H). Qed.

Lemma preserves_at_bind_modify B g (k : unit -> M B) f :
  keeps_output f (g f) -> preserves_at (k tt) (g f) ->
  preserves_at (bind (modify g) k) f.
Proof.
  intros Hg Hk o f' H. eapply keeps_output_trans; [exact Hg|].
  exact (Hk o f' H).
Qed.

Lemma preserves_at_sys_call A (r : sys A) f : preserves_at (sys_call r) f.
Proof.
  destruct r; [apply preserves_at_pure | apply preserves_at_goto_out].
Qed.

Lemma preserves_at_check_ret r f : preserves_at (check_ret r) f.
Proof.
  unfold check_ret. destruct (r <? 0);
    [apply preserves_at_goto_out | apply preserves_at_pure].
Qed.

Lemma preserves_at_require_ro w q f : preserves_at (require_ro w q) f.
Proof.
  intros o f' H. apply require_ro_spec in H. destruct H as [-> _].
  apply keeps_output_refl.
Qed.

Lemma preserves_at_do_init_root_path w subvol f :
  preserves_at (do_init_root_path w subvol) f.
Proof.
  intros o f' H. apply do_init_root_path_spec in H.
  destruct H as [(s' & -> & _ & Hd) _]. repeat split. exact Hd.
Qed.

Lemma preserves_at_do_add_clone_source w id f :
  preserves_at (do_add_clone_source w id) f.
Proof.
  intros o f' H. apply do_add_clone_source_spec in H.
  destruct H as [[_ ->]|[_ ->]]; repeat split.
Qed.

Lemma do_send_dump_fd e wr s parent first last subvol flags t o s' t' :
  do_send e wr s parent first last subvol flags t = (o, s', t') ->
  dump_fd s' = dump_fd s.
Proof.
  unfold do_send. intros H.
  destruct (se_openat e); [injection H as _ <- _; reflexivity|].
  destruct (se_pipe e); [injection H as _ <- _; reflexivity|].
  destruct (se_pthread_create e); [injection H as _ <- _; reflexivity|].
  destruct (dump_thread wr (se_reads_during e) (sink t)) as [[code|t_err|] snk].
  - injection H as _ <- _. reflexivity.
  - destruct (se_ioctl e); [simpl in H; injection H as _ <- _; reflexivity|].
    destruct (se_pthread_join e); [injection H as _ <- _; reflexivity|].
    destruct (negb (t_err =? 0)); injection H as _ <- _; reflexivity.
  - destruct (se_ioctl e).
    { destruct (dump_thread wr (se_reads_after e) snk) as [[code|t_err|] snk2];
        injection H as _ <- _; reflexivity. }
    destruct (dump_thread wr (se_reads_after e) snk) as [[code|t_err|] snk2].
    + injection H as _ <- _. reflexivity.
    + destruct (se_pthread_join e); [injection H as _ <- _; reflexivity|].
      destruct (negb (t_err =? 0)); injection H as _ <- _; reflexivity.
    + injection H as _ <- _. reflexivity.
Qed.

Lemma preserves_at_call_do_send w i first last subvol f :
  preserves_at (call_do_send w i first last subvol) f.
Proof.
  intros o f' H. unfold call_do_send in H.
  destruct (do_send (send_envs w i) (dump_write w) (send f) (parent_root_id f)
              first last subvol (send_flags f) (tr f)) as [[od s1] t1] eqn:D.
  apply do_send_dump_fd in D. injection H as _ <-. repeat split. exact D.
Qed.

Create HintDb output.

#[local] Hint Resolve preserves_at_pure preserves_at_goto_out
  preserves_at_sys_call preserves_at_check_ret preserves_at_require_ro
  preserves_at_do_init_root_path preserves_at_do_add_clone_source
  preserves_at_call_do_send : output.

Ltac keeps_now :=
  unfold keeps_output; simpl;
  repeat match goal with
         | |- context [if ?b then _ else _] => destruct b
         end;
  repeat split.

(** walks a statement of [cmd_send] built from the steps above *)
Ltac preserves_steps :=
  cbv beta zeta;
  first
    [ solve [auto with output]
    | match goal with
      | |- preserves_at (bind get _) _ =>
          apply preserves_at_bind_get; preserves_steps
      | |- preserves_at (bind (modify _) _) _ =>
          apply preserves_at_bind_modify; [solve [keeps_now] | preserves_steps]
      | |- preserves_at (modify _) _ =>
          apply preserves_at_modify; solve [keeps_now]
      | |- preserves_at (bind _ _) _ =>
          apply preserves_at_bind;
            [intros ?; preserves_steps | intros ? ?; preserves_steps]
      | |- preserves_at (if ?b then _ else _) _ => destruct b; preserves_steps
      | |- preserves_at (match ?x with _ => _ end) _ =>
          destruct x; preserves_steps
      end ].

(** The loop body changes neither the buffer of [stdout] nor the
    output descriptor, however it ends. *)
Lemma preserves_at_send_item w n i a f : preserves_at (send_item w n i a) f.
Proof. unfold send_item. preserves_steps. Qed.

Lemma preserves_at_send_loop w n :
  forall args i f, preserves_at (send_loop w n i args) f.
Proof.
  induction args as [|a args IH]; intros i f; simpl.
  - apply preserves_at_pure.
  - apply preserves_at_bind;
      [intros f0; apply preserves_at_send_item | intros _ f1; apply IH].
Qed.

(** What one option leaves of the output name, the flags, the output
    descriptor and the buffer of [stdout]. *)
Lemma handle_opt_output w c f f' :
  handle_opt w c f = (Val tt, f') ->
  stdout_buf f' = stdout_buf f /\
  dump_fd (send f') = dump_fd (send f) /\
  outname f' = last_outname [c] (outname f) /\
  send_flags f' =
    (if is_opt_no_data c
     then Z.lor (send_flags f) BTRFS_SEND_FLAG_NO_FILE_DATA
     else send_flags f).
Proof.
  assert (Hkeep : preserves_at (handle_opt w c) f ->
                  is_opt_no_data c = false ->
                  last_outname [c] (outname f) = outname f ->
                  handle_opt w c f = (Val tt, f') ->
                  stdout_buf f' = stdout_buf f /\
                  dump_fd (send f') = dump_fd (send f) /\
                  outname f' = last_outname [c] (outname f) /\
                  send_flags f' =
                    (if is_opt_no_data c
                     then Z.lor (send_flags f) BTRFS_SEND_FLAG_NO_FILE_DATA
                     else send_flags f)).
  { intros Hp -> -> H. exact (Hp _ _ H). }
  destruct c as [| |optarg|optarg|optarg| | |].
  - apply Hkeep; [apply preserves_at_pure | reflexivity | reflexivity].
  - apply Hkeep; [|reflexivity | reflexivity].
    apply preserves_at_modify. repeat split.
  - apply Hkeep; [|reflexivity | reflexivity].
    unfold handle_opt. preserves_steps.
  - unfold handle_opt. destruct (negb (arg_copy_path w optarg =? 0)).
    + intros H. discriminate H.
    + intros H. injection H as <-. repeat split.
  - apply Hkeep; [|reflexivity | reflexivity].
    unfold handle_opt. preserves_steps.
  - intros H. discriminate H.
  - unfold handle_opt, bind, get, modify. intros H. injection H as <-.
    repeat split.
  - intros H. discriminate H.
Qed.

Lemma getopt_loop_output w :
  forall opts f f',
    getopt_loop w opts f = (Val tt, f') ->
    stdout_buf f' = stdout_buf f /\
    dump_fd (send f') = dump_fd (send f) /\
    outname f' = last_outname opts (outname f) /\
    send_flags f' =
      (if has_opt_no_data opts
       then Z.lor (send_flags f) BTRFS_SEND_FLAG_NO_FILE_DATA
       else send_flags f).
Proof.
  induction opts as [|c opts IH]; intros f f' H; simpl in H.
  - injection H as <-. repeat split.
  - unfold bind in H. destruct (handle_opt w c f) as [[[]| | |] f1] eqn:Hc;
      try discriminate.
    apply handle_opt_output in Hc. destruct Hc as (A1 & A2 & A3 & A4).
    apply IH in H. destruct H as (B1 & B2 & B3 & B4).
    split; [congruence|]. split; [congruence|]. split.
    + rewrite B3, A3. destruct c; reflexivity.
    + rewrite B4, A4. unfold has_opt_no_data. simpl.
      destruct (is_opt_no_data c); simpl; [|reflexivity].
      destruct (existsb is_opt_no_data opts); [|reflexivity].
      rewrite <- Z.lor_assoc, Z.lor_diag. reflexivity.
Qed.

(** [cmd_send_setup] runs to its end only if the descriptor tested is
    not a terminal: that of [creat] when [outname] is set, else the one
    [send.dump_fd] holds. *)
Lemma cmd_send_setup_output w subvols f f' :
  cmd_send_setup w subvols f = (Val tt, f') ->
  stdout_buf f' = stdout_buf f /\
  send_flags f' = send_flags f /\
  isatty w (dump_fd (send f')) = false /\
  (if String.eqb (outname f) EmptyString
   then dump_fd (send f') = dump_fd (send f)
   else creat w (outname f) = Sys_ok (dump_fd (send f'))).
Proof.
  unfold cmd_send_setup. destruct subvols as [|first rest];
    [intros H; discriminate H|].
  unfold bind at 1. unfold get at 1. unfold bind at 1.
  assert (Hcreat : exists o0 f0,
            (if negb (outname f =? "")%string
             then bind (sys_call (creat w (outname f)))
                    (fun fd => modify (set_send (set_dump_fd (send f) fd)))
             else pure tt) f = (o0, f0) /\
            (o0 = Val tt ->
             stdout_buf f0 = stdout_buf f /\
             send_flags f0 = send_flags f /\
             (if String.eqb (outname f) EmptyString
              then dump_fd (send f0) = dump_fd (send f)
              else creat w (outname f) = Sys_ok (dump_fd (send f0))))).
  { destruct (outname f =? "")%string; simpl negb; cbv iota.
    - eexists _, _. split; [reflexivity|]. intros _. repeat split.
    - unfold bind, sys_call. destruct (creat w (outname f)) as [fd|e].
      + eexists _, _. split; [reflexivity|]. intros _. repeat split.
      + eexists _, _. split; [reflexivity|]. intros H. discriminate H. }
  destruct Hcreat as (o0 & f0 & -> & Hf0).
  destruct o0 as [[]|r|code|]; try (intros H; discriminate H).
  destruct (Hf0 eq_refl) as (G1 & G2 & G3).
  unfold bind at 1. unfold get at 1.
  destruct (isatty w (dump_fd (send f0))) eqn:Htty;
    [intros H; discriminate H|].
  assert (Htail : forall g,
            preserves_at
              (bind (sys_call (realpath w first)) (fun subvol =>
               bind (do_init_root_path w subvol) (fun _ =>
               bind get (fun f =>
               match snapshot_parent f with
               | None => pure tt
               | Some sp =>
                   match get_root_id (send f)
                           (subvol_strip_mountpoint w
                              (root_path_str (send f)) sp) with
                   | Error r => goto_out r
                   | Ok id =>
                       bind (modify (set_parent_root_id id))
                         (fun _ => do_add_clone_source w id)
                   end
               end)))) g)
    by (intros g; preserves_steps).
  intros H. destruct (Htail f0 _ _ H) as (K1 & K2 & _ & K4).
  split; [congruence|]. split; [congruence|]. rewrite K2.
  split; [exact Htty | exact G3].
Qed.

End OutputFacts.

(** ** cmd_send: command lines that are refused *)

Section Refusals.
Context {h : ioctl_h}.

(** A run whose prelude does not run to its end fails without sending
    anything. *)
Lemma cmd_send_prelude_stops w opts subvols :
  (forall f0, cmd_send_prelude w opts subvols init_frame <> (Val tt, f0)) ->
  failed (fst (cmd_send w opts subvols)) /\
  log (tr (snd (cmd_send w opts subvols))) = [] /\
  written (sink (tr (snd (cmd_send w opts subvols)))) = [].
Proof.
  intros Hno. rewrite cmd_send_unfold, cmd_send_body_prelude. simpl.
  unfold bind.
  destruct (cmd_send_prelude w opts subvols init_frame) as [o f0] eqn:Hpre.
  apply cmd_send_prelude_spec in Hpre. destruct Hpre as (Ht & Ho & _).
  destruct o as [[]|r|code|].
  - destruct (Hno f0 eq_refl).
  - simpl. rewrite Ht. split; [|split; reflexivity].
    simpl in Ho. destruct (r =? 0) eqn:E;
      [apply Z.eqb_eq in E; contradiction | reflexivity].
  - simpl. rewrite Ht. split; [exact Ho | split; reflexivity].
  - destruct Ho.
Qed.

Lemma cmd_send_prelude_getopt w opts subvols f f0 :
  cmd_send_prelude w opts subvols f = (Val tt, f0) ->
  exists f1, getopt_loop w opts f = (Val tt, f1) /\
             exists f2, cmd_send_setup w subvols f1 = (Val tt, f2) /\
                        check_loop w subvols f2 = (Val tt, f2) /\
                        print_mode f2 = (Val tt, f0).
Proof.
  unfold cmd_send_prelude, bind.
  destruct (getopt_loop w opts f) as [[[]| | |] f1]; try discriminate.
  destruct (cmd_send_setup w subvols f1) as [[[]| | |] f2] eqn:Hs;
    try discriminate.
  destruct (check_loop w subvols f2) as [o3 f3] eqn:Hc.
  pose proof (check_loop_spec _ _ _ Hc) as (-> & _).
  destruct o3 as [[]| | |]; try discriminate.
  intros H. exists f1. split; [reflexivity|]. exists f2.
  split; [exact Hs | split; [exact Hc | exact H]].
Qed.

(** An option loop that runs to its end has met at most one [-p], and
    none if a parent was already recorded. *)
Lemma getopt_loop_one_parent w :
  forall opts f f',
    getopt_loop w opts f = (Val tt, f') ->
    (count_opt_p opts <= 1)%nat /\
    (snapshot_parent f <> None -> count_opt_p opts = 0%nat).
Proof.
  induction opts as [|c opts IH]; intros f f' H; simpl in H.
  - split; [unfold count_opt_p; simpl; lia | reflexivity].
  - unfold bind in H. destruct (handle_opt w c f) as [o1 f1] eqn:Hc.
    pose proof (handle_opt_spec _ _ _ Hc) as (_ & _ & Hval).
    destruct o1 as [[]|r|code|]; try discriminate.
    destruct (Hval eq_refl) as (_ & _ & Hsp & Hp & _).
    destruct (IH _ _ H) as [Hle Hzero].
    destruct c; unfold count_opt_p in *; simpl;
      try (split; [exact Hle | intros Hs; apply Hzero;
                   destruct (snapshot_parent f) as [q|] eqn:E;
                   [rewrite (Hsp q eq_refl); discriminate | congruence]]).
    (* -p *)
    destruct (Hp optarg eq_refl) as (q & _ & Hq).
    assert (Hz : List.length (filter is_opt_p opts) = 0%nat)
      by (apply Hzero; rewrite Hq; discriminate).
    rewrite Hz. split; [lia|].
    intros Hs. exfalso. simpl in Hc. unfold bind, get in Hc.
    destruct (snapshot_parent f); [discriminate | congruence].
Qed.

(** X10: a command line with more than one [-p] is refused: [cmd_send]
    ends with an error and nothing is sent. *)
Theorem cmd_send_refuses_second_parent (w : world) (opts : list opt)
    (subvols : list string) :
  (2 <= count_opt_p opts)%nat ->
  failed (fst (cmd_send w opts subvols)) /\
  log (tr (snd (cmd_send w opts subvols))) = [] /\
  written (sink (tr (snd (cmd_send w opts subvols)))) = [].
Proof.
  intros H2. apply cmd_send_prelude_stops. intros f0 Hpre.
  apply cmd_send_prelude_getopt in Hpre. destruct Hpre as (f1 & Hg & _).
  apply getopt_loop_one_parent in Hg. lia.
Qed.

Lemma getopt_loop_known_options w :
  forall opts f f',
    getopt_loop w opts f = (Val tt, f') ->
    ~ In Opt_i opts /\ ~ In Opt_invalid opts.
Proof.
  induction opts as [|c opts IH]; intros f f' H; simpl in H.
  - split; intros [].
  - unfold bind in H. destruct (handle_opt w c f) as [o1 f1] eqn:Hc.
    destruct o1 as [[]|r|code|]; try discriminate.
    destruct (IH _ _ H) as [Hi Hv].
    destruct c; try (unfold handle_opt, goto_out in Hc; discriminate);
      (split; (intros [E|E]; [discriminate | contradiction])).
Qed.

(** X11: a command line with the removed option [-i], or with an option
    [getopt_long] does not know, is refused whatever else it holds:
    [cmd_send] ends with an error and nothing is sent. *)
Theorem cmd_send_refuses_unknown_option (w : world) (opts : list opt)
    (subvols : list string) :
  In Opt_i opts \/ In Opt_invalid opts ->
  failed (fst (cmd_send w opts subvols)) /\
  log (tr (snd (cmd_send w opts subvols))) = [] /\
  written (sink (tr (snd (cmd_send w opts subvols)))) = [].
Proof.
  intros Hin. apply cmd_send_prelude_stops. intros f0 Hpre.
  apply cmd_send_prelude_getopt in Hpre. destruct Hpre as (f1 & Hg & _).
  apply getopt_loop_known_options in Hg. tauto.
Qed.

Lemma cmd_send_setup_needs_output w subvols f f' :
  cmd_send_setup w subvols f = (Val tt, f') ->
  subvols <> [] /\ exists fd, isatty w fd = false.
Proof.
  unfold cmd_send_setup. destruct subvols as [|first rest]; [discriminate|].
  intros H. split; [discriminate|].
  unfold bind at 1 in H. unfold get at 1 in H. unfold bind at 1 in H.
  destruct ((if negb (outname f =? "")%string
             then bind (sys_call (creat w (outname f)))
                    (fun fd => modify (set_send (set_dump_fd (send f) fd)))
             else pure tt) f) as [[[]| | |] f1]; try discriminate.
  unfold bind at 1 in H. unfold get at 1 in H.
  destruct (isatty w (dump_fd (send f1))) eqn:E; [discriminate|].
  eauto.
Qed.

(** X12: without a subvolume to send, [cmd_send] ends with an error
    (the usage message, when the options were fine) and nothing is
    sent. *)
Theorem cmd_send_needs_a_subvolume (w : world) (opts : list opt) :
  failed (fst (cmd_send w opts [])) /\
  log (tr (snd (cmd_send w opts []))) = [] /\
  written (sink (tr (snd (cmd_send w opts [])))) = [].
Proof.
  apply cmd_send_prelude_stops. intros f0 Hpre.
  apply cmd_send_prelude_getopt in Hpre.
  destruct Hpre as (f1 & _ & f2 & Hs & _).
  apply cmd_send_setup_needs_output in Hs. destruct Hs as [Hs _].
  apply Hs. reflexivity.
Qed.

(** X13: when the descriptor the stream is to be written to is a
    terminal (the descriptor of [stdout], or with [-f] the one [creat]
    returns for the file), [cmd_send] refuses to dump the stream: it ends
    with an error and nothing is sent.  What other descriptors are does
    not matter. *)
Theorem cmd_send_refuses_terminal (w : world) (opts : list opt)
    (subvols : list string) (fd : Z) :
  output_fd w opts = Sys_ok fd ->
  isatty w fd = true ->
  failed (fst (cmd_send w opts subvols)) /\
  log (tr (snd (cmd_send w opts subvols))) = [] /\
  written (sink (tr (snd (cmd_send w opts subvols)))) = [].
Proof.
  intros Hfd Htty. apply cmd_send_prelude_stops. intros f0 Hpre.
  apply cmd_send_prelude_getopt in Hpre.
  destruct Hpre as (f1 & Hg & f2 & Hs & _).
  apply getopt_loop_output in Hg. destruct Hg as (_ & G2 & G3 & _).
  apply cmd_send_setup_output in Hs. destruct Hs as (_ & _ & Hno & Hd).
  unfold output_fd in Hfd. rewrite G3 in Hd.
  change (outname init_frame) with EmptyString in Hd.
  destruct (last_outname opts "" =? "")%string.
  - injection Hfd as <-. rewrite Hd, G2 in Hno. change (dump_fd (send init_frame)) with 1 in Hno. congruence.
  - rewrite Hfd in Hd. injection Hd as ->. congruence.
Qed.

Lemma check_item_mount w a f f' :
  check_item w a f = (Val tt, f') ->
  exists subvol r,
    realpath w a = Sys_ok subvol /\
    find_mount_root w subvol = (r, root_path_str (send f)).
Proof.
  unfold check_item. unfold bind at 1. unfold sys_call.
  destruct (realpath w a) as [subvol|e]; [|discriminate].
  unfold pure at 1.
  destruct (find_mount_root w subvol) as [r mount_root] eqn:Hm.
  unfold bind at 1. unfold check_ret.
  destruct (r <? 0); [discriminate|]. unfold pure at 1.
  destruct (r >? 0); [discriminate|].
  unfold bind at 1. unfold get at 1.
  destruct (String.eqb (root_path_str (send f)) mount_root) eqn:E;
    simpl; [|discriminate].
  apply String.eqb_eq in E. subst mount_root.
  intros _. exists subvol, r. auto.
Qed.

Lemma check_loop_mount w :
  forall args f f',
    check_loop w args f = (Val tt, f') ->
    forall a, In a args ->
      exists subvol r,
        realpath w a = Sys_ok subvol /\
        find_mount_root w subvol = (r, root_path_str (send f)).
Proof.
  induction args as [|a0 args IH]; intros f f' H a Hin; simpl in H.
  - destruct Hin.
  - unfold bind in H. destruct (check_item w a0 f) as [o1 f1] eqn:Hc.
    pose proof (check_item_spec _ _ _ Hc) as (-> & _).
    destruct o1 as [[]|r|code|]; try discriminate.
    destruct Hin as [<-|Hin]; [eapply check_item_mount; eassumption|].
    eapply IH; eassumption.
Qed.

(** X14: all subvolumes must be on the same filesystem: when two of
    them lie under different mount roots, [cmd_send] ends with an error
    and nothing is sent. *)
Theorem cmd_send_refuses_two_filesystems (w : world) (opts : list opt)
    (subvols : list string) (a1 a2 subvol1 subvol2 : string) :
  In a1 subvols -> In a2 subvols ->
  realpath w a1 = Sys_ok subvol1 ->
  realpath w a2 = Sys_ok subvol2 ->
  snd (find_mount_root w subvol1) <> snd (find_mount_root w subvol2) ->
  failed (fst (cmd_send w opts subvols)) /\
  log (tr (snd (cmd_send w opts subvols))) = [] /\
  written (sink (tr (snd (cmd_send w opts subvols)))) = [].
Proof.
  intros Hin1 Hin2 Hr1 Hr2 Hdiff. apply cmd_send_prelude_stops.
  intros f0 Hpre. apply cmd_send_prelude_getopt in Hpre.
  destruct Hpre as (f1 & _ & f2 & _ & Hc & _).
  destruct (@check_loop_mount w subvols f2 f2 Hc a1 Hin1)
    as (q1 & r1 & Hq1 & Hm1).
  destruct (@check_loop_mount w subvols f2 f2 Hc a2 Hin2)
    as (q2 & r2 & Hq2 & Hm2).
  rewrite Hr1 in Hq1. injection Hq1 as <-.
  rewrite Hr2 in Hq2. injection Hq2 as <-.
  apply Hdiff. rewrite Hm1, Hm2. reflexivity.
Qed.

End Refusals.

Lemma cmd_send_refuses_second_parent_witness :
  failed (fst (@cmd_send linux_ioctl_h sample_world
                 [Opt_p "/mnt/base"; Opt_e; Opt_p "/mnt/c"]
                 ["/mnt/s1"%string])) /\
  log (tr (snd (@cmd_send linux_ioctl_h sample_world
                  [Opt_p "/mnt/base"; Opt_e; Opt_p "/mnt/c"]
                  ["/mnt/s1"%string]))) = [] /\
  written (sink (tr (snd (@cmd_send linux_ioctl_h sample_world
                            [Opt_p "/mnt/base"; Opt_e; Opt_p "/mnt/c"]
                            ["/mnt/s1"%string])))) = [].
Proof.
  apply (@cmd_send_refuses_second_parent linux_ioctl_h sample_world
           [Opt_p "/mnt/base"; Opt_e; Opt_p "/mnt/c"] ["/mnt/s1"%string]).
  vm_compute. lia.
Defined.

Lemma cmd_send_refuses_unknown_option_witness :
  failed (fst (@cmd_send linux_ioctl_h sample_world [Opt_e; Opt_i]
                 ["/mnt/s1"%string])) /\
  log (tr (snd (@cmd_send linux_ioctl_h sample_world [Opt_e; Opt_i]
                  ["/mnt/s1"%string]))) = [] /\
  written (sink (tr (snd (@cmd_send linux_ioctl_h sample_world [Opt_e; Opt_i]
                            ["/mnt/s1"%string])))) = [].
Proof.
  apply (@cmd_send_refuses_unknown_option linux_ioctl_h sample_world
           [Opt_e; Opt_i] ["/mnt/s1"%string]).
  left. right. left. reflexivity.
Defined.

Lemma cmd_send_refuses_terminal_witness :
  failed (fst (@cmd_send linux_ioctl_h world_tty [] ["/mnt/s1"%string])) /\
  log (tr (snd (@cmd_send linux_ioctl_h world_tty [] ["/mnt/s1"%string]))) = [] /\
  written (sink (tr (snd (@cmd_send linux_ioctl_h world_tty []
                            ["/mnt/s1"%string])))) = [].
Proof.
  apply (@cmd_send_refuses_terminal linux_ioctl_h world_tty []
           ["/mnt/s1"%string] 1).
  - reflexivity.
  - reflexivity.
Defined.

(** With [-f] the descriptor tested is the one of the file: on the
    machine whose standard output is a terminal the stream is sent. *)
Example cmd_send_to_file_beside_terminal :
  fst (@cmd_send linux_ioctl_h world_tty [Opt_f "out"] ["/mnt/s1"%string])
  = Returned 0.
Proof. vm_compute. reflexivity. Qed.

Lemma cmd_send_refuses_two_filesystems_witness :
  failed (fst (@cmd_send linux_ioctl_h world_two_mounts []
                 ["/mnt/s1"; "/data/s9"]%string)) /\
  log (tr (snd (@cmd_send linux_ioctl_h world_two_mounts []
                  ["/mnt/s1"; "/data/s9"]%string))) = [] /\
  written (sink (tr (snd (@cmd_send linux_ioctl_h world_two_mounts []
                            ["/mnt/s1"; "/data/s9"]%string)))) = [].
Proof.
  apply (@cmd_send_refuses_two_filesystems linux_ioctl_h world_two_mounts []
           ["/mnt/s1"; "/data/s9"]%string "/mnt/s1" "/data/s9"
           "/mnt/s1" "/data/s9").
  - left. reflexivity.
  - right. left. reflexivity.
  - reflexivity.
  - reflexivity.
  - vm_compute. discriminate.
Defined.

(** ** cmd_send: what a run sends *)

Lemma Forall2_of_nth (A B : Type) (R : A -> B -> Prop) :
  forall (l1 : list A) (l2 : list B),
    List.length l2 = List.length l1 ->
    (forall k c, nth_error l2 k = Some c ->
                 exists a, nth_error l1 k = Some a /\ R a c) ->
    Forall2 R l1 l2.
Proof.
  induction l1 as [|a l1 IH]; intros l2 Hlen Hnth.
  - destruct l2; [constructor | discriminate].
  - destruct l2 as [|c l2]; [discriminate|].
    constructor.
    + destruct (Hnth 0%nat c eq_refl) as (a' & Ha & HR).
      injection Ha as <-. exact HR.
    + apply IH; [simpl in Hlen; lia|].
      intros k c' Hk. apply (Hnth (S k) c' Hk).
Qed.

Lemma dump_loop_until_eof wr :
  forall reads snk snk' rest,
    dump_loop wr reads snk = (Some 0, snk', rest) ->
    written snk' = written snk ++ until_eof reads.
Proof.
  induction reads as [|rd reads IH]; intros snk snk' rest H; simpl in H.
  - discriminate.
  - destruct rd as [data|e].
    2:{ injection H as H _ _. lia. }
    destruct (Z.of_nat (List.length data) =? 0) eqn:E.
    + apply Z.eqb_eq in E. injection H as <- _.
      destruct data; [simpl; rewrite app_nil_r; reflexivity | simpl in E; lia].
    + apply Z.eqb_neq in E.
      destruct (write_buf wr snk data (Z.of_nat (List.length data)))
        as [wret snk1] eqn:W.
      apply write_buf_prefix in W. destruct W as (k & _ & Hw & Hres).
      destruct (wret <? 0) eqn:C.
      * apply Z.ltb_lt in C. injection H as H _ _. lia.
      * apply Z.ltb_ge in C. destruct Hres as [[_ ->]|[Hneg _]]; [|lia].
        rewrite firstn_all in Hw. apply IH in H. rewrite H, Hw.
        rewrite <- app_assoc. f_equal.
        destruct data; [simpl in E; lia | reflexivity].
Qed.

Section RunContents.
Context {h : ioctl_h}.

Lemma do_send_written e wr s parent first last subvol flags t s1 t1 :
  do_send e wr s parent first last subvol flags t = (Val 0, s1, t1) ->
  written (sink t1) =
    written (sink t) ++ until_eof (se_reads_during e ++ se_reads_after e).
Proof.
  intros H.
  destruct (do_send_ok _ _ _ _ _ _ _ _ _ H (Z.le_refl 0))
    as (_ & Ho & Hp & Hc & Hi & Hj).
  rewrite (do_send_joined wr s parent first last subvol flags t
             (conj Ho (conj Hp Hc)) Hi) in H.
  cbv zeta in H. unfold dump_thread in H.
  destruct (dump_loop wr (se_reads_during e ++ se_reads_after e) (sink t))
    as [[[ret|] snk] rest] eqn:D.
  - destruct (ret <? 0) eqn:C; [discriminate|].
    apply Z.ltb_ge in C. rewrite Hj in H.
    pose proof (dump_loop_result _ _ _ D) as (_ & _ & _ & _ & Hsign & _).
    assert (ret = 0) by lia. subst ret. simpl in H.
    injection H as _ <-. simpl. eapply dump_loop_until_eof. exact D.
  - discriminate.
Qed.

Lemma send_item_written w n i a f f' :
  send_item w n i a f = (Val tt, f') ->
  written (sink (tr f')) =
    written (sink (tr f)) ++ until_eof (item_reads w i).
Proof.
  intros H. apply send_item_trace in H.
  destruct H as [[_ Hne]|(subvol & parent & od & s1 & _ & _ & Hd & Hv)];
    [congruence|].
  rewrite (Hv eq_refl) in Hd. apply do_send_written in Hd. exact Hd.
Qed.

Lemma send_loop_written w n :
  forall args i f f',
    send_loop w n i args f = (Val tt, f') ->
    written (sink (tr f')) =
      written (sink (tr f)) ++
      flat_map (fun k => until_eof (item_reads w k))
        (seq i (List.length args)).
Proof.
  induction args as [|a args IH]; intros i f f' H; simpl in H.
  - unfold pure in H. injection H as <-. simpl. rewrite app_nil_r. reflexivity.
  - unfold bind in H. destruct (send_item w n i a f) as [o1 f1] eqn:Hitem.
    destruct o1 as [[]|r|code|]; try discriminate.
    apply send_item_written in Hitem. apply IH in H.
    rewrite H, Hitem. simpl. rewrite <- app_assoc. reflexivity.
Qed.

(** X15: a run of [cmd_send] that returns 0 has issued exactly one
    request per subvolume of the command line, in the order of the
    command line. *)
Theorem cmd_send_success_sends_all (w : world) (opts : list opt)
    (subvols : list string) :
  fst (cmd_send w opts subvols) = Returned 0 ->
  Forall2 (fun a c => realpath w a = Sys_ok (io_subvol c))
    subvols (log (tr (snd (cmd_send w opts subvols)))).
Proof.
  intros H. apply cmd_send_success in H. destruct H as (f0 & Hpre & Hloop).
  apply cmd_send_prelude_spec in Hpre. destruct Hpre as (Ht & _ & _).
  apply send_loop_spec in Hloop.
  destruct Hloop as (_ & _ & _ & _ & _ & entries & Hl & _ & Hval & Hentries).
  destruct (Hval eq_refl) as [Hlen _].
  rewrite Hl, Ht. simpl. apply Forall2_of_nth; [exact Hlen|].
  intros k c Hk. apply Hentries in Hk.
  destruct Hk as (a & subvol & Ha & Hrp & s1 & fd & parent & -> & _).
  exists a. split; [exact Ha | exact Hrp].
Qed.

(** What the statements before the second loop leave in the buffer of
    [stdout]: the line of [--no-data], or nothing. *)
Lemma cmd_send_prelude_stdout w opts subvols f0 :
  cmd_send_prelude w opts subvols init_frame = (Val tt, f0) ->
  stdout_buf f0 =
    (if has_opt_no_data opts && negb (BTRFS_SEND_FLAG_NO_FILE_DATA =? 0)
     then mode_no_file_data else []).
Proof.
  intros Hpre. apply cmd_send_prelude_getopt in Hpre.
  destruct Hpre as (f1 & Hg & f2 & Hs & _ & Hm).
  apply getopt_loop_output in Hg. destruct Hg as (G1 & _ & _ & G4).
  apply cmd_send_setup_output in Hs. destruct Hs as (S1 & S2 & _).
  rewrite print_mode_spec in Hm. injection Hm as <-.
  rewrite S2, G4. change (send_flags init_frame) with 0.
  assert (Hbuf : stdout_buf f2 = []) by (rewrite S1, G1; reflexivity).
  destruct (has_opt_no_data opts); simpl andb.
  - rewrite Z.lor_0_l, Z.land_diag.
    destruct (negb (BTRFS_SEND_FLAG_NO_FILE_DATA =? 0)); simpl.
    + rewrite Hbuf. reflexivity.
    + exact Hbuf.
  - rewrite Z.land_0_l. simpl. exact Hbuf.
Qed.

(** X16: when a run of [cmd_send] returns 0, what the dump threads have
    written to the output descriptor is the streams of the subvolumes
    one after the other, in the order of the command line: for each, the
    bytes its thread read up to the end of file.  Besides, [cmd_send]
    has printed one thing to [stdout]: the line "Mode NO_FILE_DATA
    enabled" when [--no-data] was given.  Where [stdout] is the output
    descriptor the line waits in the buffer of [stdout] until the
    process exits: an output that keeps accepting bytes then holds the
    streams followed by that line, and nothing else; with the output in
    a file of its own it holds the streams alone. *)
Theorem cmd_send_success_sink (w : world) (opts : list opt)
    (subvols : list string) :
  fst (cmd_send w opts subvols) = Returned 0 ->
  written (sink (tr (snd (cmd_send w opts subvols)))) =
    flat_map (fun k => until_eof (item_reads w k))
      (seq 0 (List.length subvols)) /\
  stdout_buf (snd (cmd_send w opts subvols)) =
    (if has_opt_no_data opts && negb (BTRFS_SEND_FLAG_NO_FILE_DATA =? 0)
     then mode_no_file_data else []) /\
  (sink_progress (dump_write w) ->
   written (output_at_exit w (snd (cmd_send w opts subvols))) =
     flat_map (fun k => until_eof (item_reads w k))
       (seq 0 (List.length subvols)) ++
     (if (dump_fd (send (snd (cmd_send w opts subvols))) =? 1) &&
         has_opt_no_data opts && negb (BTRFS_SEND_FLAG_NO_FILE_DATA =? 0)
      then mode_no_file_data else [])).
Proof.
  intros H. apply cmd_send_success in H. destruct H as (f0 & Hpre & Hloop).
  pose proof (@cmd_send_prelude_stdout w opts subvols f0 Hpre) as Hbuf0.
  apply cmd_send_prelude_spec in Hpre. destruct Hpre as (Ht & _ & _).
  pose proof (@preserves_at_send_loop h w (List.length subvols) subvols 0%nat
                f0 _ _ Hloop) as (Hbuf & _).
  apply send_loop_written in Hloop. rewrite Ht in Hloop. simpl in Hloop.
  rewrite Hbuf0 in Hbuf.
  split; [exact Hloop|]. split; [exact Hbuf|].
  intros Hprog. unfold output_at_exit. rewrite Hbuf, <- Hloop.
  destruct (dump_fd (send (snd (cmd_send w opts subvols))) =? 1); simpl andb.
  - destruct (@write_buf_flush (dump_write w)
                (sink (tr (snd (cmd_send w opts subvols))))
                (if has_opt_no_data opts &&
                    negb (BTRFS_SEND_FLAG_NO_FILE_DATA =? 0)
                 then mode_no_file_data else []) Hprog) as (snk' & -> & Hw).
    exact Hw.
  - rewrite app_nil_r. reflexivity.
Qed.

End RunContents.

Lemma cmd_send_success_sends_all_witness :
  Forall2 (fun a c => realpath sample_world a = Sys_ok (io_subvol c))
    ["/mnt/s1"; "/mnt/s2"]%string
    (log (tr (snd (@cmd_send linux_ioctl_h sample_world [Opt_c "/mnt/c"]
                     ["/mnt/s1"; "/mnt/s2"]%string)))).
Proof.
  apply (@cmd_send_success_sends_all linux_ioctl_h sample_world
           [Opt_c "/mnt/c"] ["/mnt/s1"; "/mnt/s2"]%string).
  vm_compute. reflexivity.
Defined.

Lemma cmd_send_success_sink_witness :
  written (sink (tr (snd (@cmd_send linux_ioctl_h sample_world
                            [Opt_e; Opt_no_data]
                            ["/mnt/s1"; "/mnt/s2"]%string)))) =
    flat_map (fun k => until_eof (item_reads sample_world k)) (seq 0 2) /\
  stdout_buf (snd (@cmd_send linux_ioctl_h sample_world [Opt_e; Opt_no_data]
                     ["/mnt/s1"; "/mnt/s2"]%string)) =
    (if has_opt_no_data [Opt_e; Opt_no_data] && negb (1 =? 0)
     then mode_no_file_data else []) /\
  (sink_progress (dump_write sample_world) ->
   written (output_at_exit sample_world
              (snd (@cmd_send linux_ioctl_h sample_world [Opt_e; Opt_no_data]
                      ["/mnt/s1"; "/mnt/s2"]%string))) =
     flat_map (fun k => until_eof (item_reads sample_world k)) (seq 0 2) ++
     (if (dump_fd (send (snd (@cmd_send linux_ioctl_h sample_world
                                [Opt_e; Opt_no_data]
                                ["/mnt/s1"; "/mnt/s2"]%string))) =? 1) &&
         has_opt_no_data [Opt_e; Opt_no_data] && negb (1 =? 0)
      then mode_no_file_data else [])).
Proof.
  apply (@cmd_send_success_sink linux_ioctl_h sample_world
           [Opt_e; Opt_no_data] ["/mnt/s1"; "/mnt/s2"]%string).
  vm_compute. reflexivity.
Defined.

(** With [--no-data] and the stream on [stdout], the output of the
    sample run ends with the line [cmd_send] printed; with [-f] the file
    holds the streams alone. *)
Example cmd_send_no_data_output :
  written (output_at_exit sample_world
             (snd (@cmd_send linux_ioctl_h sample_world [Opt_e; Opt_no_data]
                     ["/mnt/s1"; "/mnt/s2"]%string))) =
    abc ++ abc ++ mode_no_file_data /\
  written (output_at_exit sample_world
             (snd (@cmd_send linux_ioctl_h sample_world
                     [Opt_f "out"; Opt_no_data]
                     ["/mnt/s1"; "/mnt/s2"]%string))) =
    abc ++ abc.
Proof. split; vm_compute; reflexivity. Qed.

(** ** cmd_send: parents and clone sources of the requests *)

Section RunRequests.
Context {h : ioctl_h}.

(** The request of one item, exactly. *)
Lemma send_item_entry w n i a f o f' :
  send_item w n i a f = (o, f') ->
  (log (tr f') = log (tr f) /\ o <> Val tt) \/
  exists subvol parent fd,
    parent_for f parent /\
    log (tr f') =
      log (tr f) ++
      [send_args (send f) fd parent
         (if new_end_cmd_semantic f then Nat.eqb i 0 else true)
         (if new_end_cmd_semantic f then Nat.eqb i (n - 1) else true)
         subvol (send_flags f)].
Proof.
  intros H. apply send_item_trace in H.
  destruct H as [[Ht Hne]|(subvol & parent & od & s1 & _ & Hp & Hd & Hv)].
  - left. split; [rewrite Ht; reflexivity | exact Hne].
  - apply do_send_cases in Hd.
    destruct Hd as [_ [(Hl & _ & r & -> & Hr)|[Hl _]]].
    + left. split; [exact Hl|]. intros ->.
      specialize (Hv eq_refl). injection Hv as ->. lia.
    + right. exists subvol, parent, (snd (se_pipefd (send_envs w i))). auto.
Qed.

Lemma log_unchanged (l entries : list send_call) :
  l = l ++ entries -> entries = [].
Proof.
  intros H. rewrite <- (app_nil_r l) in H at 1.
  apply app_inv_head in H. symmetry. exact H.
Qed.

Lemma send_loop_clone_sources_grow w n :
  forall args i f o f' entries,
    send_loop w n i args f = (o, f') ->
    log (tr f') = log (tr f) ++ entries ->
    forall j k cj ck,
      (j <= k)%nat ->
      nth_error entries j = Some cj ->
      nth_error entries k = Some ck ->
      incl (io_clone_sources cj) (io_clone_sources ck).
Proof.
  induction args as [|a args IH]; intros i f o f' entries H Hl j k cj ck Hjk Hj Hk;
    simpl in H.
  - unfold pure in H. injection H as <- <-.
    apply log_unchanged in Hl. subst entries. destruct j; discriminate.
  - unfold bind in H. destruct (send_item w n i a f) as [o1 f1] eqn:Hitem.
    pose proof (send_item_entry _ _ _ _ _ Hitem) as Hentry.
    pose proof (send_item_spec _ _ _ _ _ Hitem) as (_ & _ & _ & _ & _ & _ & Hval).
    destruct Hentry as [[Hl1 Hne]|(subvol & parent & fd & _ & Hl1)].
    { assert (E : (o, f') = (o1, f1))
        by (destruct o1 as [[]| | |]; congruence).
      injection E as -> ->. rewrite Hl1 in Hl.
      apply log_unchanged in Hl. subst entries. destruct j; discriminate. }
    destruct o1 as [[]|r|code|].
    2,3,4: (injection H as Ho Hf; subst o f'; rewrite Hl1 in Hl;
            apply app_inv_head in Hl; subst entries;
            destruct j as [|[|j]], k as [|[|k]]; simpl in Hj, Hk;
            try discriminate; injection Hj as <-; injection Hk as <-;
            apply incl_refl).
    destruct (Hval eq_refl) as (_ & Hcs & _).
    pose proof (send_loop_spec _ _ _ _ _ H)
      as (_ & _ & _ & _ & _ & entries2 & Hl2 & _ & _ & Hentries2).
    rewrite Hl2, Hl1, <- app_assoc in Hl. apply app_inv_head in Hl.
    subst entries. simpl in Hj, Hk.
    destruct k as [|k].
    + destruct j; [|lia]. simpl in Hj, Hk. injection Hj as <-.
      injection Hk as <-. apply incl_refl.
    + simpl in Hk. destruct j as [|j].
      * simpl in Hj. injection Hj as <-. simpl.
        apply Hentries2 in Hk.
        destruct Hk as (a2 & sv2 & _ & _ & s2 & fd2 & p2 & -> & Hincl).
        simpl. eapply incl_tran; [|exact Hincl].
        rewrite Hcs. apply incl_appl, incl_refl.
      * simpl in Hj. eapply (IH _ _ _ _ entries2 H Hl2 j k); [lia | eauto ..].
Qed.

(** X17: the clone sources never shrink during a run: every request
    carries all the clone sources of every earlier request. *)
Theorem cmd_send_clone_sources_grow (w : world) (opts : list opt)
    (subvols : list string) (j k : nat) (cj ck : send_call) :
  (j <= k)%nat ->
  nth_error (log (tr (snd (cmd_send w opts subvols)))) j = Some cj ->
  nth_error (log (tr (snd (cmd_send w opts subvols)))) k = Some ck ->
  incl (io_clone_sources cj) (io_clone_sources ck).
Proof.
  intros Hjk. rewrite cmd_send_unfold, cmd_send_body_prelude. simpl snd.
  unfold bind.
  destruct (cmd_send_prelude w opts subvols init_frame) as [o f0] eqn:Hpre.
  apply cmd_send_prelude_spec in Hpre. destruct Hpre as (Ht & _ & _).
  destruct o as [[]|r|code|];
    try (simpl; rewrite Ht; simpl; destruct j; discriminate).
  destruct (send_loop w (List.length subvols) 0 subvols f0) as [o1 f1] eqn:Hloop.
  pose proof (send_loop_spec _ _ _ _ _ Hloop)
    as (_ & _ & _ & _ & _ & entries & Hl & _).
  simpl. intros Hj Hk. rewrite Hl, Ht in Hj, Hk. simpl in Hj, Hk.
  eapply send_loop_clone_sources_grow; eassumption.
Qed.

End RunRequests.

Lemma cmd_send_clone_sources_grow_witness :
  incl
    (io_clone_sources
       {| io_subvol := "/mnt/s1"; io_send_fd := 5; io_clone_sources := [257];
          io_parent_root := 257; io_flags := 0 |})
    (io_clone_sources
       {| io_subvol := "/mnt/s2"; io_send_fd := 5;
          io_clone_sources := [257; 257]; io_parent_root := 257;
          io_flags := 0 |}).
Proof.
  apply (@cmd_send_clone_sources_grow linux_ioctl_h sample_world
           [Opt_c "/mnt/c"%string] ["/mnt/s1"; "/mnt/s2"]%string 0 1).
  - lia.
  - vm_compute. reflexivity.
  - vm_compute. reflexivity.
Defined.

(** ** cmd_send: full and incremental sends *)

Section FullSend.
Context {h : ioctl_h}.

Lemma handle_opt_full w c f f' :
  opt_paths [c] = [] ->
  handle_opt w c f = (Val tt, f') ->
  full_send f' = full_send f /\
  clone_sources (send f') = clone_sources (send f) /\
  parent_root_id f' = parent_root_id f /\
  snapshot_parent f' = snapshot_parent f.
Proof.
  intros Hc.
  destruct c as [| |optarg|optarg|optarg| | |]; simpl in Hc;
    try discriminate; unfold handle_opt.
  - unfold pure. intros H. injection H as <-. auto.
  - unfold modify. intros H. injection H as <-. auto.
  - destruct (negb (arg_copy_path w optarg =? 0));
      [unfold goto_out; intros H; discriminate H|].
    unfold modify. intros H. injection H as <-. auto.
  - unfold bind, get, modify. intros H. injection H as <-. auto.
Qed.

Lemma getopt_loop_full w :
  forall opts f f',
    opt_paths opts = [] ->
    getopt_loop w opts f = (Val tt, f') ->
    full_send f' = full_send f /\
    clone_sources (send f') = clone_sources (send f) /\
    parent_root_id f' = parent_root_id f /\
    snapshot_parent f' = snapshot_parent f.
Proof.
  induction opts as [|c opts IH]; intros f f' Hp H; simpl in H.
  - unfold pure in H. injection H as <-. auto.
  - unfold bind in H. destruct (handle_opt w c f) as [[[]| | |] f1] eqn:Hc;
      try discriminate.
    assert (Hc1 : opt_paths [c] = [] /\ opt_paths opts = [])
      by (destruct c; simpl in Hp; try discriminate; auto).
    destruct Hc1 as [Hc1 Hc2].
    destruct (@handle_opt_full w c _ _ Hc1 Hc) as (A1 & A2 & A3 & A4).
    destruct (IH _ _ Hc2 H) as (B1 & B2 & B3 & B4).
    repeat split; congruence.
Qed.

Lemma cmd_send_setup_full w subvols f f' :
  snapshot_parent f = None ->
  cmd_send_setup w subvols f = (Val tt, f') ->
  full_send f' = full_send f /\
  clone_sources (send f') = clone_sources (send f) /\
  parent_root_id f' = parent_root_id f.
Proof.
  unfold cmd_send_setup. intros Hsp.
  destruct subvols as [|first rest]; [unfold exit; intros H; discriminate H|].
  unfold bind at 1. unfold get at 1. unfold bind at 1.
  assert (Hcreat : exists o0 f0,
            (if negb (outname f =? "")%string
             then bind (sys_call (creat w (outname f)))
                    (fun fd => modify (set_send (set_dump_fd (send f) fd)))
             else pure tt) f = (o0, f0) /\
            (o0 = Val tt ->
             full_send f0 = full_send f /\
             clone_sources (send f0) = clone_sources (send f) /\
             parent_root_id f0 = parent_root_id f /\
             snapshot_parent f0 = snapshot_parent f)).
  { destruct (negb (outname f =? "")%string).
    - unfold bind, sys_call. destruct (creat w (outname f)).
      + eexists _, _. split; [reflexivity|]. simpl. auto.
      + eexists _, _. split; [reflexivity|]. discriminate.
    - eexists _, _. split; [reflexivity|]. auto. }
  destruct Hcreat as (o0 & f0 & -> & Hf0).
  destruct o0 as [[]|r|code|]; try (intros H; discriminate H).
  destruct (Hf0 eq_refl) as (G1 & G2 & G3 & G4).
  unfold bind at 1. unfold get at 1.
  destruct (isatty w (dump_fd (send f0))); [unfold goto_out; intros H; discriminate H|].
  unfold bind at 1. unfold sys_call.
  destruct (realpath w first) as [subvol|e]; [|unfold goto_out; intros H; discriminate H].
  unfold pure at 1. unfold bind at 1.
  destruct (do_init_root_path w subvol f0) as [o1 f1] eqn:Hinit.
  apply do_init_root_path_spec in Hinit.
  destruct Hinit as [(s1 & -> & Hcs1 & _) _].
  destruct o1 as [[]|r|code|]; try (intros H; discriminate H).
  unfold bind at 1. unfold get at 1.
  cbn [snapshot_parent set_send send]. rewrite G4, Hsp.
  unfold pure. intros H. injection H as <-. simpl.
  repeat split; congruence.
Qed.

Lemma cmd_send_prelude_full w opts subvols f0 :
  opt_paths opts = [] ->
  cmd_send_prelude w opts subvols init_frame = (Val tt, f0) ->
  full_send f0 = true /\ clone_sources (send f0) = [] /\
  parent_root_id f0 = 0.
Proof.
  intros Hp Hpre. apply cmd_send_prelude_getopt in Hpre.
  destruct Hpre as (f1 & Hg & f2 & Hs & _ & Hm).
  apply print_mode_fields in Hm.
  destruct Hm as (Fs & _ & _ & _ & Ff & Fp & _).
  destruct (@getopt_loop_full w opts _ _ Hp Hg) as (A1 & A2 & A3 & A4).
  destruct (@cmd_send_setup_full w subvols _ _ A4 Hs) as (B1 & B2 & B3).
  rewrite Ff, Fs, Fp, B1, B2, B3, A1, A2, A3. repeat split.
Qed.

Lemma send_loop_full w n :
  forall args i f o f' entries,
    full_send f = true -> clone_sources (send f) = [] ->
    parent_root_id f = 0 ->
    send_loop w n i args f = (o, f') ->
    log (tr f') = log (tr f) ++ entries ->
    Forall (fun c => io_parent_root c = 0 /\ io_clone_sources c = []) entries.
Proof.
  induction args as [|a args IH]; intros i f o f' entries F1 F2 F3 H Hl;
    simpl in H.
  - unfold pure in H. injection H as <- <-.
    apply log_unchanged in Hl. subst entries. constructor.
  - unfold bind in H. destruct (send_item w n i a f) as [o1 f1] eqn:Hitem.
    pose proof (send_item_entry _ _ _ _ _ Hitem) as Hentry.
    pose proof (send_item_spec _ _ _ _ _ Hitem)
      as (_ & _ & Hfs & _ & _ & _ & Hval).
    destruct Hentry as [[Hl1 Hne]|(subvol & parent & fd & Hp & Hl1)].
    { assert (E : (o, f') = (o1, f1))
        by (destruct o1 as [[]| | |]; congruence).
      injection E as -> ->. rewrite Hl1 in Hl.
      apply log_unchanged in Hl. subst entries. constructor. }
    unfold parent_for in Hp. rewrite F1 in Hp. simpl in Hp. subst parent.
    assert (Hhead : forall c,
              c = send_args (send f) fd (parent_root_id f)
                    (if new_end_cmd_semantic f then (i =? 0)%nat else true)
                    (if new_end_cmd_semantic f
                     then (i =? n - 1)%nat else true)
                    subvol (send_flags f) ->
              io_parent_root c = 0 /\ io_clone_sources c = [])
      by (intros c ->; simpl; auto).
    destruct o1 as [[]|r|code|].
    2,3,4: (injection H as Ho Hf; subst o f'; rewrite Hl1 in Hl;
            apply app_inv_head in Hl; subst entries;
            constructor; [apply Hhead; reflexivity | constructor]).
    destruct (Hval eq_refl) as (Hp0 & Hcs & _).
    rewrite F1, F2 in Hcs. simpl in Hcs.
    pose proof (send_loop_spec _ _ _ _ _ H)
      as (_ & _ & _ & _ & _ & entries2 & Hl2 & _).
    pose proof (IH _ _ _ _ entries2 (eq_trans Hfs F1) Hcs Hp0 H Hl2) as Hrest.
    rewrite Hl2, Hl1, <- app_assoc in Hl. apply app_inv_head in Hl.
    subst entries. simpl.
    constructor; [apply Hhead; reflexivity | exact Hrest].
Qed.

(** X18: without [-c] and [-p] the run is a full send: every request
    names no parent and no clone source. *)
Theorem cmd_send_full_send (w : world) (opts : list opt)
    (subvols : list string) :
  opt_paths opts = [] ->
  Forall (fun c => io_parent_root c = 0 /\ io_clone_sources c = [])
    (log (tr (snd (cmd_send w opts subvols)))).
Proof.
  intros Hp. rewrite cmd_send_unfold, cmd_send_body_prelude. simpl snd.
  unfold bind.
  destruct (cmd_send_prelude w opts subvols init_frame) as [o f0] eqn:Hpre.
  pose proof (cmd_send_prelude_spec _ _ _ _ Hpre) as (Ht & _ & _).
  destruct o as [[]|r|code|];
    try (simpl; rewrite Ht; simpl; constructor).
  destruct (@cmd_send_prelude_full w opts subvols _ Hp Hpre) as (F1 & F2 & F3).
  destruct (send_loop w (List.length subvols) 0 subvols f0) as [o1 f1] eqn:Hloop.
  pose proof (send_loop_spec _ _ _ _ _ Hloop)
    as (_ & _ & _ & _ & _ & entries & Hl & _).
  simpl. rewrite Hl, Ht. simpl.
  eapply send_loop_full; eassumption.
Qed.

(** X19: with [-p p], the first request of the run names as its parent
    the root id that [p] resolved to, unless that id is 0. *)
Theorem cmd_send_first_parent (w : world) (opts : list opt)
    (subvols : list string) (p : string) (f0 : frame) :
  In (Opt_p p) opts ->
  cmd_send_prelude w opts subvols init_frame = (Val tt, f0) ->
  exists sp id,
    realpath w p = Sys_ok sp /\
    get_root_id (send f0)
      (subvol_strip_mountpoint w (root_path_str (send f0)) sp) = Ok id /\
    forall c, nth_error (log (tr (snd (cmd_send w opts subvols)))) 0 = Some c ->
              id <> 0 -> io_parent_root c = id.
Proof.
  intros Hin Hpre. pose proof Hpre as Hspec.
  apply cmd_send_prelude_spec in Hspec. destruct Hspec as (Ht & _ & Hv).
  destruct (Hv eq_refl) as (_ & _ & _ & Hp).
  destruct (Hp p Hin) as (sp & id & Hsp & Hid & Hpid & _).
  exists sp, id. split; [exact Hsp|]. split; [exact Hid|].
  rewrite cmd_send_unfold, cmd_send_body_prelude. simpl snd.
  unfold bind. rewrite Hpre.
  destruct (send_loop w (List.length subvols) 0 subvols f0) as [o1 f1] eqn:Hloop.
  simpl snd. intros c Hc Hne.
  remember (List.length subvols) as n eqn:Hn in Hloop. clear Hn.
  destruct subvols as [|a rest]; simpl in Hloop.
  { unfold pure in Hloop. injection Hloop as <- <-.
    rewrite Ht in Hc. discriminate. }
  unfold bind in Hloop.
  destruct (send_item w n 0 a f0) as [o2 f2] eqn:Hitem.
  pose proof (send_item_entry _ _ _ _ _ Hitem) as Hentry.
  destruct Hentry as [[Hl1 Hne1]|(subvol & parent & fd & Hpar & Hl1)].
  { assert (E : (o1, f1) = (o2, f2))
      by (destruct o2 as [[]| | |]; congruence).
    injection E as -> ->. rewrite Hl1, Ht in Hc. discriminate. }
  assert (Hf1 : exists more, log (tr f1) = log (tr f2) ++ more).
  { destruct o2 as [[]|r|code|];
      try (injection Hloop as _ <-; exists []; rewrite app_nil_r; reflexivity).
    apply send_loop_spec in Hloop.
    destruct Hloop as (_ & _ & _ & _ & _ & entries & Hl & _).
    exists entries. exact Hl. }
  destruct Hf1 as (more & Hmore).
  rewrite Hmore, Hl1, Ht in Hc. simpl in Hc. injection Hc as <-. simpl.
  unfold parent_for in Hpar. rewrite Hpid in Hpar.
  apply Z.eqb_neq in Hne. rewrite Hne, andb_false_r in Hpar. exact Hpar.
Qed.

End FullSend.

Lemma cmd_send_full_send_witness :
  Forall (fun c => io_parent_root c = 0 /\ io_clone_sources c = [])
    (log (tr (snd (@cmd_send linux_ioctl_h sample_world [Opt_e; Opt_no_data]
                     ["/mnt/s1"; "/mnt/s2"]%string)))).
Proof.
  apply (@cmd_send_full_send linux_ioctl_h sample_world [Opt_e; Opt_no_data]
           ["/mnt/s1"; "/mnt/s2"]%string).
  reflexivity.
Defined.

Lemma cmd_send_first_parent_witness :
  exists sp id,
    realpath sample_world "/mnt/base" = Sys_ok sp /\
    get_root_id
      (send (snd (@cmd_send_prelude linux_ioctl_h sample_world
                    [Opt_p "/mnt/base"%string] ["/mnt/s1"%string] init_frame)))
      (subvol_strip_mountpoint sample_world
         (root_path_str
            (send (snd (@cmd_send_prelude linux_ioctl_h sample_world
                          [Opt_p "/mnt/base"%string] ["/mnt/s1"%string]
                          init_frame)))) sp) = Ok id /\
    forall c,
      nth_error (log (tr (snd (@cmd_send linux_ioctl_h sample_world
                                 [Opt_p "/mnt/base"%string]
                                 ["/mnt/s1"%string])))) 0 = Some c ->
      id <> 0 -> io_parent_root c = id.
Proof.
  apply (@cmd_send_first_parent linux_ioctl_h sample_world
           [Opt_p "/mnt/base"%string] ["/mnt/s1"%string] "/mnt/base"%string).
  - left. reflexivity.
  - vm_compute. reflexivity.
Defined.

(** * Properties of cmds-filesystem.c *)

(** ** The hash of the fsids already shown *)

Lemma bytes_eqb_eq (a b : list byte) : bytes_eqb a b = true <-> a = b.
Proof.
  revert b. induction a as [|x a IH]; intros [|y b]; simpl;
    try (split; [discriminate | discriminate]); [tauto|].
  rewrite andb_true_iff, IH. split.
  - intros [E ->]. apply Byte.byte_dec_bl in E. congruence.
  - intros E. injection E as -> ->. split; [|reflexivity].
    apply Byte.byte_dec_lb. reflexivity.
Qed.

Lemma fsid_slot_bound (fsid : list byte) :
  (fsid_slot fsid < SEEN_FSID_HASH_SIZE)%nat.
Proof. unfold fsid_slot. apply Nat.mod_upper_bound. discriminate. Qed.

Lemma fsid_slot_hd (a b : list byte) :
  fsid_slot a = fsid_slot b <-> hd x00 a = hd x00 b.
Proof.
  unfold fsid_slot, SEEN_FSID_HASH_SIZE. split; [|intros ->; reflexivity].
  rewrite !Nat.mod_small
    by (apply Nat.lt_succ_r; apply Byte.to_nat_bounded).
  intros E. pose proof (Byte.of_to_nat (hd x00 a)) as Ha.
  rewrite E, Byte.of_to_nat in Ha. congruence.
Qed.

Section SeenFsidProperties.
Variable size : nat.

Lemma firstn_hd (a b : list byte) :
  (0 < size)%nat -> firstn size a = firstn size b -> hd x00 a = hd x00 b.
Proof.
  destruct size as [|n]; [lia|]. intros _.
  destruct a, b; simpl; intros H; congruence.
Qed.

Lemma same_fsid_iff (a b : list byte) :
  same_fsid size a b = true <-> firstn size a = firstn size b.
Proof. apply bytes_eqb_eq. Qed.

Lemma chain_has_iff chain fsid :
  chain_has size chain fsid = true <->
  exists seen, In seen chain /\ firstn size seen = firstn size fsid.
Proof.
  induction chain as [|c chain IH]; simpl.
  - split; [discriminate | intros (? & [] & _)].
  - destruct (same_fsid size c fsid) eqn:E.
    + split; [|reflexivity]. intros _. exists c. split; [left; reflexivity|].
      apply same_fsid_iff. exact E.
    + rewrite IH. split.
      * intros (s & Hin & Hs). exists s. auto.
      * intros (s & [<-|Hin] & Hs); [|eauto].
        apply same_fsid_iff in Hs. congruence.
Qed.

(** What one call does to the chains. *)
Lemma add_seen_fsid_chain ok tbl fsid slot :
  exists more,
    snd (add_seen_fsid size ok tbl fsid) slot = tbl slot ++ more /\
    (more = [] \/
     more = [firstn size fsid] /\ slot = fsid_slot fsid /\ ok = true /\
     fst (add_seen_fsid size ok tbl fsid) = 0 /\
     chain_has size (tbl slot) fsid = false).
Proof.
  unfold add_seen_fsid.
  destruct (chain_has size (tbl (fsid_slot fsid)) fsid) eqn:Hc.
  { exists []. rewrite app_nil_r. auto. }
  destruct ok; simpl.
  2:{ exists []. rewrite app_nil_r. auto. }
  unfold set_slot. destruct (Nat.eqb slot (fsid_slot fsid)) eqn:E.
  - apply Nat.eqb_eq in E. subst slot. exists [firstn size fsid].
    split; [reflexivity|]. right. auto.
  - exists []. rewrite app_nil_r. auto.
Qed.

Lemma add_all_chain calls :
  forall tbl slot,
    exists more, add_all size tbl calls slot = tbl slot ++ more.
Proof.
  induction calls as [|[ok fsid] calls IH]; intros tbl slot; simpl.
  - exists []. rewrite app_nil_r. reflexivity.
  - destruct (IH (snd (add_seen_fsid size ok tbl fsid)) slot) as (m2 & ->).
    destruct (add_seen_fsid_chain ok tbl fsid slot) as (m1 & -> & _).
    exists (m1 ++ m2). rewrite app_assoc. reflexivity.
Qed.

(** X20: once [add_seen_fsid] has returned 0 for an fsid, every later
    call for the same [BTRFS_FSID_SIZE] bytes returns [-EEXIST] and leaves
    the table as it is, whatever was added in between. *)
Theorem add_seen_fsid_once (ok ok' : bool) (tbl : seen_fsid_hash_t)
    (fsid fsid' : list byte) (calls : list (bool * list byte)) :
  (0 < size)%nat ->
  fst (add_seen_fsid size ok tbl fsid) = 0 ->
  firstn size fsid' = firstn size fsid ->
  add_seen_fsid size ok'
    (add_all size (snd (add_seen_fsid size ok tbl fsid)) calls) fsid' =
  (- EEXIST, add_all size (snd (add_seen_fsid size ok tbl fsid)) calls).
Proof.
  intros Hsize H0 Hsame.
  assert (Hslot : fsid_slot fsid' = fsid_slot fsid)
    by (apply fsid_slot_hd; eapply firstn_hd; eassumption).
  assert (Hin : In (firstn size fsid)
                  (snd (add_seen_fsid size ok tbl fsid) (fsid_slot fsid))).
  { revert H0. unfold add_seen_fsid.
    destruct (chain_has size (tbl (fsid_slot fsid)) fsid);
      [intros H; discriminate H|].
    destruct ok; simpl; [|intros H; discriminate H]. intros _.
    unfold set_slot. rewrite Nat.eqb_refl. apply in_or_app. right.
    left. reflexivity. }
  destruct (add_all_chain calls (snd (add_seen_fsid size ok tbl fsid))
              (fsid_slot fsid)) as (more & Hmore).
  unfold add_seen_fsid at 1. rewrite Hslot.
  assert (Hc : chain_has size
                 (add_all size (snd (add_seen_fsid size ok tbl fsid)) calls
                    (fsid_slot fsid)) fsid' = true).
  { apply chain_has_iff. exists (firstn size fsid). split.
    - rewrite Hmore. apply in_or_app. left. exact Hin.
    - rewrite Hsame, firstn_firstn, Nat.min_id. reflexivity. }
  rewrite Hc. reflexivity.
Qed.

Lemma chains_ok_add ok tbl fsid :
  chains_ok size tbl -> chains_ok size (snd (add_seen_fsid size ok tbl fsid)).
Proof.
  intros Hok slot. destruct (Hok slot) as [Hnd Hfix].
  destruct (add_seen_fsid_chain ok tbl fsid slot)
    as (more & -> & [->|(-> & _ & _ & _ & Hc)]).
  - rewrite app_nil_r. auto.
  - split.
    + apply NoDup_app; [exact Hnd | repeat constructor; intros [] |].
      intros seen Hin [<-|[]].
      assert (E : chain_has size (tbl slot) fsid = true); [|congruence].
      apply chain_has_iff. exists (firstn size fsid).
      split; [exact Hin|]. rewrite firstn_firstn, Nat.min_id. reflexivity.
    + intros seen Hin. apply in_app_or in Hin. destruct Hin as [Hin|[<-|[]]].
      * auto.
      * rewrite firstn_firstn, Nat.min_id. reflexivity.
Qed.

Lemma chains_ok_add_all calls :
  forall tbl, chains_ok size tbl -> chains_ok size (add_all size tbl calls).
Proof.
  induction calls as [|[ok fsid] calls IH]; intros tbl Hok; simpl.
  - exact Hok.
  - apply IH, chains_ok_add, Hok.
Qed.

(** X21: starting from the empty table, no chain ever holds the same
    fsid twice. *)
Theorem add_seen_fsid_no_duplicates (calls : list (bool * list byte))
    (slot : nat) :
  NoDup (add_all size seen_fsid_hash calls slot).
Proof.
  apply chains_ok_add_all. intros s. split; [constructor | intros ? []].
Qed.

Lemma add_all_slot_filled calls :
  forall tbl slot,
    add_all size tbl calls slot <> [] <->
    tbl slot <> [] \/
    exists fsid, In (true, fsid) calls /\ fsid_slot fsid = slot.
Proof.
  induction calls as [|[ok fsid] calls IH]; intros tbl slot; simpl.
  - split; [auto | intros [H|(? & [] & _)]; exact H].
  - rewrite IH. split.
    + intros [H|(f & Hin & Hf)]; [|right; eauto].
      destruct (add_seen_fsid_chain ok tbl fsid slot)
        as (more & Hm & [->|(-> & -> & -> & _)]).
      * rewrite Hm, app_nil_r in H. auto.
      * right. exists fsid. auto.
    + intros [H|(f & [E|Hin] & Hf)].
      * left. destruct (add_seen_fsid_chain ok tbl fsid slot) as (more & -> & _).
        destruct (tbl slot); [contradiction | discriminate].
      * injection E as E1 E2. subst ok fsid. left. unfold add_seen_fsid.
        rewrite Hf.
        destruct (chain_has size (tbl slot) f) eqn:Hc; simpl.
        -- destruct (tbl slot); [discriminate Hc | discriminate].
        -- unfold set_slot. rewrite Nat.eqb_refl.
           destruct (tbl slot); discriminate.
      * right. eauto.
Qed.

(** X22: [is_seen_fsid] answers by the first byte alone: after a
    sequence of calls of [add_seen_fsid] on the empty table it returns 1
    for [fsid] exactly if one of the calls whose [malloc] succeeded was
    for an fsid with the same first byte. *)
Theorem is_seen_fsid_first_byte (calls : list (bool * list byte))
    (fsid : list byte) :
  is_seen_fsid (add_all size seen_fsid_hash calls) fsid = 1 <->
  exists added, In (true, added) calls /\ hd x00 added = hd x00 fsid.
Proof.
  unfold is_seen_fsid.
  pose proof (add_all_slot_filled calls seen_fsid_hash (fsid_slot fsid)) as H.
  destruct (add_all size seen_fsid_hash calls (fsid_slot fsid)) as [|c chain].
  - split; [discriminate|]. intros (a & Hin & Ha).
    destruct (proj2 H); [|reflexivity]. right. exists a.
    split; [exact Hin | apply fsid_slot_hd, Ha].
  - split; [|reflexivity]. intros _.
    destruct (proj1 H) as [E|(a & Hin & Ha)]; [discriminate | destruct E; reflexivity |].
    exists a. split; [exact Hin | apply fsid_slot_hd, Ha].
Qed.

(** X23: [free_seen_fsid] empties the table: afterwards no fsid is seen,
    and any fsid can be added again. *)
Theorem free_seen_fsid_resets (tbl : seen_fsid_hash_t) (fsid : list byte) :
  is_seen_fsid (free_seen_fsid tbl) fsid = 0 /\
  fst (add_seen_fsid size true (free_seen_fsid tbl) fsid) = 0 /\
  is_seen_fsid (snd (add_seen_fsid size true (free_seen_fsid tbl) fsid)) fsid
    = 1.
Proof.
  pose proof (fsid_slot_bound fsid) as Hb. apply Nat.ltb_lt in Hb.
  assert (Hfree : free_seen_fsid tbl (fsid_slot fsid) = [])
    by (unfold free_seen_fsid; rewrite Hb; reflexivity).
  unfold is_seen_fsid, add_seen_fsid. rewrite Hfree.
  cbn [chain_has negb fst snd]. unfold set_slot. rewrite Nat.eqb_refl.
  repeat split.
Qed.

End SeenFsidProperties.

Lemma add_seen_fsid_once_witness :
  add_seen_fsid 16 false
    (add_all 16 (snd (add_seen_fsid 16 true seen_fsid_hash fsid_a))
       [(true, fsid_b)]) fsid_a =
  (- EEXIST,
   add_all 16 (snd (add_seen_fsid 16 true seen_fsid_hash fsid_a))
     [(true, fsid_b)]).
Proof.
  apply (@add_seen_fsid_once 16 true false seen_fsid_hash fsid_a fsid_a
           [(true, fsid_b)]); [lia | reflexivity | reflexivity].
Defined.

(** ** The devices of a filesystem and of its seeds *)

(** X24: [cmp_device_id] is a comparison in the sense [list_sort]
    needs: swapping the arguments negates the result, it is transitive,
    and it returns 0 for equal devids only. *)
Theorem cmp_device_id_order (a b c : btrfs_device) :
  cmp_device_id b a = - cmp_device_id a b /\
  (cmp_device_id a b <= 0 /\ cmp_device_id b c <= 0 ->
   cmp_device_id a c <= 0) /\
  (cmp_device_id a b = 0 <-> devid a = devid b).
Proof.
  unfold cmp_device_id. rewrite !Z.gtb_ltb.
  destruct (devid a <? devid b) eqn:E1, (devid b <? devid a) eqn:E2,
           (devid b <? devid c) eqn:E3, (devid c <? devid b) eqn:E4,
           (devid a <? devid c) eqn:E5, (devid c <? devid a) eqn:E6;
    rewrite ?Z.ltb_lt, ?Z.ltb_ge in *;
    repeat split; intros; try lia.
Qed.

Lemma splice_scan_spec in_all :
  forall seed keep seed1,
    splice_scan in_all seed = (keep, seed1) ->
    incl seed1 seed /\
    (NoDup (map devid seed) -> NoDup (map devid seed1)) /\
    (keep = false ->
     seed1 = seed /\
     exists x, In x seed /\ devid x = devid in_all /\
               generation in_all < generation x) /\
    (forall y, In y seed ->
       In y seed1 \/
       keep = true /\ devid y = devid in_all /\
       generation y < generation in_all) /\
    (NoDup (map devid seed) -> keep = true ->
     forall x, In x seed1 -> devid x = devid in_all ->
               generation x = generation in_all).
Proof.
  induction seed as [|s seed IH]; intros keep seed1 H; simpl in H.
  - injection H as <- <-. split; [apply incl_refl|]. split; [auto|].
    split; [discriminate|]. split; [intros y []|]. intros _ _ x [].
  - destruct (devid in_all =? devid s) eqn:Ed.
    + apply Z.eqb_eq in Ed.
      destruct (generation in_all <? generation s) eqn:E1.
      * apply Z.ltb_lt in E1. injection H as <- <-.
        split; [apply incl_refl|]. split; [auto|]. split.
        { intros _. split; [reflexivity|]. exists s.
          split; [left; reflexivity | split; [congruence | exact E1]]. }
        split; [auto | discriminate].
      * apply Z.ltb_ge in E1. rewrite Z.gtb_ltb in H.
        destruct (generation s <? generation in_all) eqn:E2.
        -- apply Z.ltb_lt in E2. injection H as <- <-.
           split; [apply incl_tl, incl_refl|].
           split; [simpl; intros Hnd; inversion Hnd; assumption|].
           split; [discriminate|]. split.
           { intros y [<-|Hin]; [right; auto | left; exact Hin]. }
           simpl. intros Hnd _ x Hin Hx. inversion Hnd as [|? ? Hnotin _].
           destruct Hnotin. rewrite <- Ed, <- Hx. apply in_map. exact Hin.
        -- apply Z.ltb_ge in E2. injection H as <- <-.
           split; [apply incl_refl|]. split; [auto|].
           split; [discriminate|]. split; [auto|].
           simpl. intros Hnd _ x [<-|Hin] Hx; [lia|].
           inversion Hnd as [|? ? Hnotin _].
           destruct Hnotin. rewrite <- Ed, <- Hx. apply in_map. exact Hin.
    + apply Z.eqb_neq in Ed.
      destruct (splice_scan in_all seed) as [k rest] eqn:Hs.
      injection H as <- <-.
      destruct (IH _ _ eq_refl) as (H1 & H2 & H3 & H4 & H5).
      split; [|split; [|split; [|split]]].
      * intros y [<-|Hin]; [left; reflexivity | right; apply H1, Hin].
      * simpl. intros Hnd. inversion Hnd as [|? ? Hnotin Hnd']. constructor.
        -- intros Hin. apply Hnotin. apply in_map_iff in Hin.
           destruct Hin as (y & Hy & Hin). apply in_map_iff. exists y.
           split; [exact Hy | apply H1, Hin].
        -- auto.
      * intros Hk. destruct (H3 Hk) as (-> & x & Hin & Hx & Hg).
        split; [reflexivity|]. exists x. split; [right; exact Hin | auto].
      * intros y [<-|Hin]; [left; left; reflexivity|].
        destruct (H4 y Hin) as [Hy|Hy]; [left; right; exact Hy | right; exact Hy].
      * simpl. intros Hnd Hk x [<-|Hin] Hx; [congruence|].
        inversion Hnd. auto.
Qed.

Lemma splice_loop_spec :
  forall all seed all1 seed1,
    splice_loop all seed = (all1, seed1) ->
    incl all1 all /\ incl seed1 seed /\
    (NoDup (map devid seed) -> NoDup (map devid seed1)) /\
    (forall d, In d (all ++ seed) ->
       exists d', In d' (seed1 ++ all1) /\ devid d' = devid d /\
                  generation d <= generation d') /\
    (NoDup (map devid seed) ->
     forall d1 d2, In d1 seed1 -> In d2 all1 -> devid d1 = devid d2 ->
                   generation d1 = generation d2).
Proof.
  induction all as [|in_all next IH]; intros seed all1 seed1 H; simpl in H.
  - injection H as <- <-. split; [apply incl_refl|].
    split; [apply incl_refl|]. split; [auto|]. split.
    + simpl. intros d Hin. exists d. rewrite app_nil_r.
      split; [exact Hin | split; [reflexivity | lia]].
    + intros _ d1 d2 _ [].
  - destruct (splice_scan in_all seed) as [keep seedm] eqn:Hscan.
    destruct (splice_loop next seedm) as [all2 seed2] eqn:Hloop.
    injection H as <- <-.
    apply splice_scan_spec in Hscan.
    destruct Hscan as (S1 & S2 & S3 & S4 & S5).
    destruct (IH _ _ _ Hloop) as (L1 & L2 & L3 & L4 & L5).
    assert (Hsub : forall d', In d' (seed2 ++ all2) ->
                     In d' (seed2 ++ (if keep then in_all :: all2 else all2))).
    { intros d' Hin. apply in_app_or in Hin. apply in_or_app.
      destruct Hin as [Hin|Hin]; [left; exact Hin|]. right.
      destruct keep; [right|]; exact Hin. }
    split; [|split; [|split; [|split]]].
    + destruct keep.
      * intros y [<-|Hin]; [left; reflexivity | right; apply L1, Hin].
      * apply incl_tl, L1.
    + eapply incl_tran; eassumption.
    + auto.
    + assert (Hm : forall d, In d (next ++ seedm) ->
                exists d', In d' (seed2 ++ (if keep then in_all :: all2 else all2)) /\
                           devid d' = devid d /\ generation d <= generation d').
      { intros d Hin. destruct (L4 d Hin) as (d' & Hd' & Hx).
        exists d'. split; [apply Hsub, Hd' | exact Hx]. }
      assert (Hkept : keep = true ->
                In in_all (seed2 ++ (if keep then in_all :: all2 else all2))).
      { intros ->. apply in_or_app. right. left. reflexivity. }
      simpl. intros d [<-|Hin].
      * destruct keep.
        -- exists in_all. split; [auto | split; [reflexivity | lia]].
        -- destruct (S3 eq_refl) as (-> & x & Hx & Hdx & Hgx).
           destruct (Hm x) as (d' & Hd' & Hdd & Hgd);
             [apply in_or_app; right; exact Hx|].
           exists d'. split; [exact Hd' | split; [congruence | lia]].
      * apply in_app_or in Hin. destruct Hin as [Hin|Hin].
        -- apply Hm. apply in_or_app. left. exact Hin.
        -- destruct (S4 d Hin) as [Hd|(Hk & Hd & Hg)].
           ++ apply Hm. apply in_or_app. right. exact Hd.
           ++ exists in_all. split; [auto | split; [congruence | lia]].
    + intros Hnd d1 d2 H1 H2 Hd.
      assert (H2' : (keep = true /\ d2 = in_all) \/ In d2 all2).
      { destruct keep; [destruct H2 as [<-|H2]|]; auto. }
      destruct H2' as [[Hk ->]|H2'].
      * apply (S5 Hnd Hk); [apply L2, H1 | exact Hd].
      * apply (L5 (S2 Hnd)); assumption.
Qed.

(** X25: [splice_device_list] invents no device and loses no devid:
    for every device of either list, the spliced list holds a device of
    the same devid whose generation is at least as high. *)
Theorem splice_device_list_keeps_newest (seed all : list btrfs_device) :
  incl (splice_device_list seed all) (seed ++ all) /\
  forall d, In d (seed ++ all) ->
    exists d', In d' (splice_device_list seed all) /\
               devid d' = devid d /\ generation d <= generation d'.
Proof.
  unfold splice_device_list.
  destruct (splice_loop all seed) as [all1 seed1] eqn:H.
  apply splice_loop_spec in H. destruct H as (L1 & L2 & _ & L4 & _).
  split.
  - intros d Hin. apply in_app_or in Hin. apply in_or_app.
    destruct Hin as [Hin|Hin]; [left; apply L2, Hin | right; apply L1, Hin].
  - intros d Hin. apply L4. apply in_app_or in Hin. apply in_or_app.
    destruct Hin; auto.
Qed.

Lemma NoDup_map_inj (l : list btrfs_device) (a b : btrfs_device) :
  NoDup (map devid l) -> In a l -> In b l -> devid a = devid b -> a = b.
Proof.
  induction l as [|x l IH]; simpl; intros Hnd Ha Hb E; [destruct Ha|].
  inversion Hnd as [|? ? Hnotin Hnd'].
  destruct Ha as [<-|Ha], Hb as [<-|Hb]; auto.
  - destruct Hnotin. rewrite E. apply in_map, Hb.
  - destruct Hnotin. rewrite <- E. apply in_map, Ha.
Qed.

(** X26: when the devids of each list are distinct, the devices that
    [splice_device_list] leaves under one devid all have the same
    generation: of a device and its replaced copy only the newer one
    stays. *)
Theorem splice_device_list_one_generation (seed all : list btrfs_device) :
  NoDup (map devid seed) -> NoDup (map devid all) ->
  one_generation (splice_device_list seed all).
Proof.
  intros Hs Ha. unfold splice_device_list.
  destruct (splice_loop all seed) as [all1 seed1] eqn:H.
  apply splice_loop_spec in H. destruct H as (L1 & L2 & _ & _ & L5).
  intros d1 d2 H1 H2 E.
  apply in_app_or in H1. apply in_app_or in H2.
  destruct H1 as [H1|H1], H2 as [H2|H2].
  - f_equal. eapply NoDup_map_inj; [exact Hs | apply L2, H1 | apply L2, H2 | exact E].
  - apply (L5 Hs); assumption.
  - symmetry. apply (L5 Hs); [assumption | assumption | congruence].
  - f_equal. eapply NoDup_map_inj; [exact Ha | apply L1, H1 | apply L1, H2 | exact E].
Qed.

Lemma splice_device_list_one_generation_witness :
  one_generation (splice_device_list seed_devices_of_sprout sprout_devices).
Proof.
  apply splice_device_list_one_generation.
  - simpl. repeat constructor; simpl; intuition discriminate.
  - simpl. repeat constructor; simpl; intuition discriminate.
Defined.

(** ** calc_used_bytes *)

Lemma calc_used_bytes_fold (spaces : list Z) :
  forall ret,
    fold_left (fun ret used_bytes => to_u64 (ret + used_bytes)) spaces
      (to_u64 ret) =
    to_u64 (ret + fold_right Z.add 0 spaces).
Proof.
  induction spaces as [|x spaces IH]; intros ret; simpl.
  - rewrite Z.add_0_r. reflexivity.
  - assert (E : to_u64 (to_u64 ret + x) = to_u64 (ret + x))
      by (unfold to_u64; apply Zplus_mod_idemp_l).
    rewrite E, IH. f_equal. lia.
Qed.

(** X27: [calc_used_bytes] is the sum of the [used_bytes] modulo 2^64:
    the exact sum as long as that is below 2^64, a wrapped one beyond. *)
Theorem calc_used_bytes_sum (spaces : list Z) :
  calc_used_bytes spaces = to_u64 (fold_right Z.add 0 spaces) /\
  (0 <= fold_right Z.add 0 spaces < two64 ->
   calc_used_bytes spaces = fold_right Z.add 0 spaces).
Proof.
  assert (H : calc_used_bytes spaces = to_u64 (fold_right Z.add 0 spaces)).
  { unfold calc_used_bytes.
    change 0 with (to_u64 0) at 1. rewrite calc_used_bytes_fold. reflexivity. }
  split; [exact H|].
  intros Hr. rewrite H. unfold to_u64. apply Z.mod_small. exact Hr.
Qed.

(** * Properties of cmds-replace.c *)

Lemma skip_digits_empty (str : string) :
  skip_digits str = EmptyString <-> all_digits str.
Proof.
  induction str as [|c rest IH]; simpl; [tauto|].
  destruct (is_digit c).
  - rewrite IH. tauto.
  - split; [discriminate | intros [H _]; discriminate H].
Qed.

(** X28: [is_numerical] returns 1 exactly for the non-empty strings of
    decimal digits, and 0 for every other string: a sign, a blank or a
    trailing character makes it 0. *)
Theorem is_numerical_digits (str : string) :
  (is_numerical str = 1 <-> str <> EmptyString /\ all_digits str) /\
  (is_numerical str = 0 \/ is_numerical str = 1).
Proof.
  destruct str as [|c rest]; unfold is_numerical.
  { split; [|left; reflexivity].
    split; [discriminate | intros [H _]; destruct H; reflexivity]. }
  destruct (is_digit c) eqn:Ec; simpl negb; cbv iota.
  2:{ split; [|left; reflexivity].
      split; [discriminate|]. intros [_ H]. simpl in H. destruct H as [H _].
      congruence. }
  pose proof (skip_digits_empty (String c rest)) as H.
  destruct (skip_digits (String c rest)) as [|c' rest'].
  - split; [|right; reflexivity]. split; [|reflexivity]. intros _.
    split; [discriminate | apply H; reflexivity].
  - split; [|left; reflexivity]. split; [discriminate|]. intros [_ Hd].
    apply H in Hd. discriminate Hd.
Qed.

(** * Properties of cmds-filesystem.c: selecting a mounted filesystem *)

Lemma strncmp_eq_prefix (search : string) :
  forall (uuidbuf : string) (size : nat),
    (String.length uuidbuf < size)%nat ->
    strncmp_eq uuidbuf search (Nat.min (String.length search) size) =
    String.prefix search uuidbuf.
Proof.
  induction search as [|y search IH]; intros uuidbuf size Hlen.
  - simpl. destruct uuidbuf; reflexivity.
  - destruct size as [|size]; [lia|]. simpl String.length.
    rewrite <- Nat.succ_min_distr. cbn [strncmp_eq String.prefix].
    destruct uuidbuf as [|x uuidbuf]; [reflexivity|].
    simpl in Hlen. cbn [strncmp_eq String.prefix]. rewrite Ascii.eqb_sym.
    destruct (Ascii.eqb_spec y x) as [->|Hne].
    + destruct (Ascii.ascii_dec x x); [|contradiction]. apply IH. lia.
    + destruct (Ascii.ascii_dec y x); [contradiction | reflexivity].
Qed.

(** X29: [match_search_item_kernel] selects a filesystem by any prefix
    of its unparsed uuid, by its non-empty label, or by its mount point:
    it returns 1 exactly in these cases and 0 otherwise.  The empty
    search string is a prefix of every uuid. *)
Theorem match_search_item_kernel_prefix (size : nat)
    (uuid_unparse : list byte -> string) (fsid : list byte)
    (mnt label search : string) :
  (String.length (uuid_unparse fsid) < size)%nat ->
  (match_search_item_kernel size uuid_unparse fsid mnt label search = 1 <->
   String.prefix search (uuid_unparse fsid) = true \/
   (label <> EmptyString /\ label = search) \/
   mnt = search) /\
  (match_search_item_kernel size uuid_unparse fsid mnt label search = 0 \/
   match_search_item_kernel size uuid_unparse fsid mnt label search = 1) /\
  match_search_item_kernel size uuid_unparse fsid mnt label EmptyString = 1.
Proof.
  intros Hlen. unfold match_search_item_kernel.
  rewrite !strncmp_eq_prefix by exact Hlen.
  split; [|split].
  - destruct (String.prefix search (uuid_unparse fsid)); [tauto|].
    destruct (String.eqb_spec label EmptyString) as [El|El]; simpl.
    + destruct (String.eqb_spec mnt search) as [Em|Em].
      * tauto.
      * split; [discriminate|]. intros [H|[[H _]|H]];
          [discriminate | contradiction | contradiction].
    + destruct (String.eqb_spec label search) as [Es|Es]; [tauto|].
      destruct (String.eqb_spec mnt search) as [Em|Em]; [tauto|].
      split; [discriminate|]. intros [H|[[_ H]|H]];
        [discriminate | contradiction | contradiction].
  - destruct (String.prefix search (uuid_unparse fsid)); [auto|].
    destruct (negb (label =? "")%string && (label =? search)%string); [auto|].
    destruct (mnt =? search)%string; auto.
  - destruct (uuid_unparse fsid); reflexivity.
Qed.

Lemma match_search_item_kernel_prefix_witness :
  (match_search_item_kernel 37
     (fun _ => "0c2b6ac9-3c0f-4e5b-9a45-8c2f0a6d7e11"%string) fsid_a
     "/mnt"%string "data"%string "0c2b"%string = 1 <->
   String.prefix "0c2b"%string "0c2b6ac9-3c0f-4e5b-9a45-8c2f0a6d7e11"%string
     = true \/
   ("data"%string <> EmptyString /\ "data"%string = "0c2b"%string) \/
   "/mnt"%string = "0c2b"%string) /\
  (match_search_item_kernel 37
     (fun _ => "0c2b6ac9-3c0f-4e5b-9a45-8c2f0a6d7e11"%string) fsid_a
     "/mnt"%string "data"%string "0c2b"%string = 0 \/
   match_search_item_kernel 37
     (fun _ => "0c2b6ac9-3c0f-4e5b-9a45-8c2f0a6d7e11"%string) fsid_a
     "/mnt"%string "data"%string "0c2b"%string = 1) /\
  match_search_item_kernel 37
    (fun _ => "0c2b6ac9-3c0f-4e5b-9a45-8c2f0a6d7e11"%string) fsid_a
    "/mnt"%string "data"%string EmptyString = 1.
Proof.
  apply (@match_search_item_kernel_prefix 37
           (fun _ => "0c2b6ac9-3c0f-4e5b-9a45-8c2f0a6d7e11"%string) fsid_a
           "/mnt"%string "data"%string "0c2b"%string).
  simpl. lia.
Defined.
